(** * BOLT: a shallow embedding of the router, memory, identity and tool layers

    The Python sources embedded here are [config.py], [memory.py],
    [identity.py], [tools.py] and [brain.py].  Python strings are sequences
    of Unicode code points; integers are unbounded, so token counts and
    budgets live in [Z].  The SQLite tables become lists of rows kept in
    insertion (increasing id) order, except [user_profile], whose
    [UNIQUE(category, key)] constraint makes it a finite map. *)

From Stdlib Require Import ZArith NArith List String Ascii Bool Lia QArith DecimalString.
From stdpp Require Import gmap list sorting.
Import ListNotations.

Local Open Scope Z_scope.

(** ** Python strings *)

Module PyStr.

(** A [str] is a list of code points. *)
Definition char := N.
Definition str := list char.

(** A literal of the source, written as a Rocq string of ASCII bytes. *)
Definition lit (s : string) : str :=
  map N_of_ascii (list_ascii_of_string s).

Definition char_eqb : char -> char -> bool := N.eqb.

Fixpoint str_eqb (a b : str) : bool :=
  match a, b with
  | [], [] => true
  | x :: a', y :: b' => char_eqb x y && str_eqb a' b'
  | _, _ => false
  end.

(** [len(s)] *)
Definition len (s : str) : Z := Z.of_nat (length s).

(** [s[:n]] for a non-negative constant [n] *)
Definition slice_to (n : nat) (s : str) : str := firstn n s.

(** [s.startswith(p)] *)
Fixpoint startswith (p s : str) : bool :=
  match p, s with
  | [], _ => true
  | x :: p', y :: s' => char_eqb x y && startswith p' s'
  | _ :: _, [] => false
  end.

(** The remainder of [s] after the prefix [p], when [s] starts with [p]. *)
Fixpoint strip_prefix (p s : str) : option str :=
  match p, s with
  | [], _ => Some s
  | x :: p', y :: s' => if char_eqb x y then strip_prefix p' s' else None
  | _ :: _, [] => None
  end.

(** [needle in hay] *)
Fixpoint contains (needle hay : str) : bool :=
  startswith needle hay ||
  match hay with
  | [] => false
  | _ :: hay' => contains needle hay'
  end.

(** [str.isspace] on one code point, the class behind [str.strip()] and
    the [\s] of a [str] pattern. *)
Definition is_space (c : char) : bool :=
  ((9 <=? c) && (c <=? 13) || (28 <=? c) && (c <=? 32)
   || (c =? 133) || (c =? 160) || (c =? 5760)
   || (8192 <=? c) && (c <=? 8202)
   || (c =? 8232) || (c =? 8233) || (c =? 8239) || (c =? 8287)
   || (c =? 12288))%N.

Fixpoint lstrip (s : str) : str :=
  match s with
  | c :: s' => if is_space c then lstrip s' else s
  | [] => []
  end.

Definition rstrip (s : str) : str := rev (lstrip (rev s)).

(** [s.strip()] *)
Definition strip (s : str) : str := rstrip (lstrip s).

(** The two halves of [s] around its first occurrence of [sep], if any
    ([str.partition] without the separator). *)
Fixpoint cut (sep s : str) : option (str * str) :=
  match strip_prefix sep s with
  | Some rest => Some ([], rest)
  | None =>
      match s with
      | [] => None
      | c :: s' =>
          match cut sep s' with
          | Some (a, b) => Some (c :: a, b)
          | None => None
          end
      end
  end.

(** [s.split(sep, maxsplit)] for a non-empty [sep] *)
Fixpoint split (sep : str) (maxsplit : nat) (s : str) : list str :=
  match maxsplit with
  | O => [s]
  | S k =>
      match cut sep s with
      | Some (a, b) => a :: split sep k b
      | None => [s]
      end
  end.

(** [s.replace(old, new)].  Python scans left to right and resumes after
    each replaced occurrence; an empty [old] inserts [new] before every
    character and at the end. *)
Fixpoint replace_from (fuel : nat) (old new s : str) : str :=
  match fuel with
  | O => s
  | S fuel' =>
      match strip_prefix old s with
      | Some rest => new ++ replace_from fuel' old new rest
      | None =>
          match s with
          | [] => []
          | c :: s' => c :: replace_from fuel' old new s'
          end
      end
  end.

Definition replace (old new s : str) : str :=
  match old with
  | [] => new ++ flat_map (fun c => c :: new) s
  | _ :: _ => replace_from (S (length s)) old new s
  end.

(** [sep.join(parts)] *)
Fixpoint join (sep : str) (parts : list str) : str :=
  match parts with
  | [] => []
  | [p] => p
  | p :: ps => p ++ sep ++ join sep ps
  end.

(** [s.replace(old, new, 1)]: only the first occurrence *)
Definition replace_first (old new s : str) : str :=
  match cut old s with
  | Some (a, b) => a ++ new ++ b
  | None => s
  end.

(** The newline character, [chr(10)]. *)
Definition nl : str := [10%N].

(** [str(n)] for a non-negative integer *)
Definition decimal (n : nat) : str :=
  lit (NilEmpty.string_of_uint (Nat.to_uint n)).

(** Code-point order on strings, the BINARY collation of SQLite text. *)
Fixpoint str_cmp (a b : str) : comparison :=
  match a, b with
  | [], [] => Eq
  | [], _ :: _ => Lt
  | _ :: _, [] => Gt
  | x :: a', y :: b' =>
      match N.compare x y with
      | Eq => str_cmp a' b'
      | o => o
      end
  end.

(** Truthiness of a string: [if text:] *)
Definition truthy (s : str) : bool :=
  match s with [] => false | _ :: _ => true end.

End PyStr.
Import PyStr.

(** ** config.py *)

Module Config.

Definition MAX_CONTEXT_TOKENS : Z := 2000.
Definition CHARS_PER_TOKEN : Z := 4.
Definition MAX_TOOL_LOOPS : nat := 25.

(** The model roster: logical key to model name. *)
Definition MODELS : list (str * str) :=
  [ (lit "router", lit "qwen2.5:1.5b");
    (lit "companion", lit "qwen2.5:7b");
    (lit "fast_code", lit "qwen2.5-coder:3b");
    (lit "worker_light", lit "qwen2.5-coder:7b");
    (lit "worker_heavy", lit "qwen2.5-coder:14b");
    (lit "beast", lit "qwen2.5-coder:32b-instruct-q3_K_M");
    (lit "cloud", lit "cloud") ].

(** [MODELS[key]]; a missing key is Python's [KeyError]. *)
Fixpoint lookup_model (table : list (str * str)) (key : str) : option str :=
  match table with
  | [] => None
  | (k, v) :: rest => if str_eqb k key then Some v else lookup_model rest key
  end.

End Config.
Import Config.

(** ** memory.py: the persistence layer *)

Module Memory.

(** Rows of the tables.  Columns that no embedded function reads ([ts],
    [created_at], [session_snapshots], [kv]) are left out. *)
Record MsgRow := mkMsg {
  msg_id : Z;
  msg_session : str;
  msg_role : str;
  msg_content : str;
  msg_tokens : option Z          (* INTEGER, nullable *)
}.

Record SummaryRow := mkSummary {
  sum_id : Z;
  sum_session : str;
  sum_text : str;
  sum_covers_up_to : Z;
  sum_tokens : option Z
}.

Record TaskRow := mkTask {
  task_id : Z;
  task_updated_at : Z;
  task_title : str;
  task_status : str;
  task_context_json : option str
}.

(** A row of [user_profile] under its key [(category, key)]. *)
Record Fact := mkFact {
  fact_value : str;
  fact_confidence : Q;
  fact_source : option str
}.

Record HandoffRow := mkHandoff {
  ho_id : Z;
  ho_from_model : str;
  ho_text : str;
  ho_session : option str
}.

(** The database file.  [*_seq] are the AUTOINCREMENT counters and [now]
    is the reading of [datetime('now')]. *)
Record Store := mkStore {
  messages : list MsgRow;
  msg_seq : Z;
  summaries : list SummaryRow;
  sum_seq : Z;
  tasks : list TaskRow;
  task_seq : Z;
  timeline : list (str * option str);
  profile : gmap (str * str) Fact;
  handoffs : list HandoffRow;
  ho_seq : Z;
  now : Z
}.

Definition with_messages (st : Store) (ms : list MsgRow) (seq : Z) : Store :=
  mkStore ms seq (summaries st) (sum_seq st) (tasks st) (task_seq st)
          (timeline st) (profile st) (handoffs st) (ho_seq st) (now st).

Definition with_summaries (st : Store) (ss : list SummaryRow) (seq : Z) : Store :=
  mkStore (messages st) (msg_seq st) ss seq (tasks st) (task_seq st)
          (timeline st) (profile st) (handoffs st) (ho_seq st) (now st).

Definition with_tasks (st : Store) (ts : list TaskRow) (seq : Z) : Store :=
  mkStore (messages st) (msg_seq st) (summaries st) (sum_seq st) ts seq
          (timeline st) (profile st) (handoffs st) (ho_seq st) (now st).

Definition with_timeline (st : Store) (tl : list (str * option str)) : Store :=
  mkStore (messages st) (msg_seq st) (summaries st) (sum_seq st) (tasks st)
          (task_seq st) tl (profile st) (handoffs st) (ho_seq st) (now st).

Definition with_profile (st : Store) (p : gmap (str * str) Fact) : Store :=
  mkStore (messages st) (msg_seq st) (summaries st) (sum_seq st) (tasks st)
          (task_seq st) (timeline st) p (handoffs st) (ho_seq st) (now st).

Definition with_handoffs (st : Store) (hs : list HandoffRow) (seq : Z) : Store :=
  mkStore (messages st) (msg_seq st) (summaries st) (sum_seq st) (tasks st)
          (task_seq st) (timeline st) (profile st) hs seq (now st).

Definition empty_store : Store :=
  mkStore [] 0 [] 0 [] 0 [] ∅ [] 0 0.

(** [estimate_tokens]: [max(1, len(text) // CHARS_PER_TOKEN)] *)
Definition estimate_tokens (text : str) : Z :=
  Z.max 1 (len text / CHARS_PER_TOKEN).

(** [save_message]: returns the new row id. *)
Definition save_message (session_id role content : str) (st : Store) : Z * Store :=
  let tokens := estimate_tokens content in
  let id := msg_seq st + 1 in
  (id, with_messages st
         (messages st ++ [mkMsg id session_id role content (Some tokens)]) id).

(** The last [n] elements of a list: [ORDER BY id DESC LIMIT n], reversed. *)
Definition lastn {A} (n : nat) (l : list A) : list A :=
  skipn (length l - n)%nat l.

(** [get_recent_messages(session_id, limit=50)] *)
Definition get_recent_messages (session_id : str) (limit : nat) (st : Store)
  : list MsgRow :=
  lastn limit (List.filter (fun r => str_eqb (msg_session r) session_id) (messages st)).

Definition save_summary (session_id summary_text : str) (covers_up_to : Z)
    (st : Store) : Store :=
  let tokens := estimate_tokens summary_text in
  let id := sum_seq st + 1 in
  with_summaries st
    (summaries st ++ [mkSummary id session_id summary_text covers_up_to (Some tokens)])
    id.

(** [get_latest_summary]: [ORDER BY id DESC LIMIT 1] *)
Definition get_latest_summary (session_id : str) (st : Store) : option SummaryRow :=
  last (List.filter (fun r => str_eqb (sum_session r) session_id) (summaries st)).

Definition is_active (t : TaskRow) : bool := str_eqb (task_status t) (lit "active").

(** [SELECT id FROM tasks WHERE status = 'active' LIMIT 1] *)
Definition first_active (ts : list TaskRow) : option TaskRow :=
  List.find is_active ts.

(** [upsert_task(title, status="active", context_json=None)] *)
Definition upsert_task (title status : str) (context_json : option str)
    (st : Store) : Store :=
  match first_active (tasks st) with
  | Some existing =>
      with_tasks st
        (map (fun t =>
                if (task_id t =? task_id existing)
                then mkTask (task_id t) (now st) title status context_json
                else t)
             (tasks st))
        (task_seq st)
  | None =>
      let id := task_seq st + 1 in
      with_tasks st (tasks st ++ [mkTask id (now st) title status context_json]) id
  end.

(** The active row with the greatest [updated_at]; the first such row on a
    tie. *)
Fixpoint newest (best : TaskRow) (ts : list TaskRow) : TaskRow :=
  match ts with
  | [] => best
  | t :: ts' =>
      newest (if (task_updated_at best <? task_updated_at t) then t else best) ts'
  end.

(** [get_active_task]:
    [WHERE status = 'active' ORDER BY updated_at DESC LIMIT 1] *)
Definition get_active_task (st : Store) : option TaskRow :=
  match List.filter is_active (tasks st) with
  | [] => None
  | t :: ts => Some (newest t ts)
  end.

(** [complete_active_task]:
    [UPDATE tasks SET status='done', updated_at=... WHERE status='active'] *)
Definition complete_active_task (st : Store) : Store :=
  with_tasks st
    (map (fun t =>
            if is_active t
            then mkTask (task_id t) (now st) (task_title t) (lit "done")
                        (task_context_json t)
            else t)
         (tasks st))
    (task_seq st).

(** [log_event(event, details=None)] *)
Definition log_event (event : str) (details : option str) (st : Store) : Store :=
  with_timeline st (timeline st ++ [(event, details)]).


(** A chat message as sent to a model: [{"role": ..., "content": ...}]. *)
Record Message := mkMessage { role : str; content : str }.

(** [row["token_estimate"] or estimate_tokens(row["content"])] *)
Definition row_cost (r : MsgRow) : Z :=
  match msg_tokens r with
  | Some n => if n =? 0 then estimate_tokens (msg_content r) else n
  | None => estimate_tokens (msg_content r)
  end.

(** The selection loop over [reversed(recent)]: rows are taken newest
    first until one does not fit; the result is in loop order. *)
Fixpoint select_recent (budget total_cost : Z) (newest_first : list MsgRow)
  : list MsgRow :=
  match newest_first with
  | [] => []
  | row :: rest =>
      let cost := row_cost row in
      if total_cost + cost >? budget then []
      else row :: select_recent budget (total_cost + cost) rest
  end.

(** The role a stored row gets on the wire. *)
Definition wire_role (r : str) : str :=
  if str_eqb r (lit "tool") || str_eqb r (lit "tool_result") then lit "system"
  else if str_eqb r (lit "user") || str_eqb r (lit "assistant")
          || str_eqb r (lit "system") then r
  else lit "user".

Definition wire_message (r : MsgRow) : Message :=
  mkMessage (wire_role (msg_role r)) (msg_content r).

Definition summary_line (s : SummaryRow) : str :=
  lit "[Conversation summary so far]: " ++ sum_text s.

Definition task_line (t : TaskRow) : str :=
  lit "[Current task]: " ++ task_title t ++ lit " (status: "
    ++ task_status t ++ lit ")".

(** [build_context(session_id, system_prompt="")] *)
Definition build_context (session_id system_prompt : str) (st : Store)
  : list Message :=
  let budget := MAX_CONTEXT_TOKENS in
  let messages := [] in
  let '(messages, budget) :=
    if truthy system_prompt
    then (messages ++ [mkMessage (lit "system") system_prompt],
          budget - estimate_tokens system_prompt)
    else (messages, budget) in
  let '(messages, budget) :=
    match get_latest_summary session_id st with
    | Some summary =>
        let summary_text := summary_line summary in
        let cost := estimate_tokens summary_text in
        if cost <? budget
        then (messages ++ [mkMessage (lit "system") summary_text], budget - cost)
        else (messages, budget)
    | None => (messages, budget)
    end in
  let '(messages, budget) :=
    match get_active_task st with
    | Some task =>
        let task_text := task_line task in
        let cost := estimate_tokens task_text in
        if cost <? budget
        then (messages ++ [mkMessage (lit "system") task_text], budget - cost)
        else (messages, budget)
    | None => (messages, budget)
    end in
  let recent := get_recent_messages session_id 50 st in
  let selected := rev (select_recent budget 0 (rev recent)) in
  messages ++ map wire_message selected.

End Memory.
Import Memory.

(** ** identity.py: profile facts, handoffs and the identity briefing *)

Module Identity.

(** The prose constants of [config.py] that the briefing is made of.
    [BOLT_IDENTITY] is [identity_head] followed by the two placeholders
    [{user_profile}] and [{mode_context}] on a line each. *)
Record Prompts := mkPrompts {
  identity_head : str;
  COMPANION_CONTEXT : str;
  BUILD_CONTEXT : str;
  CODE_CONTEXT : str
}.

(** [confidence >= existing["confidence"]] on the stored REAL. *)
Definition conf_ge (a b : Q) : bool := Qle_bool b a.

(** [save_fact(category, key, value, confidence=0.5, source=None)] *)
Definition save_fact (category key value : str) (confidence : Q)
    (source : option str) (st : Store) : Store :=
  match profile st !! (category, key) with
  | Some existing =>
      if conf_ge confidence (fact_confidence existing)
      then with_profile st
             (<[(category, key) := mkFact value confidence source]> (profile st))
      else st
  | None =>
      with_profile st
        (<[(category, key) := mkFact value confidence source]> (profile st))
  end.

(** [forget_fact] and [clear_profile] *)
Definition forget_fact (category key : str) (st : Store) : Store :=
  with_profile st (delete (category, key) (profile st)).

Definition clear_profile (st : Store) : Store := with_profile st ∅.

(** [save_handoff] and [get_latest_handoff] *)
Definition save_handoff (from_model handoff_text : str) (session_id : option str)
    (st : Store) : Store :=
  let id := ho_seq st + 1 in
  with_handoffs st
    (handoffs st ++ [mkHandoff id from_model handoff_text session_id]) id.

Definition same_session (sid : str) (h : HandoffRow) : bool :=
  match ho_session h with
  | Some s => str_eqb s sid
  | None => false
  end.

Definition get_latest_handoff (session_id : option str) (st : Store)
  : option HandoffRow :=
  match session_id with
  | Some sid =>
      if truthy sid then last (List.filter (same_session sid) (handoffs st))
      else last (handoffs st)
  | None => last (handoffs st)
  end.

(** [SELECT ... FROM user_profile ORDER BY category, key] *)
Definition key_leb (a b : str * str) : bool :=
  match str_cmp (fst a) (fst b) with
  | Lt => true
  | Gt => false
  | Eq => match str_cmp (snd a) (snd b) with Gt => false | _ => true end
  end.

Fixpoint insert_row (r : (str * str) * Fact) (rows : list ((str * str) * Fact))
  : list ((str * str) * Fact) :=
  match rows with
  | [] => [r]
  | x :: rows' =>
      if key_leb (fst r) (fst x) then r :: rows else x :: insert_row r rows'
  end.

Definition profile_rows (st : Store) : list ((str * str) * Fact) :=
  foldr insert_row [] (map_to_list (profile st)).

(** [profile[cat][key] = ...] on the dict of dicts, insertion ordered. *)
Fixpoint dict_set {V} (k : str) (v : V) (d : list (str * V)) : list (str * V) :=
  match d with
  | [] => [(k, v)]
  | (k', v') :: d' =>
      if str_eqb k' k then (k', v) :: d' else (k', v') :: dict_set k v d'
  end.

Fixpoint dict_get {V} (k : str) (d : list (str * V)) : option V :=
  match d with
  | [] => None
  | (k', v') :: d' => if str_eqb k' k then Some v' else dict_get k d'
  end.

(** [get_profile()]: [{category: {key: fact}}] *)
Definition get_profile (st : Store) : list (str * list (str * Fact)) :=
  fold_left
    (fun prof r =>
       let cat := fst (fst r) in
       let facts := match dict_get cat prof with Some fs => fs | None => [] end in
       dict_set cat (dict_set (snd (fst r)) (snd r) facts) prof)
    (profile_rows st) [].

(** [get_profile_text()] *)
Definition get_profile_text (st : Store) : str :=
  match get_profile st with
  | [] =>
      lit "You don't know much about this user yet. Pay attention and learn naturally."
  | prof =>
      let lines :=
        [lit "What you know about this user:"]
        ++ map (fun cf : str * list (str * Fact) =>
                  let items :=
                    map (fun kv : str * Fact => fst kv ++ lit ": " ++ fact_value (snd kv))
                        (snd cf) in
                  lit "  " ++ fst cf ++ lit ": " ++ join (lit ", ") items)
               prof
        ++ [lit "Use this naturally " ++ [8212%N]
              ++ lit " don't recite it back. Just let it inform how you talk to them."]
      in join nl lines
  end.

(** [_sanitize_for_prompt(text)] *)
Definition _sanitize_for_prompt (text : str) : str :=
  if negb (truthy text) then text
  else
    let text := replace (lit "}") [] (replace (lit "{") [] text) in
    let text := replace (lit "</tool") (lit "&lt;/tool")
                  (replace (lit "<tool") (lit "&lt;tool") text) in
    if len text >? 2000 then slice_to 2000 text ++ lit "..." else text.

(** [build_identity(mode="companion", session_id=None)] *)
Definition build_identity (P : Prompts) (mode : str) (session_id : option str)
    (st : Store) : str :=
  let profile_text := _sanitize_for_prompt (get_profile_text st) in
  let mode_context :=
    if str_eqb mode (lit "companion") then COMPANION_CONTEXT P
    else if str_eqb mode (lit "build") then BUILD_CONTEXT P
    else if str_eqb mode (lit "code") then CODE_CONTEXT P
    else COMPANION_CONTEXT P in
  let identity_text := identity_head P ++ profile_text ++ nl ++ mode_context in
  match get_latest_handoff session_id st with
  | Some handoff =>
      let safe_handoff := _sanitize_for_prompt (ho_text handoff) in
      identity_text ++ nl ++ nl ++ lit "[Handoff from previous brain region ("
        ++ ho_from_model handoff ++ lit ")]: " ++ safe_handoff
  | None => identity_text
  end.

End Identity.
Import Identity.

(** ** tools.py: sandboxed file tools and tool-call markup *)

Module Tools.

(** What the file tools need from the operating system.  [FS] is the state
    of the file system; an operation that can raise returns the exception
    message next to the state it leaves behind. *)
Class FileSystem (FS : Type) := {
  expanduser : str -> str;
  realpath : FS -> str -> str;
  isfile : FS -> str -> bool;
  makedirs : str -> FS -> option str * FS;
  open_read : str -> FS -> (str + str) * FS;
  open_write : str -> str -> FS -> option str * FS
}.

Definition sep : str := lit "/".

(** [os.path.join(a, b)] *)
Definition path_join (a b : str) : str :=
  if startswith sep b then b
  else if negb (truthy a) || startswith sep (rev a) then a ++ b
  else a ++ sep ++ b.

(** [os.path.dirname(p)] *)
Fixpoint drop_to_sep (s : str) : str :=
  match s with
  | [] => []
  | c :: s' => if char_eqb c 47%N then s else drop_to_sep s'
  end.

Fixpoint drop_seps (s : str) : str :=
  match s with
  | c :: s' => if char_eqb c 47%N then drop_seps s' else s
  | [] => []
  end.

Definition dirname (p : str) : str :=
  let head := rev (drop_to_sep (rev p)) in
  if truthy head && negb (forallb (fun c => char_eqb c 47%N) head)
  then rev (drop_seps (rev head))
  else head.

Section Sandbox.
Context {FS : Type} `{FileSystem FS}.

Definition _HOME_DIR : str := expanduser (lit "~").

Definition _DENIED_PATHS : list str :=
  [ path_join _HOME_DIR (lit ".ssh");
    path_join _HOME_DIR (lit ".gnupg");
    path_join (path_join _HOME_DIR (lit ".config")) (lit "autostart") ].

(** [resolved.startswith(root + os.sep) or resolved == root] *)
Definition under (root resolved : str) : bool :=
  startswith (root ++ sep) resolved || str_eqb resolved root.

(** [_validate_path(path, allow_read_only=False)]: the resolved path, or
    the error string of the pair [(None, error)]. *)
Definition _validate_path (path : str) (allow_read_only : bool) (fs : FS)
  : str + str :=
  let resolved := realpath fs (expanduser path) in
  if negb (under _HOME_DIR resolved)
  then inr (lit "Access denied: path must be under " ++ _HOME_DIR)
  else if negb allow_read_only then
    match List.find (fun denied => under denied resolved) _DENIED_PATHS with
    | Some denied => inr (lit "Access denied: cannot write to " ++ denied)
    | None => inl resolved
    end
  else inl resolved.

(** [tool_write_file(args)] *)
Definition tool_write_file (args : str) (fs : FS) : str * FS :=
  match split nl 1 (strip args) with
  | line0 :: content :: _ =>
      match _validate_path (strip line0) false fs with
      | inr err => (err, fs)
      | inl path =>
          let dir := dirname path in
          match makedirs (if truthy dir then dir else lit ".") fs with
          | (Some e, fs1) => (lit "Error writing file: " ++ e, fs1)
          | (None, fs1) =>
              match open_write path content fs1 with
              | (Some e, fs2) => (lit "Error writing file: " ++ e, fs2)
              | (None, fs2) =>
                  (lit "Written to " ++ path ++ lit " ("
                     ++ decimal (length content) ++ lit " bytes)", fs2)
              end
          end
      end
  | _ => (lit "Usage: first line is file path, remaining lines are content.", fs)
  end.

(** [tool_edit_file(args)] *)
Definition tool_edit_file (args : str) (fs : FS) : str * FS :=
  match split nl 2 (strip args) with
  | line0 :: old :: new :: _ =>
      match _validate_path (strip line0) false fs with
      | inr err => (err, fs)
      | inl path =>
          if negb (isfile fs path) then (lit "File not found: " ++ path, fs)
          else
            match open_read path fs with
            | (inr e, fs1) => (lit "Error editing file: " ++ e, fs1)
            | (inl content, fs1) =>
                if negb (contains old content)
                then (lit "String to replace not found in file.", fs1)
                else
                  let content := replace_first old new content in
                  match open_write path content fs1 with
                  | (Some e, fs2) => (lit "Error editing file: " ++ e, fs2)
                  | (None, fs2) => (lit "Edited " ++ path, fs2)
                  end
            end
      end
  | _ =>
      (lit "Usage: line1=file path, line2=string to find, line3=replacement string",
       fs)
  end.

End Sandbox.

(** *** Tool-call markup *)

(** The fragment of regular expressions the call pattern is written in:
    literal text and a repeated character class, greedy [c+] or lazy
    [c*?], possibly inside a capture group. *)
Inductive repetition := GreedyPlus | LazyStar.

Inductive node :=
| Lit (text : str)
| Rep (kind : repetition) (cls : char -> bool) (capture : bool).

(** The greedy repetition [cls+]: take one more character of the class,
    then prefer taking further ones to handing over to the continuation
    [k], which receives the text taken and the input left. *)
Fixpoint greedy_plus {R} (cls : char -> bool) (k : str -> str -> option R)
    (taken s : str) : option R :=
  match s with
  | c :: s' =>
      if cls c then
        match greedy_plus cls k (taken ++ [c]) s' with
        | Some r => Some r
        | None => k (taken ++ [c]) s'
        end
      else None
  | [] => None
  end.

(** The lazy repetition [cls*?]: hand over to the continuation first, and
    take one more character only when that fails. *)
Fixpoint lazy_star {R} (cls : char -> bool) (k : str -> str -> option R)
    (taken s : str) : option R :=
  match k taken s with
  | Some r => Some r
  | None =>
      match s with
      | c :: s' => if cls c then lazy_star cls k (taken ++ [c]) s' else None
      | [] => None
      end
  end.

(** Backtracking match of a pattern at the start of [s]: the captured
    groups and the input left after the match.  Alternatives are tried in
    the order of Python's engine: a greedy repetition prefers the longest
    run, a lazy one the shortest. *)
Fixpoint match_here (p : list node) (s : str) : option (list str * str) :=
  match p with
  | [] => Some ([], s)
  | Lit text :: p' =>
      match strip_prefix text s with
      | Some rest => match_here p' rest
      | None => None
      end
  | Rep kind cls capture :: p' =>
      let continue (taken rest : str) :=
        match match_here p' rest with
        | Some (groups, remaining) =>
            Some (if capture then taken :: groups else groups, remaining)
        | None => None
        end in
      match kind with
      | GreedyPlus => greedy_plus cls continue [] s
      | LazyStar => lazy_star cls continue [] s
      end
  end.

(** [re.findall(p, text)]: the groups of the successive non-overlapping
    matches, leftmost first.  The patterns used here never match the empty
    string, so every match consumes input. *)
Fixpoint findall_from (fuel : nat) (p : list node) (s : str) : list (list str) :=
  match fuel with
  | O => []
  | S fuel' =>
      match match_here p s with
      | Some (groups, rest) => groups :: findall_from fuel' p rest
      | None =>
          match s with
          | [] => []
          | _ :: s' => findall_from fuel' p s'
          end
      end
  end.

Definition findall (p : list node) (s : str) : list (list str) :=
  findall_from (S (length s)) p s.

(** [re.sub(p, repl, text)] for a replacement without group references *)
Fixpoint sub_from (fuel : nat) (p : list node) (repl s : str) : str :=
  match fuel with
  | O => s
  | S fuel' =>
      match match_here p s with
      | Some (_, rest) => repl ++ sub_from fuel' p repl rest
      | None =>
          match s with
          | [] => []
          | c :: s' => c :: sub_from fuel' p repl s'
          end
      end
  end.

Definition sub (p : list node) (repl s : str) : str :=
  sub_from (S (length s)) p repl s.

Definition quote : char := 34%N.

(** The call pattern [<tool\s+name=Q([^Q]+)Q>(.*?)</tool>], where [Q]
    stands for the double quote character, compiled with [re.DOTALL]. *)
Definition pattern : list node :=
  [ Lit (lit "<tool");
    Rep GreedyPlus is_space false;
    Lit (lit "name=" ++ [quote]);
    Rep GreedyPlus (fun c => negb (char_eqb c quote)) true;
    Lit (quote :: lit ">");
    Rep LazyStar (fun _ => true) true;
    Lit (lit "</tool>") ].

(** The [(name, args)] tuple of a match of [pattern]. *)
Definition call_of (groups : list str) : str * str :=
  match groups with
  | [name; args] => (name, args)
  | _ => ([], [])
  end.

(** [parse_tool_calls(text)] *)
Definition parse_tool_calls (text : str) : list (str * str) * str :=
  let matches := map call_of (findall pattern text) in
  let cleaned := strip (sub pattern [] text) in
  (matches, cleaned).

(** [format_tool_result(name, result)] *)
Definition format_tool_result (name result : str) : str :=
  lit "<tool_result name=" ++ [quote] ++ name ++ [quote] ++ lit ">" ++ result
    ++ lit "</tool_result>".

End Tools.
Import Tools.

(** ** brain.py: routing, context assembly and the tool loop *)

Module Brain.

(** The collaborators of the turn executor.  [W] is the state of everything
    outside the database: the inference servers, the file system, the
    terminal.  [_ollama_chat] and [cloud_chat] are the two inference
    clients; one application of either is one inference call, and each
    returns the chunks it yields ([cloud_chat] possibly ending in an
    exception).  [TOOLS] is the tool registry: a handler returns its result
    or the message of the exception it raised. *)
Class Runtime (W : Type) := {
  _ollama_chat : str -> list Message -> bool -> W -> list str * W;
  cloud_chat : list Message -> W -> (list str * option str) * W;
  cloud_is_available : W -> bool * W;
  TOOLS : str -> option (str -> W -> (str + str) * W);
  lower : str -> str
}.

(** The state a turn runs in.  [inference_calls] is a ghost counter of the
    calls made to the inference clients. *)
Record State (W : Type) := mkState {
  world : W;
  db : Store;
  _current_mode : str;
  inference_calls : nat
}.
Arguments mkState {W}.
Arguments world {W}.
Arguments db {W}.
Arguments _current_mode {W}.
Arguments inference_calls {W}.

(** A state monad over [State W]. *)
Definition M (W A : Type) : Type := State W -> A * State W.

Definition ret {W A} (a : A) : M W A := fun s => (a, s).

Definition bind {W A B} (m : M W A) (k : A -> M W B) : M W B :=
  fun s => let (a, s') := m s in k a s'.

Notation "'let*' x ':=' c1 'in' c2" := (bind c1 (fun x => c2))
  (at level 10, x name, c1 at level 100, c2 at level 200).

Definition on_db {W} (f : Store -> Store) : M W unit :=
  fun s => (tt, mkState (world s) (f (db s)) (_current_mode s) (inference_calls s)).

Definition query_db {W A} (f : Store -> A) : M W A :=
  fun s => (f (db s), s).

Definition on_world {W A} (f : W -> A * W) : M W A :=
  fun s => let (a, w) := f (world s) in
           (a, mkState w (db s) (_current_mode s) (inference_calls s)).

Definition count_inference {W} : M W unit :=
  fun s => (tt, mkState (world s) (db s) (_current_mode s) (S (inference_calls s))).

Definition get_mode {W} : M W str := fun s => (_current_mode s, s).

Definition set_mode {W} (mode : str) : M W unit :=
  fun s => (tt, mkState (world s) (db s) mode (inference_calls s)).

(** [for x in xs: body(x)] *)
Fixpoint for_each {W A} (xs : list A) (body : A -> M W unit) : M W unit :=
  match xs with
  | [] => ret tt
  | x :: xs' => let* _ := body x in for_each xs' body
  end.

(** [MODELS[key]]; every key the router produces is in the roster. *)
Definition model_name (key : str) : str :=
  match lookup_model MODELS key with
  | Some name => name
  | None => []
  end.

(** [ROUTER_PROMPT.format(message=...)] *)
Definition ROUTER_PROMPT (message : str) : str :=
  join nl
    [ lit "Classify the user message into exactly one category. Reply with ONLY the category word, nothing else.";
      [];
      lit "Categories:";
      lit "- companion: casual conversation, greetings, personal chat, questions about life/opinions, getting to know each other";
      lit "- code_simple: short code snippets, simple functions, basic syntax questions, quick fixes";
      lit "- code_complex: multi-file code, architecture, debugging complex issues, refactoring, algorithms";
      lit "- code_beast: very large codebases, extremely complex algorithms, performance-critical code, system design implementation";
      lit "- cloud: needs advanced reasoning, large code generation, architecture design, or the user explicitly asks for cloud/sonnet";
      [];
      lit "Message: " ++ message;
      [];
      lit "Category:" ].

Section Turn.
Context {W : Type} `{Runtime W}.

(** [state.log(event, details)] *)
Definition log (event details : str) : M W unit :=
  on_db (log_event event (Some details)).

Definition save (session_id role content : str) : M W unit :=
  on_db (fun st => snd (save_message session_id role content st)).

(** One call of the local inference client. *)
Definition ollama (model : str) (messages : list Message) (stream : bool)
  : M W (list str) :=
  let* _ := count_inference in on_world (_ollama_chat model messages stream).

(** One call of the cloud inference client. *)
Definition cloud (messages : list Message) : M W (list str * option str) :=
  let* _ := count_inference in on_world (cloud_chat messages).

(** [_chat_full(model, messages)] *)
Definition _chat_full (model : str) (messages : list Message) : M W str :=
  let* parts := ollama model messages false in
  ret (concat parts).

Definition categories : list str :=
  [ lit "cloud"; lit "code_beast"; lit "code_complex"; lit "code_simple";
    lit "companion" ].

(** [_classify(user_message)] *)
Definition _classify (user_message : str) : M W str :=
  let prompt := ROUTER_PROMPT (slice_to 500 user_message) in
  let messages := [mkMessage (lit "user") prompt] in
  let* raw := _chat_full (model_name (lit "router")) messages in
  let result := lower (strip raw) in
  ret (match List.find (fun cat => contains cat result) categories with
       | Some cat => cat
       | None => lit "companion"
       end).

(** [_pick_model(category)] *)
Definition _pick_model (category : str) : M W str :=
  let* mode := get_mode in
  if str_eqb mode (lit "companion") && str_eqb category (lit "companion")
  then ret (lit "companion")
  else if str_eqb category (lit "cloud") || str_eqb category (lit "code_beast")
  then
    let* available := on_world cloud_is_available in
    if available then ret (lit "cloud")
    else ret (if str_eqb category (lit "code_beast") then lit "beast"
              else lit "worker_heavy")
  else
    ret (if str_eqb category (lit "companion") then lit "companion"
         else if str_eqb category (lit "code_simple") then lit "fast_code"
         else if str_eqb category (lit "code_complex") then lit "worker_heavy"
         else lit "companion").

(** [_pick_mode_for_category(category)] *)
Definition _pick_mode_for_category (category : str) : str :=
  if str_eqb category (lit "companion") then lit "companion" else lit "code".

(** [_build_context_with_identity(session_id, mode="companion")] *)
Definition _build_context_with_identity (P : Prompts) (session_id mode : str)
    (st : Store) : list Message :=
  let budget := MAX_CONTEXT_TOKENS in
  let messages := [] in
  let bolt_identity := build_identity P mode (Some session_id) st in
  let messages := messages ++ [mkMessage (lit "system") bolt_identity] in
  let budget := budget - estimate_tokens bolt_identity in
  let '(messages, budget) :=
    match get_latest_summary session_id st with
    | Some summary =>
        let summary_text := summary_line summary in
        let cost := estimate_tokens summary_text in
        if cost <? budget
        then (messages ++ [mkMessage (lit "system") summary_text], budget - cost)
        else (messages, budget)
    | None => (messages, budget)
    end in
  let '(messages, budget) :=
    match get_active_task st with
    | Some task =>
        let task_text := task_line task in
        let cost := estimate_tokens task_text in
        if cost <? budget
        then (messages ++ [mkMessage (lit "system") task_text], budget - cost)
        else (messages, budget)
    | None => (messages, budget)
    end in
  let recent := get_recent_messages session_id 50 st in
  let selected := rev (select_recent budget 0 (rev recent)) in
  messages ++ map wire_message selected.

(** [execute_tool(name, args)] *)
Definition execute_tool (name args : str) : M W (bool * str) :=
  match TOOLS name with
  | None => ret (false, lit "Unknown tool: " ++ name)
  | Some func =>
      let* r := on_world (func args) in
      ret (match r with
           | inl result => (true, result)
           | inr e => (false, lit "Tool error: " ++ e)
           end)
  end.

Definition callback := option (str -> W -> W).

Definition call_back (cb : str -> W -> W) (chunk : str) : M W unit :=
  on_world (fun w => (tt, cb chunk w)).

(** One pass of the generation step of the loop body: the text of the
    reply. *)
Definition generate_once (is_cloud : bool) (model : str)
    (messages : list Message) (stream_callback : callback) (loop_num : nat)
  : M W str :=
  if is_cloud then
    let* r := cloud messages in
    let full_text := concat (fst r) in
    let* _ :=
      match stream_callback with
      | Some cb =>
          for_each (fst r)
            (fun chunk =>
               if (loop_num =? 0)%nat then call_back cb chunk
               else if truthy chunk then call_back cb chunk
               else ret tt)
      | None => ret tt
      end in
    match snd r with
    | Some e =>
        let* _ := log (lit "cloud_error") e in
        ret (if truthy full_text
             then full_text ++ nl ++ lit "[cloud connection lost, partial response]"
             else lit "[BOLT: Cloud brain failed " ++ [8212%N]
                    ++ lit " try again or I'll go local.]")
    | None => ret full_text
    end
  else
    match stream_callback, loop_num with
    | Some cb, O =>
        let* chunks := ollama model messages true in
        let* _ := for_each chunks (call_back cb) in
        ret (concat chunks)
    | _, _ =>
        let* full_text := _chat_full model messages in
        let* _ :=
          match stream_callback with
          | Some cb =>
              if (0 <? loop_num)%nat then call_back cb full_text else ret tt
          | None => ret tt
          end in
        ret full_text
    end.

(** The body of [for tool_name, tool_args in tool_calls], collecting
    [all_results]. *)
Fixpoint run_tool_calls (session_id : str) (tool_calls : list (str * str))
  : M W (list str) :=
  match tool_calls with
  | [] => ret []
  | (tool_name, tool_args) :: rest =>
      let* _ := log (lit "tool_call") (tool_name ++ lit ": " ++ slice_to 100 tool_args) in
      let* r := execute_tool tool_name tool_args in
      let* _ := log (lit "tool_result")
                    (tool_name ++ lit ": "
                       ++ (if fst r then lit "ok" else lit "err")) in
      let formatted := format_tool_result tool_name (snd r) in
      let* _ := save session_id (lit "tool") (lit "Called " ++ tool_name) in
      let* _ := save session_id (lit "tool_result") (slice_to 500 (snd r)) in
      let* results := run_tool_calls session_id rest in
      ret (formatted :: results)
  end.

Definition final_text (accumulated_text full_text : str) : str :=
  if truthy accumulated_text then accumulated_text ++ full_text else full_text.

(** [for loop_num in range(MAX_TOOL_LOOPS)] with [remaining] iterations to
    go; [full_text] is the reply of the previous iteration, returned when
    the range is exhausted. *)
Fixpoint tool_loop (remaining loop_num : nat) (is_cloud : bool) (model : str)
    (session_id : str) (stream_callback : callback)
    (messages : list Message) (accumulated_text full_text : str) : M W str :=
  match remaining with
  | O => ret (final_text accumulated_text full_text)
  | S remaining' =>
      let* full_text := generate_once is_cloud model messages stream_callback loop_num in
      let '(tool_calls, cleaned_text) := parse_tool_calls full_text in
      match tool_calls with
      | [] => ret (final_text accumulated_text full_text)
      | _ :: _ =>
          let* all_results := run_tool_calls session_id tool_calls in
          let accumulated_text :=
            if truthy (strip cleaned_text)
            then accumulated_text ++ cleaned_text ++ nl
            else accumulated_text in
          let messages :=
            messages
              ++ [ mkMessage (lit "assistant") full_text;
                   mkMessage (lit "user")
                             (lit "Tool results:" ++ nl ++ join nl all_results) ] in
          tool_loop remaining' (S loop_num) is_cloud model session_id
                    stream_callback messages accumulated_text full_text
      end
  end.

(** [_generate_with_tools(model_key, context, session_id, stream_callback)] *)
Definition _generate_with_tools (model_key : str) (context : list Message)
    (session_id : str) (stream_callback : callback) : M W str :=
  let is_cloud := str_eqb model_key (lit "cloud") in
  let model := model_name model_key in
  tool_loop MAX_TOOL_LOOPS 0 is_cloud model session_id stream_callback
            context [] [].

(** [process_message(session_id, user_message, stream_callback=None)] *)
Definition process_message (P : Prompts) (session_id user_message : str)
    (stream_callback : callback) : M W str :=
  let* _ := save session_id (lit "user") user_message in
  let* category := _classify user_message in
  let* model_key := _pick_model category in
  let effective_mode := _pick_mode_for_category category in
  let* _ := log (lit "route")
                (category ++ lit " -> " ++ model_key ++ lit " (mode="
                   ++ effective_mode ++ lit ")") in
  let* context := query_db (_build_context_with_identity P session_id effective_mode) in
  let* full_response := _generate_with_tools model_key context session_id
                                             stream_callback in
  let* _ := save session_id (lit "assistant") full_response in
  let* _ := log (lit "response")
                (lit "model=" ++ model_key ++ lit ", len="
                   ++ decimal (length full_response)) in
  ret full_response.

End Turn.

End Brain.
Import Brain.

(** ** Sample environments

    Small concrete instances of the collaborator interfaces, used to run the
    embedded functions on explicit inputs. *)

Module Samples.

Definition dq : str := [quote].

(** A runtime without a cloud brain whose local model answers every prompt
    with one call of a tool that is not registered. *)
Definition tool_happy_reply : str :=
  lit "<tool name=" ++ dq ++ lit "x" ++ dq ++ lit ">y</tool>".

Definition ascii_lower (s : str) : str :=
  map (fun c => if ((65 <=? c) && (c <=? 90))%N then (c + 32)%N else c) s.

#[export] Instance tool_happy : Runtime unit := {
  _ollama_chat := fun _ _ _ w => ([tool_happy_reply], w);
  cloud_chat := fun _ w => (([], None), w);
  cloud_is_available := fun w => (false, w);
  TOOLS := fun _ => None;
  lower := ascii_lower
}.

(** A reply in which one call sits inside the opening tag of another, and
    a reply with one ordinary call. *)
Definition spliced_reply : str :=
  lit "<to<tool name=" ++ dq ++ lit "a" ++ dq ++ lit ">x</tool>ol name=" ++ dq
    ++ lit "b" ++ dq ++ lit ">y</tool>".

Definition calc_reply : str :=
  lit "hi <tool name=" ++ dq ++ lit "calc" ++ dq ++ lit ">2+2</tool> there".

(** A runtime with a calculator: the router answers [companion], the chat
    model first asks for the calculator and then, once it has been called,
    gives its answer.  The world counts the replies of the chat model. *)
#[export] Instance calculating : Runtime nat := {
  _ollama_chat := fun model _ _ n =>
    if str_eqb model (lit "qwen2.5:1.5b") then ([lit "Companion"; nl], n)
    else match n with
         | O => ([lit "hi <tool name="; dq ++ lit "calc" ++ dq; lit ">2+2</tool> there"],
                 S n)
         | S _ => ([lit "4 it is"], S n)
         end;
  cloud_chat := fun _ n => (([], None), n);
  cloud_is_available := fun n => (false, n);
  TOOLS := fun name =>
    if str_eqb name (lit "calc") then Some (fun _ n => (inl (lit "4"), n)) else None;
  lower := ascii_lower
}.

Definition plain_prompts : Prompts :=
  mkPrompts (lit "You are BOLT.") (lit "Current mode: COMPANION")
            (lit "Current mode: BUILD") (lit "Current mode: CODE").

Definition fresh_state : State unit :=
  mkState tt empty_store (lit "companion") 0.

Definition calculating_state : State nat :=
  mkState 0%nat empty_store (lit "companion") 0.

(** A file system without symbolic links: a list of files, with the home
    directory at [/home/bolt]. *)
Definition files := list (str * str).

Fixpoint file_lookup (fs : files) (path : str) : option str :=
  match fs with
  | [] => None
  | (p, c) :: fs' => if str_eqb p path then Some c else file_lookup fs' path
  end.

#[export] Instance flat_fs : FileSystem files := {
  expanduser := fun p =>
    if str_eqb p (lit "~") then lit "/home/bolt"
    else match strip_prefix (lit "~/") p with
         | Some rest => lit "/home/bolt/" ++ rest
         | None => p
         end;
  realpath := fun _ p => p;
  isfile := fun fs p => match file_lookup fs p with Some _ => true | None => false end;
  makedirs := fun _ fs => (None, fs);
  open_read := fun p fs =>
    (match file_lookup fs p with
     | Some c => inl c
     | None => inr (lit "No such file or directory")
     end, fs);
  open_write := fun p c fs => (None, (p, c) :: fs)
}.

Definition etc_passwd : files := [(lit "/etc/passwd", lit "root:x:0:0")].

End Samples.
Import Samples.

(** ** Vocabulary of the properties *)

Module Vocabulary.

(** The estimate as the specification words it:
    [max(1, ceil(len(content) / 4))]. *)
Definition ceil_div (a b : Z) : Z := (a + b - 1) / b.

Definition spec_token_estimate (content : str) : Z :=
  Z.max 1 (ceil_div (len content) 4).

(** The row [save_message] has just inserted. *)
Definition saved_row (session_id role content : str) (st : Store) : option MsgRow :=
  last (messages (snd (save_message session_id role content st))).

(** The stored value at [(category, key)], if any. *)
Definition stored_value (category key : str) (st : Store) : option str :=
  fact_value <$> (profile st !! (category, key)).

Definition stored_confidence (category key : str) (st : Store) : option Q :=
  fact_confidence <$> (profile st !! (category, key)).

(** Every stored message carries the estimate of its content, as
    [save_message] writes it. *)
Definition tokens_recorded (st : Store) : Prop :=
  forall r, In r (messages st) -> msg_tokens r = Some (estimate_tokens (msg_content r)).

(** The token estimate of a context, message by message. *)
Definition message_cost (m : Message) : Z := estimate_tokens (content m).

Definition context_cost (ctx : list Message) : Z :=
  fold_right Z.add 0 (map message_cost ctx).

(** What the assembler charges for stored rows: the recorded estimate, or
    the estimate of the content where none is recorded. *)
Definition charged (rows : list MsgRow) : Z :=
  fold_right Z.add 0 (map row_cost rows).

(** What it takes for [new] not to complete an occurrence of a word whose
    tail is [tail]: an empty [new] only protects an empty tail, a non-empty
    one must start with a character the tail does not have. *)
Definition inert (new tail : str) : Prop :=
  match new with
  | [] => tail = []
  | d :: _ => ~ In d tail
  end.

(** A text that is empty or starts with a character that is not white
    space. *)
Definition no_lead (s : str) : Prop :=
  match s with
  | c :: _ => is_space c = false
  | [] => True
  end.

(** The number of tasks whose status is [active]. *)
Definition count_active (st : Store) : nat :=
  length (List.filter is_active (tasks st)).

(** The primary key of [tasks]: ids are unique and were handed out by the
    AUTOINCREMENT counter. *)
Definition tasks_keyed (st : Store) : Prop :=
  NoDup (map task_id (tasks st)) /\
  Forall (fun t => task_id t <= task_seq st) (tasks st).

(** The row-wise effect of [UPDATE tasks SET ... WHERE id = ?]. *)
Definition retitle (id now : Z) (title status : str) (context_json : option str)
    (t : TaskRow) : TaskRow :=
  if task_id t =? id then mkTask (task_id t) now title status context_json else t.

(** A call of one of the two task writers. *)
Inductive task_op :=
| Upsert (title status : str) (context_json : option str)
| Complete.

Definition apply_task_op (st : Store) (op : task_op) : Store :=
  match op with
  | Upsert title status context_json => upsert_task title status context_json st
  | Complete => complete_active_task st
  end.

Definition run_task_ops (ops : list task_op) (st : Store) : Store :=
  fold_left apply_task_op ops st.

(** [p] is [root] itself or lies below it. *)
Definition in_subtree (root p : str) : Prop :=
  p = root \/ exists rest, p = root ++ sep ++ rest.

(** The reply of a tool is a sandbox denial. *)
Definition is_denial (reply : str) : bool := startswith (lit "Access denied") reply.

(** The inference calls a computation makes when run from [s]. *)
Definition calls_made {W A} (m : M W A) (s : State W) : nat :=
  (inference_calls (snd (m s)) - inference_calls s)%nat.

(** Run from any state, [m] makes between [lo] and [hi] inference calls. *)
Definition between {W A} (lo hi : nat) (m : M W A) : Prop :=
  forall s, (inference_calls s + lo <= inference_calls (snd (m s))
             <= inference_calls s + hi)%nat.

End Vocabulary.
Import Vocabulary.

(** ** memory.py: what a summary leaves uncovered *)

Module Summaries.

(** [last["covers_up_to"] if last else 0] for the latest summary of the
    session. *)
Definition covered_up_to (session_id : str) (st : Store) : Z :=
  match get_latest_summary session_id st with
  | Some last => sum_covers_up_to last
  | None => 0
  end.

(** [WHERE session_id = ? AND id > ?] *)
Definition uncovered (session_id : str) (after_id : Z) (r : MsgRow) : bool :=
  str_eqb (msg_session r) session_id && (after_id <? msg_id r).

(** [get_unsummarized_messages(session_id)] *)
Definition get_unsummarized_messages (session_id : str) (st : Store) : list MsgRow :=
  let after_id := covered_up_to session_id st in
  List.filter (uncovered session_id after_id) (messages st).

(** [count_unsummarized(session_id)] *)
Definition count_unsummarized (session_id : str) (st : Store) : Z :=
  let after_id := covered_up_to session_id st in
  Z.of_nat (length (List.filter (uncovered session_id after_id) (messages st))).

(** [get_latest_message_id(session_id)]: [MAX(id)], which is NULL for a
    session without messages. *)
Definition get_latest_message_id (session_id : str) (st : Store) : option Z :=
  fold_left
    (fun best r =>
       match best with
       | Some b => Some (Z.max b (msg_id r))
       | None => Some (msg_id r)
       end)
    (List.filter (fun r => str_eqb (msg_session r) session_id) (messages st))
    None.

End Summaries.
Import Summaries.

(** ** workers.py: the summarizer and the task tracker *)

Module Workers.

Definition SUMMARY_INTERVAL : Z := 20.

(** What the workers need from outside: the HTTP call of [_quick_generate],
    which yields the content of the reply or the message of the exception
    it raised, and Python's case mappings. *)
Class Generator (W : Type) := {
  quick_post : str -> W -> (str + str) * W;
  str_upper : str -> str;
  str_lower : str -> str
}.

(** [str(n)] for an integer *)
Definition decimal_Z (z : Z) : str :=
  if z <? 0 then lit "-" ++ decimal (Z.to_nat (- z)) else decimal (Z.to_nat z).

(** [s.split(sep)] without a limit *)
Definition split_all (sep s : str) : list str := split sep (length s) s.

(** [SUMMARIZER_PROMPT.format(conversation=...)] *)
Definition SUMMARIZER_PROMPT (conversation : str) : str :=
  join nl
    [ lit "Summarize this conversation concisely. Preserve key facts, decisions, code snippets referenced, files modified, and any tasks in progress. Be brief but complete.";
      [];
      lit "Conversation:";
      conversation;
      [];
      lit "Summary:" ].

(** [TASK_DETECT_PROMPT.format(user_msg=..., assistant_msg=...)] *)
Definition TASK_DETECT_PROMPT (user_msg assistant_msg : str) : str :=
  join nl
    [ lit "Based on this latest exchange, answer these questions in this exact format:";
      lit "TASK: <one-line description of what the user is working on, or NONE>";
      lit "STATUS: <active/done/none>";
      [];
      lit "Exchange:";
      lit "User: " ++ user_msg;
      lit "Assistant: " ++ assistant_msg;
      [];
      lit "Answer:" ].

Section Actors.
Context {W : Type} `{Generator W}.

(** [state.log] from a worker *)
Definition note (event details : str) : M W unit :=
  on_db (log_event event (Some details)).

(** [_quick_generate(prompt)] *)
Definition _quick_generate (prompt : str) : M W str :=
  let* r := on_world (quick_post prompt) in
  match r with
  | inl text => ret text
  | inr e => let* _ := note (lit "worker_error") e in ret []
  end.

(** [SummarizerWorker._summarize]; [final] is [msgs[-1]], which exists
    exactly when [msgs] is not empty. *)
#[warnings="-abstract-large-number"]
Definition _summarize (session_id : str) : M W unit :=
  let* msgs := query_db (get_unsummarized_messages session_id) in
  match last msgs with
  | None => ret tt
  | Some final =>
      let convo_parts :=
        map (fun m => msg_role m ++ lit ": " ++ msg_content m) msgs in
      let conversation := join nl convo_parts in
      let conversation :=
        if len conversation >? 6000
        then slice_to 6000 conversation ++ nl ++ lit "... (truncated)"
        else conversation in
      let prompt := SUMMARIZER_PROMPT conversation in
      let* summary := _quick_generate prompt in
      if truthy (strip summary) then
        let last_id := msg_id final in
        let* _ := on_db (save_summary session_id (strip summary) last_id) in
        note (lit "summarized") (lit "covered through message #" ++ decimal_Z last_id)
      else ret tt
  end.

(** One pass of the loop of [SummarizerWorker.run]. *)
Definition summarizer_pass (session_id : str) : M W unit :=
  let* count := query_db (count_unsummarized session_id) in
  if SUMMARY_INTERVAL <=? count then _summarize session_id else ret tt.

(** The loop of [_parse_task_result] over the lines of the reply: the
    last [TASK:] and [STATUS:] lines win. *)
Definition read_line (found : str * str) (line : str) : str * str :=
  let line := strip line in
  if startswith (lit "TASK:") (str_upper line)
  then (strip (skipn 5 line), snd found)
  else if startswith (lit "STATUS:") (str_upper line)
  then (fst found, str_lower (strip (skipn 7 line)))
  else found.

(** [TaskTrackerWorker._parse_task_result(result)] *)
Definition _parse_task_result (result : str) : M W unit :=
  let '(task_line, status_line) :=
    fold_left read_line (split_all nl (strip result)) ([], []) in
  if negb (truthy task_line) || str_eqb (str_upper task_line) (lit "NONE")
  then ret tt
  else if str_eqb status_line (lit "done") then
    let* _ := on_db complete_active_task in
    note (lit "task_done") task_line
  else if str_eqb status_line (lit "active") then
    let* _ := on_db (upsert_task task_line (lit "active") None) in
    note (lit "task_detected") task_line
  else ret tt.

(** [TaskTrackerWorker.check(user_msg, assistant_msg)] *)
Definition check (user_msg assistant_msg : str) : M W unit :=
  let prompt :=
    TASK_DETECT_PROMPT (slice_to 500 user_msg) (slice_to 500 assistant_msg) in
  let* result := _quick_generate prompt in
  _parse_task_result result.

End Actors.

End Workers.
Import Workers.

(** ** brain.py: what [_ollama_chat] sends *)

Module Chat.

Definition on_wire (r : str) : bool :=
  str_eqb r (lit "user") || str_eqb r (lit "assistant") || str_eqb r (lit "system").

(** One turn of the loop that builds [clean]: blank messages are dropped,
    foreign roles become [user], and a message whose role repeats the
    previous one (other than [system]) is merged into it. *)
Definition clean_step (clean : list Message) (m : Message) : list Message :=
  let role := role m in
  let content := content m in
  if negb (truthy content) || negb (truthy (strip content)) then clean
  else
    let role := if on_wire role then role else lit "user" in
    match last clean with
    | Some prev =>
        if str_eqb (Memory.role prev) role && negb (str_eqb role (lit "system"))
        then removelast clean
               ++ [mkMessage (Memory.role prev) (Memory.content prev ++ nl ++ content)]
        else clean ++ [mkMessage role content]
    | None => clean ++ [mkMessage role content]
    end.

(** The list [clean] that [_ollama_chat] posts. *)
Definition clean_messages (messages : list Message) : list Message :=
  fold_left clean_step messages [].

(** The reduced context of the retry: the first system message and the
    last user message of [clean]. *)
Definition fallback_messages (clean : list Message) : list Message :=
  let fallback :=
    firstn 1 (List.filter (fun m => str_eqb (role m) (lit "system")) clean) in
  match last (List.filter (fun m => str_eqb (role m) (lit "user")) clean) with
  | Some last_user => fallback ++ [last_user]
  | None => fallback
  end.

End Chat.
Import Chat.

(** ** tools.py: the shell, Python and read tools *)

Module Subprocess.

Definition TOOL_TIMEOUT : nat := 120.

(** [_BLOCKED_SHELL] *)
Definition _BLOCKED_SHELL : list str :=
  [ lit "sudo "; lit "sudo" ++ [9%N]; lit "doas ";
    lit "rm -rf /"; lit "rm -rf /*";
    lit "dd if="; lit "mkfs"; lit "> /dev/sd"; lit "> /dev/nvme";
    lit "chmod 777 /"; lit "chmod -R 777 /";
    lit "shutdown"; lit "reboot"; lit "init 0"; lit "init 6";
    lit ":(){ :|:& };:";
    lit "| bash"; lit "|bash"; lit "| sh "; lit "|sh ";
    lit "| zsh"; lit "|zsh" ].

(** How a [subprocess.run] ends: with the captured output and the return
    code, or in [TimeoutExpired], or in another exception. *)
Inductive outcome :=
| Completed (stdout stderr : str) (returncode : Z)
| TimedOut
| Raised (message : str).

(** The processes the tools start, and Python's [str.lower]. *)
Class Processes (W : Type) := {
  run_shell : str -> W -> outcome * W;
  run_python : str -> W -> outcome * W;
  lower_case : str -> str
}.

(** The common tail of [tool_shell] and [tool_python_exec]: stdout, then
    stderr on a new line, the exit code if both are blank, the cut at 8,000
    characters. *)
#[warnings="-abstract-large-number"]
Definition render_output (stdout stderr : str) (returncode : Z) : str :=
  let output := [] in
  let output := if truthy stdout then output ++ stdout else output in
  let output :=
    if truthy stderr
    then output ++ (if truthy output then nl else []) ++ stderr
    else output in
  let output :=
    if negb (truthy (strip output))
    then lit "(exit code " ++ decimal_Z returncode ++ lit ")"
    else output in
  let output :=
    if len output >? 8000
    then slice_to 8000 output ++ nl ++ lit "... (truncated)"
    else output in
  strip output.

Section Tools.
Context {W : Type} `{Processes W}.

(** [tool_shell(args)]: the reply, or the message of an exception that
    escapes to [execute_tool]. *)
Definition tool_shell (args : str) (w : W) : (str + str) * W :=
  let args := strip args in
  if negb (truthy args) then (inl (lit "No command provided."), w)
  else
    let args_lower := lower_case args in
    match List.find (fun blocked => contains blocked args_lower) _BLOCKED_SHELL with
    | Some blocked =>
        (inl (lit "Blocked for safety: command contains '" ++ strip blocked ++ lit "'"),
         w)
    | None =>
        match run_shell args w with
        | (Completed stdout stderr returncode, w') =>
            (inl (render_output stdout stderr returncode), w')
        | (TimedOut, w') =>
            (inl (lit "Command timed out after " ++ decimal TOOL_TIMEOUT ++ lit "s"), w')
        | (Raised e, w') => (inr e, w')
        end
    end.

(** [tool_python_exec(args)] *)
Definition tool_python_exec (args : str) (w : W) : (str + str) * W :=
  let code := strip args in
  if negb (truthy code) then (inl (lit "No code provided."), w)
  else
    match run_python code w with
    | (Completed stdout stderr returncode, w') =>
        (inl (render_output stdout stderr returncode), w')
    | (TimedOut, w') =>
        (inl (lit "Execution timed out after " ++ decimal TOOL_TIMEOUT ++ lit "s"), w')
    | (Raised e, w') => (inr e, w')
    end.

End Tools.

Section Reading.
Context {FS : Type} `{FileSystem FS}.

(** [tool_read_file(args)] *)
#[warnings="-abstract-large-number"]
Definition tool_read_file (args : str) (fs : FS) : str * FS :=
  match _validate_path (strip args) true fs with
  | inr err => (err, fs)
  | inl path =>
      if negb (isfile fs path) then (lit "File not found: " ++ path, fs)
      else
        match open_read path fs with
        | (inr e, fs1) => (lit "Error reading file: " ++ e, fs1)
        | (inl content, fs1) =>
            (if len content >? 10000
             then slice_to 10000 content ++ nl ++ lit "... (truncated)"
             else content, fs1)
        end
  end.

End Reading.

End Subprocess.
Import Subprocess.

(** ** cloud.py: which provider a key belongs to *)

Module Cloud.

Record Provider := mkProvider {
  provider_name : str;
  provider_url : str;
  provider_model : str;
  provider_format : str;
  provider_key : str
}.

(** The environment variables [_resolve_config] reads. *)
Record Environ := mkEnviron {
  BOLT_CLOUD_KEY : option str;
  ANTHROPIC_API_KEY : option str;
  BOLT_CLOUD_URL : option str;
  BOLT_CLOUD_MODEL : option str
}.

(** [_PROVIDERS], in the order of [_PREFIX_ORDER]: prefix, name, url,
    default model, wire format. *)
Definition _PROVIDERS : list (str * (str * str * str * str)) :=
  [ (lit "sk-ant-",
     (lit "Anthropic", lit "https://api.anthropic.com/v1/messages",
      lit "claude-sonnet-4-6", lit "anthropic"));
    (lit "sk-or-",
     (lit "OpenRouter", lit "https://openrouter.ai/api/v1/chat/completions",
      lit "anthropic/claude-sonnet-4-6", lit "openai"));
    (lit "gsk_",
     (lit "Groq", lit "https://api.groq.com/openai/v1/chat/completions",
      lit "llama-3.3-70b-versatile", lit "openai"));
    (lit "sk-",
     (lit "OpenAI", lit "https://api.openai.com/v1/chat/completions",
      lit "gpt-4o", lit "openai")) ].

(** A variable that is set to a non-empty value. *)
Definition set_value (v : option str) : option str :=
  match v with
  | Some s => if truthy s then Some s else None
  | None => None
  end.

(** [_resolve_config()] *)
Definition _resolve_config (env : Environ) : option Provider :=
  match (match set_value (BOLT_CLOUD_KEY env) with
         | Some k => Some k
         | None => set_value (ANTHROPIC_API_KEY env)
         end) with
  | None => None
  | Some key =>
      let url_override := set_value (BOLT_CLOUD_URL env) in
      let model_override := set_value (BOLT_CLOUD_MODEL env) in
      let detected :=
        List.find (fun entry => startswith (fst entry) key) _PROVIDERS in
      let provider :=
        match detected with
        | Some (_, (name, url, model, format)) => Some (name, url, model, format)
        | None =>
            match url_override with
            | None => None
            | Some url =>
                Some (lit "Custom", url,
                      match model_override with Some m => m | None => lit "unknown" end,
                      lit "openai")
            end
        end in
      match provider with
      | None => None
      | Some (name, url, model, format) =>
          let url := match url_override with Some u => u | None => url end in
          let model := match model_override with Some m => m | None => model end in
          let format :=
            if contains (lit "anthropic") url then lit "anthropic" else format in
          Some (mkProvider name url model format key)
      end
  end.

(** [get_display_name()] for a resolved configuration *)
Definition get_display_name (cfg : option Provider) : str :=
  match cfg with
  | None => []
  | Some c => provider_model c ++ lit " @ " ++ provider_name c
  end.

End Cloud.
Import Cloud.

(** ** pipeline.py: writing the built files *)

Module Pipeline.

Section Writing.
Context {FS : Type} `{FileSystem FS}.

(** The loop of [stage_write] over [built_files.items()]: the paths
    written so far, and the exception that ended the loop, if any. *)
Fixpoint write_built (output_dir : str) (built_files : list (str * str))
    (written : list str) (fs : FS) : (option str * list str) * FS :=
  match built_files with
  | [] => ((None, written), fs)
  | (rel_path, code) :: rest =>
      let full_path := realpath fs (path_join output_dir rel_path) in
      if negb (startswith (output_dir ++ sep) full_path)
      then write_built output_dir rest written fs
      else
        let dir := dirname full_path in
        match makedirs (if truthy dir then dir else output_dir) fs with
        | (Some e, fs1) => ((Some e, written), fs1)
        | (None, fs1) =>
            match open_write full_path code fs1 with
            | (Some e, fs2) => ((Some e, written), fs2)
            | (None, fs2) =>
                write_built output_dir rest (written ++ [full_path]) fs2
            end
        end
  end.

(** The file system part of [stage_write(spec, built_files)]; [requested]
    is [spec.get("output_dir")].  The console lines and the calls that
    restore the chat models act on other state. *)
Definition stage_write (requested : option str) (built_files : list (str * str))
    (fs : FS) : (option str * list str) * FS :=
  let home_dir := expanduser (lit "~") in
  let default_output := path_join (path_join home_dir (lit "projects")) (lit "output") in
  let output_dir :=
    realpath fs (match requested with Some d => d | None => default_output end) in
  if negb (startswith (home_dir ++ sep) output_dir) && negb (str_eqb output_dir home_dir)
  then ((None, []), fs)
  else
    match makedirs output_dir fs with
    | (Some e, fs1) => ((Some e, []), fs1)
    | (None, fs1) => write_built output_dir built_files [] fs1
    end.

End Writing.

End Pipeline.
Import Pipeline.

(** ** Invariants of the store *)

Module Invariants.

(** The primary key of [messages]: ids grow along the table and were handed
    out by the AUTOINCREMENT counter. *)
Definition messages_keyed (st : Store) : Prop :=
  StronglySorted Z.lt (map msg_id (messages st)) /\
  Forall (fun r => msg_id r <= msg_seq st) (messages st).

(** The messages of one session, oldest first. *)
Definition session_messages (session_id : str) (st : Store) : list MsgRow :=
  List.filter (fun r => str_eqb (msg_session r) session_id) (messages st).

(** Two stores that differ at most in their timeline. *)
Definition same_tables (a b : Store) : Prop :=
  messages a = messages b /\ msg_seq a = msg_seq b /\
  summaries a = summaries b /\ sum_seq a = sum_seq b /\
  tasks a = tasks b /\ task_seq a = task_seq b /\
  profile a = profile b /\ handoffs a = handoffs b /\ now a = now b.

(** The text a match of the call pattern has read. *)
Definition call_text (ws name args : str) : str :=
  lit "<tool" ++ ws ++ lit "name=" ++ [quote] ++ name ++ [quote] ++ lit ">"
    ++ args ++ lit "</tool>".

(** Messages saved one after the other for one session, as [(role,
    content)] pairs. *)
Definition record_all (session_id : str) (entries : list (str * str)) (st : Store)
  : Store :=
  fold_left (fun st e => snd (save_message session_id (fst e) (snd e) st)) entries st.


(** Run from any state, [m] saves for [session_id] messages of the given
    shape, which may depend on what [m] returns, and otherwise writes to
    the timeline only. *)
Definition appends {W A} (session_id : str) (shape : A -> list (str * str) -> Prop)
    (m : M W A) : Prop :=
  forall s,
    exists entries,
      shape (fst (m s)) entries /\
      same_tables (db (snd (m s))) (record_all session_id entries (db s)).

(** The shape of a computation that saves no message. *)
Definition silent {A} (_ : A) (entries : list (str * str)) : Prop := entries = [].

(** No two neighbours of a message list have the same role, unless that
    role is [system]. *)
Fixpoint alternates (clean : list Message) : Prop :=
  match clean with
  | a :: (b :: _) as rest =>
      (role a = role b -> role a = lit "system") /\ alternates rest
  | _ => True
  end.

(** A message a model accepts: a role of the wire format and a content
    that is not blank. *)
Definition sendable (m : Message) : Prop :=
  on_wire (role m) = true /\ truthy (strip (content m)) = true.

End Invariants.
Import Invariants.

(** ** More sample environments *)

Module WorkerSamples.

Definition ascii_upper (s : str) : str :=
  map (fun c => if ((97 <=? c) && (c <=? 122))%N then (c - 32)%N else c) s.

(** A small model that answers every prompt with the same two lines. *)
#[export] Instance two_liner : Generator unit := {
  quick_post := fun _ w =>
    (inl (lit "Task: write the parser" ++ nl ++ lit "status: ACTIVE" ++ nl), w);
  str_upper := ascii_upper;
  str_lower := ascii_lower
}.

(** A session with two stored messages and no summary. *)
Definition greeted : State unit :=
  mkState tt
    (snd (save_message (lit "s1") (lit "assistant") (lit "hi there")
            (snd (save_message (lit "s1") (lit "user") (lit "hello") empty_store))))
    (lit "companion") 0.

(** A machine on which commands print their own text. *)
#[export] Instance echoing : Processes nat := {
  run_shell := fun cmd n => (Completed cmd [] 0, S n);
  run_python := fun code n => (Completed [] code 1, S n);
  lower_case := ascii_lower
}.

End WorkerSamples.
Import WorkerSamples.

(** * Properties *)

(** ** Strings *)

Section StringFacts.

Lemma char_eqb_eq (a b : char) : char_eqb a b = true <-> a = b.
Proof. apply N.eqb_eq. Qed.

Lemma char_eqb_refl (a : char) : char_eqb a a = true.
Proof. now apply char_eqb_eq. Qed.

Lemma str_eqb_eq (a b : str) : str_eqb a b = true <-> a = b.
Proof.
  revert b; induction a as [|x a IH]; intros [|y b]; simpl; try easy.
  rewrite andb_true_iff, char_eqb_eq, IH.
  split; [intros [-> ->]; reflexivity | intros [= -> ->]; auto].
Qed.

Lemma str_eqb_refl (a : str) : str_eqb a a = true.
Proof. now apply str_eqb_eq. Qed.

Lemma str_eqb_neq (a b : str) : str_eqb a b = false <-> a <> b.
Proof.
  rewrite <- str_eqb_eq. destruct (str_eqb a b); split; congruence.
Qed.

Lemma startswith_app (p s : str) : startswith p (p ++ s) = true.
Proof.
  induction p as [|x p IH]; simpl; [reflexivity|].
  now rewrite IH, char_eqb_refl.
Qed.

Lemma startswith_inv (p s : str) :
  startswith p s = true -> exists rest, s = p ++ rest.
Proof.
  revert s; induction p as [|x p IH]; intros s Hs; simpl in *.
  - now exists s.
  - destruct s as [|y s]; [discriminate|].
    apply andb_true_iff in Hs as [Hxy Hs].
    apply char_eqb_eq in Hxy as ->.
    destruct (IH _ Hs) as [rest ->]. now exists rest.
Qed.

Lemma startswith_spec (p s : str) :
  startswith p s = true <-> exists rest, s = p ++ rest.
Proof.
  split; [apply startswith_inv | intros [rest ->]; apply startswith_app].
Qed.

Lemma strip_prefix_spec (p s rest : str) :
  strip_prefix p s = Some rest <-> s = p ++ rest.
Proof.
  revert s; induction p as [|x p IH]; intros s; simpl.
  - split; [intros [= ->]; reflexivity | intros ->; reflexivity].
  - destruct s as [|y s]; [split; discriminate|].
    destruct (char_eqb x y) eqn:E.
    + apply char_eqb_eq in E as ->. rewrite IH.
      split; [intros ->; reflexivity | intros [= ->]; reflexivity].
    + split; [discriminate|]. intros [= Hxy _]. subst.
      now rewrite char_eqb_refl in E.
Qed.

Lemma strip_prefix_none (p s : str) :
  strip_prefix p s = None <-> startswith p s = false.
Proof.
  revert s; induction p as [|x p IH]; intros s; simpl.
  - split; discriminate.
  - destruct s as [|y s]; [tauto|].
    destruct (char_eqb x y); simpl; [apply IH | tauto].
Qed.

End StringFacts.

(** ** Token estimates (memory.py) *)

Section TokenEstimate.

Lemma estimate_tokens_pos (text : str) : 1 <= estimate_tokens text.
Proof. unfold estimate_tokens. lia. Qed.

(** C5 (as stated, refuted): for the five-character content "hello" the
    stored estimate is 1, while max(1, ceil(5/4)) is 2. *)
Lemma save_message_estimate_is_not_ceiling :
  (msg_tokens <$> saved_row (lit "s") (lit "user") (lit "hello") empty_store)
    <> Some (Some (spec_token_estimate (lit "hello"))).
Proof. vm_compute. discriminate. Qed.

(** C5 (amended): for every store, session, role and content, the row
    stored by save_message carries token_estimate = max(1, floor(len/4)):
    the quotient q with 4q <= len(content) < 4(q+1), raised to at least 1. *)
Theorem save_message_estimate_is_floor :
  forall (session_id role content : str) (st : Store),
  exists row q,
    saved_row session_id role content st = Some row /\
    msg_content row = content /\
    4 * q <= len content < 4 * (q + 1) /\
    msg_tokens row = Some (Z.max 1 q) /\
    msg_tokens row = Some (estimate_tokens content).
Proof.
  intros sid r c st.
  exists (mkMsg (msg_seq st + 1) sid r c (Some (estimate_tokens c))), (len c / 4).
  unfold saved_row, save_message; simpl.
  rewrite last_snoc. repeat split; try reflexivity.
  - apply Z.mul_div_le; lia.
  - pose proof (Z.mod_pos_bound (len c) 4 ltac:(lia)) as Hm.
    pose proof (Z.div_mod (len c) 4 ltac:(lia)). lia.
Qed.

End TokenEstimate.

(** ** Routing (brain.py) *)

Section Routing.
Context {W : Type} `{Runtime W}.

Lemma bind_run {A B} (m : M W A) (k : A -> M W B) (s : State W) :
  bind m k s = k (fst (m s)) (snd (m s)).
Proof. unfold bind. now destruct (m s). Qed.

(** C3 (amended): for every mode, _pick_model maps the categories cloud and
    code_beast to the model key cloud when the cloud is available; when it is
    not, code_beast falls back to beast and cloud falls back to
    worker_heavy. *)
Theorem pick_model_cloud_routing :
  forall s : State W,
    let available := fst (cloud_is_available (world s)) in
    fst (_pick_model (lit "cloud") s)
      = (if available then lit "cloud" else lit "worker_heavy") /\
    fst (_pick_model (lit "code_beast") s)
      = (if available then lit "cloud" else lit "beast").
Proof.
  intros s available; subst available.
  unfold _pick_model, get_mode, on_world, ret.
  rewrite !bind_run; cbn [fst snd].
  change (str_eqb (lit "cloud") (lit "companion")) with false.
  change (str_eqb (lit "code_beast") (lit "companion")) with false.
  rewrite andb_false_r; cbn [world].
  change (str_eqb (lit "cloud") (lit "cloud")) with true.
  change (str_eqb (lit "code_beast") (lit "code_beast")) with true.
  rewrite orb_true_r; cbn [orb].
  rewrite !bind_run; cbn [fst snd].
  destruct (cloud_is_available (world s)) as [[|] w]; split; reflexivity.
Qed.

(** C10: classification reads only the first 500 characters of the message:
    two messages that agree on that prefix are classified alike from every
    state of the inference oracle, and leave the same state behind. *)
Theorem classify_reads_500_char_prefix :
  forall (m1 m2 : str) (s : State W),
    slice_to 500 m1 = slice_to 500 m2 ->
    _classify m1 s = _classify m2 s.
Proof.
  intros m1 m2 s Hprefix. unfold _classify. now rewrite Hprefix.
Qed.

End Routing.

(** C3 (as stated, refuted): with the cloud unavailable, category cloud is
    not routed to beast and category code_beast is not routed to
    worker_heavy; the two fallbacks are the other way round. *)
Lemma pick_model_offline_fallbacks_swapped :
  fst (cloud_is_available (world fresh_state)) = false /\
  fst (_pick_model (lit "cloud") fresh_state) <> lit "beast" /\
  fst (_pick_model (lit "code_beast") fresh_state) <> lit "worker_heavy".
Proof. vm_compute. repeat split; discriminate. Qed.

(** Two messages of 501 and 502 characters that share their first 500. *)
Lemma classify_reads_500_char_prefix_witness :
  let m1 := repeat 97%N 500 ++ lit "x" in
  let m2 := repeat 97%N 500 ++ lit "yz" in
  m1 <> m2 /\ slice_to 500 m1 = slice_to 500 m2 /\
  _classify m1 fresh_state = _classify m2 fresh_state.
Proof.
  intros m1 m2. split; [|split].
  - intro Heq. apply (f_equal (@length _)) in Heq. vm_compute in Heq. discriminate.
  - vm_compute. reflexivity.
  - apply (classify_reads_500_char_prefix m1 m2 fresh_state).
    vm_compute. reflexivity.
Defined.

(** ** Profile facts (identity.py) *)

Section ProfileFacts.

Lemma conf_ge_true (a b : Q) : conf_ge a b = true <-> (b <= a)%Q.
Proof. unfold conf_ge. apply Qle_bool_iff. Qed.

Lemma conf_ge_false (a b : Q) : conf_ge a b = false <-> (a < b)%Q.
Proof.
  rewrite <- not_true_iff_false, conf_ge_true.
  split; [apply Qnot_le_lt | apply Qlt_not_le].
Qed.

Lemma save_fact_fresh category key value confidence source st :
  profile st !! (category, key) = None ->
  profile (save_fact category key value confidence source st) !! (category, key)
    = Some (mkFact value confidence source).
Proof.
  intros Hnone. unfold save_fact. rewrite Hnone. cbn [profile with_profile].
  apply lookup_insert_eq.
Qed.

Lemma save_fact_other category key value confidence source st k :
  k <> (category, key) ->
  profile (save_fact category key value confidence source st) !! k = profile st !! k.
Proof.
  intros Hne. unfold save_fact.
  destruct (profile st !! (category, key)) as [existing|];
    [destruct (conf_ge _ _)|]; cbn [profile with_profile];
    try reflexivity; now apply lookup_insert_ne.
Qed.

(** C6: on an existing fact at (category, key), save_fact with a strictly
    lower confidence changes nothing, and save_fact with a higher or equal
    confidence replaces the stored value and confidence. *)
Theorem save_fact_confidence_precedence :
  forall (st : Store) (category key : str) (existing : Fact)
         (value : str) (confidence : Q) (source : option str),
    profile st !! (category, key) = Some existing ->
    ((confidence < fact_confidence existing)%Q ->
       save_fact category key value confidence source st = st) /\
    ((fact_confidence existing <= confidence)%Q ->
       let st' := save_fact category key value confidence source st in
       stored_value category key st' = Some value /\
       stored_confidence category key st' = Some confidence).
Proof.
  intros st category key existing value confidence source Hex.
  unfold save_fact, stored_value, stored_confidence. rewrite Hex. split.
  - intros Hlt. apply conf_ge_false in Hlt. now rewrite Hlt.
  - intros Hle. apply conf_ge_true in Hle. rewrite Hle.
    cbn [profile with_profile]. rewrite lookup_insert_eq. split; reflexivity.
Qed.

End ProfileFacts.

(** The precedence scenario: "Alex" at 0.9 survives "Ally" at 0.4 and is
    replaced by "Alex2" at 0.9. *)
Lemma save_fact_confidence_precedence_witness :
  let name := lit "name" in
  let st1 := save_fact name name (lit "Alex") (9 # 10) None empty_store in
  let st2 := save_fact name name (lit "Ally") (4 # 10) None st1 in
  let st3 := save_fact name name (lit "Alex2") (9 # 10) None st2 in
  stored_value name name st1 = Some (lit "Alex") /\
  stored_value name name st2 = Some (lit "Alex") /\
  stored_value name name st3 = Some (lit "Alex2").
Proof.
  intros name st1 st2 st3.
  assert (H1 : profile st1 !! (name, name) = Some (mkFact (lit "Alex") (9 # 10) None)).
  { apply save_fact_fresh. apply lookup_empty. }
  assert (H2 : st2 = st1).
  { apply (save_fact_confidence_precedence st1 name name _ (lit "Ally") (4 # 10) None H1).
    reflexivity. }
  split; [|split].
  - unfold stored_value. now rewrite H1.
  - rewrite H2. unfold stored_value. now rewrite H1.
  - subst st3. rewrite H2.
    apply (save_fact_confidence_precedence st1 name name _ (lit "Alex2") (9 # 10) None H1).
    cbn. discriminate.
Defined.

(** ** The active task (memory.py) *)

Section ActiveTask.

Lemma first_active_none (ts : list TaskRow) :
  first_active ts = None -> List.filter is_active ts = [].
Proof.
  unfold first_active. induction ts as [|t ts IH]; cbn; [reflexivity|].
  destruct (is_active t); [discriminate | apply IH].
Qed.

Lemma find_split {A} (f : A -> bool) (l : list A) (x : A) :
  List.find f l = Some x ->
  exists a b, l = a ++ x :: b /\ Forall (fun y => f y = false) a /\ f x = true.
Proof.
  induction l as [|y l IH]; cbn; [discriminate|].
  destruct (f y) eqn:E.
  - intros [= ->]. exists [], l. repeat split; auto.
  - intros Hfind. destruct (IH Hfind) as (a & b & -> & Ha & Hx).
    exists (y :: a), b. repeat split; auto.
Qed.

Lemma retitle_elsewhere id now title status ctx (ts : list TaskRow) :
  ~ In id (map task_id ts) ->
  map (retitle id now title status ctx) ts = ts.
Proof.
  induction ts as [|t ts IH]; cbn; [reflexivity|].
  intros Hnot. rewrite IH by tauto. f_equal.
  unfold retitle. destruct (task_id t =? id) eqn:E; [|reflexivity].
  apply Z.eqb_eq in E. tauto.
Qed.

(** With unique ids the update touches exactly the row that was found. *)
Lemma upsert_in_place title status ctx st existing :
  NoDup (map task_id (tasks st)) ->
  first_active (tasks st) = Some existing ->
  exists before after,
    tasks st = before ++ existing :: after /\
    Forall (fun t => is_active t = false) before /\
    is_active existing = true /\
    tasks (upsert_task title status ctx st)
      = before ++ mkTask (task_id existing) (now st) title status ctx :: after.
Proof.
  intros Hnodup Hfind. unfold upsert_task. rewrite Hfind. cbn [tasks with_tasks].
  destruct (find_split _ _ _ Hfind) as (before & after & Hts & Hbefore & Hact).
  exists before, after. repeat split; auto.
  rewrite Hts in Hnodup |- *. rewrite map_app in Hnodup. cbn [map] in Hnodup.
  apply NoDup_app in Hnodup as (_ & Hdisjoint & [Hafter _]%NoDup_cons).
  fold (retitle (task_id existing) (now st) title status ctx).
  rewrite map_app. cbn [map].
  rewrite !retitle_elsewhere.
  - unfold retitle. now rewrite Z.eqb_refl.
  - now rewrite <- list_elem_of_In.
  - intros Hin%list_elem_of_In. apply (Hdisjoint _ Hin). constructor.
Qed.

Lemma count_filter_app {A} (f : A -> bool) (a b : list A) :
  length (List.filter f (a ++ b)) = (length (List.filter f a) + length (List.filter f b))%nat.
Proof. now rewrite List.filter_app, length_app. Qed.

Lemma upsert_keeps_single title status ctx st :
  tasks_keyed st -> (count_active st <= 1)%nat ->
  tasks_keyed (upsert_task title status ctx st) /\
  (count_active (upsert_task title status ctx st) <= 1)%nat.
Proof.
  intros [Hnodup Hseq] Hcount. unfold tasks_keyed, count_active in *.
  destruct (first_active (tasks st)) as [existing|] eqn:Hfind.
  - destruct (upsert_in_place title status ctx st existing Hnodup Hfind)
      as (before & after & Hts & _ & Hact & Hts').
    rewrite Hts'. assert (Hseq' : task_seq (upsert_task title status ctx st) = task_seq st).
    { unfold upsert_task. now rewrite Hfind. }
    rewrite Hseq'. rewrite Hts in Hnodup, Hseq, Hcount.
    repeat split.
    + rewrite map_app in *. exact Hnodup.
    + apply Forall_app in Hseq as [Hb Ha]. apply Forall_app. split; [exact Hb|].
      inversion Ha; subst. constructor; auto.
    + rewrite count_filter_app in *. cbn [List.filter] in *.
      rewrite Hact in Hcount. cbn [length] in Hcount.
      destruct (is_active (mkTask _ _ _ _ _)); cbn [length]; lia.
  - unfold upsert_task. rewrite Hfind. cbn [tasks task_seq with_tasks].
    repeat split.
    + rewrite map_app. cbn [map task_id]. apply NoDup_app. repeat split.
      * exact Hnodup.
      * intros x Hx Hnew%list_elem_of_singleton. subst x.
        apply list_elem_of_In, in_map_iff in Hx as (t & Hid & Ht).
        rewrite Forall_forall in Hseq. apply list_elem_of_In, Hseq in Ht. lia.
      * apply NoDup_singleton.
    + apply Forall_app. split.
      * eapply Forall_impl; [exact Hseq|]. cbn. intros; lia.
      * constructor; [cbn; lia | constructor].
    + rewrite count_filter_app, (first_active_none _ Hfind). cbn [List.filter length].
      destruct (is_active _); cbn [length]; lia.
Qed.

Lemma complete_keeps_single st :
  tasks_keyed st ->
  tasks_keyed (complete_active_task st) /\ count_active (complete_active_task st) = 0%nat.
Proof.
  intros [Hnodup Hseq]. unfold tasks_keyed, count_active, complete_active_task.
  cbn [tasks task_seq with_tasks]. repeat split.
  - rewrite map_map. erewrite map_ext; [exact Hnodup|].
    intros t. now destruct (is_active t).
  - apply Forall_map. eapply Forall_impl; [exact Hseq|].
    intros t Ht. now destruct (is_active t).
  - clear Hnodup Hseq. generalize (now st) as moment. intros moment.
    induction (tasks st) as [|t ts IH]; cbn; [reflexivity|].
    destruct (is_active t) eqn:E; cbn; [|rewrite E]; exact IH.
Qed.

(** C8: from a store with at most one active task (and the table's primary
    key in place), every sequence of upsert_task and complete_active_task
    calls leaves at most one active task; upsert_task rewrites the active row
    where it stands when there is one, and appends a row only when there is
    none. *)
Theorem single_active_task_preserved :
  forall st : Store,
    tasks_keyed st -> (count_active st <= 1)%nat ->
    (forall ops, (count_active (run_task_ops ops st) <= 1)%nat) /\
    (forall title status context_json,
       match first_active (tasks st) with
       | Some existing =>
           exists before after,
             tasks st = before ++ existing :: after /\
             tasks (upsert_task title status context_json st)
               = before
                   ++ mkTask (task_id existing) (now st) title status context_json
                   :: after
       | None =>
           tasks (upsert_task title status context_json st)
             = tasks st ++ [mkTask (task_seq st + 1) (now st) title status context_json]
       end).
Proof.
  intros st Hkeyed Hcount. split.
  - intros ops. revert st Hkeyed Hcount.
    induction ops as [|op ops IH]; intros st Hkeyed Hcount; cbn; [exact Hcount|].
    destruct op as [title status ctx|]; cbn [apply_task_op].
    + destruct (upsert_keeps_single title status ctx st Hkeyed Hcount) as [Hk Hc].
      now apply IH.
    + destruct (complete_keeps_single st Hkeyed) as [Hk Hc].
      apply IH; [exact Hk | lia].
  - intros title status ctx.
    destruct (first_active (tasks st)) as [existing|] eqn:Hfind.
    + destruct (upsert_in_place title status ctx st existing (proj1 Hkeyed) Hfind)
        as (before & after & Hts & _ & _ & Hts').
      now exists before, after.
    + unfold upsert_task. now rewrite Hfind.
Qed.

End ActiveTask.

(** A store with one finished and one active task. *)
Lemma single_active_task_preserved_witness :
  let st := run_task_ops [Upsert (lit "draft") (lit "active") None; Complete;
                          Upsert (lit "ship") (lit "active") None] empty_store in
  tasks_keyed st /\ count_active st = 1%nat /\
  (count_active (run_task_ops [Upsert (lit "ship it") (lit "active") None;
                               Upsert (lit "ship again") (lit "active") None] st)
     <= 1)%nat.
Proof.
  intros st.
  assert (Hkeyed : tasks_keyed st).
  { split; vm_compute.
    - repeat constructor; rewrite ?list_elem_of_In; cbn; intuition discriminate.
    - repeat constructor; discriminate. }
  assert (Hcount : (count_active st <= 1)%nat) by (vm_compute; lia).
  split; [exact Hkeyed | split; [reflexivity|]].
  apply (single_active_task_preserved st Hkeyed Hcount).
Defined.

(** ** Path confinement of the write tools (tools.py) *)

Section PathConfinement.
Context {FS : Type} `{FileSystem FS}.

Lemma under_spec (root p : str) : under root p = true <-> in_subtree root p.
Proof.
  unfold under, in_subtree.
  rewrite orb_true_iff, startswith_spec, str_eqb_eq.
  split.
  - intros [[rest ->] | ->]; [right; exists rest; now rewrite <- app_assoc | now left].
  - intros [-> | [rest ->]]; [now right | left; exists rest; now rewrite <- app_assoc].
Qed.

(** A path that does not even have the root as a string prefix is not below
    it. *)
Lemma not_prefixed_not_under (root p : str) :
  startswith root p = false -> ~ in_subtree root p.
Proof.
  intros Hno [-> | [rest ->]].
  - rewrite <- (app_nil_r root) in Hno at 2. now rewrite startswith_app in Hno.
  - now rewrite startswith_app in Hno.
Qed.

Lemma validate_path_denies (path : str) (fs : FS) :
  let resolved := realpath fs (expanduser path) in
  (~ in_subtree _HOME_DIR resolved \/
   exists denied, In denied _DENIED_PATHS /\ in_subtree denied resolved) ->
  exists err, _validate_path path false fs = inr err /\ is_denial err = true.
Proof.
  intros resolved Hbad. unfold _validate_path. fold resolved.
  destruct (under _HOME_DIR resolved) eqn:Hhome; cbn [negb].
  - destruct Hbad as [Houtside | (denied & Hin & Hsub)].
    + now apply under_spec in Hhome.
    + destruct (List.find _ _DENIED_PATHS) as [d|] eqn:Hfind.
      * eexists; split; reflexivity.
      * apply (find_none _ _ Hfind) in Hin. apply under_spec in Hsub. congruence.
  - eexists; split; reflexivity.
Qed.

(** C1: when the resolved path is not under the home directory, or lies in
    one of the denied subtrees, tool_write_file and tool_edit_file answer
    with a string beginning "Access denied" and leave the file system as it
    was. *)
Theorem write_tools_deny_outside_sandbox :
  forall (fs : FS) (path : str),
    let resolved := realpath fs (expanduser path) in
    (startswith _HOME_DIR resolved = false \/
     ~ in_subtree _HOME_DIR resolved \/
     exists denied, In denied _DENIED_PATHS /\ in_subtree denied resolved) ->
    (forall args line0 content more,
       split nl 1 (strip args) = line0 :: content :: more ->
       strip line0 = path ->
       is_denial (fst (tool_write_file args fs)) = true /\
       snd (tool_write_file args fs) = fs) /\
    (forall args line0 old new more,
       split nl 2 (strip args) = line0 :: old :: new :: more ->
       strip line0 = path ->
       is_denial (fst (tool_edit_file args fs)) = true /\
       snd (tool_edit_file args fs) = fs).
Proof.
  intros fs path resolved Hbad.
  assert (Hdenied : exists err,
             _validate_path path false fs = inr err /\ is_denial err = true).
  { apply validate_path_denies. fold resolved.
    destruct Hbad as [Hprefix | [Houtside | Hdeny]]; auto.
    left. now apply not_prefixed_not_under. }
  destruct Hdenied as (err & Hval & Herr).
  split.
  - intros args line0 content more Hsplit <-.
    unfold tool_write_file. rewrite Hsplit, Hval. now split.
  - intros args line0 old new more Hsplit <-.
    unfold tool_edit_file. rewrite Hsplit, Hval. now split.
Qed.

(** Whatever the arguments, a rejected path means no write at all: a call
    too short to carry a path and content only prints the usage line. *)
Lemma write_file_usage_leaves_files (args : str) (fs : FS) :
  (length (split nl 1 (strip args)) < 2)%nat ->
  snd (tool_write_file args fs) = fs.
Proof.
  unfold tool_write_file.
  destruct (split nl 1 (strip args)) as [|line0 [|content more]]; cbn; try reflexivity.
  lia.
Qed.

End PathConfinement.

(** Writing to /etc/passwd is denied and the file keeps its content. *)
Lemma write_tools_deny_outside_sandbox_witness :
  let args := lit "/etc/passwd" ++ nl ++ lit "root::0:0" in
  is_denial (fst (tool_write_file args etc_passwd)) = true /\
  snd (tool_write_file args etc_passwd) = etc_passwd /\
  file_lookup (snd (tool_write_file args etc_passwd)) (lit "/etc/passwd")
    = Some (lit "root:x:0:0").
Proof.
  intros args.
  assert (Hout : startswith _HOME_DIR (realpath etc_passwd (expanduser (lit "/etc/passwd")))
                 = false) by (vm_compute; reflexivity).
  destruct (write_tools_deny_outside_sandbox etc_passwd (lit "/etc/passwd")
              (or_introl Hout)) as [Hwrite _].
  destruct (Hwrite args (lit "/etc/passwd") (lit "root::0:0") [])
    as [Hdenied Hsame]; [vm_compute; reflexivity | vm_compute; reflexivity |].
  split; [exact Hdenied | split; [exact Hsame|]].
  rewrite Hsame. vm_compute. reflexivity.
Defined.

(** Being below a denied directory is a matter of path components, not of
    characters: a sibling whose name merely extends [.ssh] is written to. *)
Lemma sibling_of_denied_directory_is_writable :
  let args := lit "~/.sshx/keys" ++ nl ++ lit "data" in
  startswith (lit "/home/bolt/.ssh") (lit "/home/bolt/.sshx/keys") = true /\
  is_denial (fst (tool_write_file args etc_passwd)) = false /\
  file_lookup (snd (tool_write_file args etc_passwd)) (lit "/home/bolt/.sshx/keys")
    = Some (lit "data").
Proof. vm_compute. repeat split; reflexivity. Qed.

(** ** Budget safety of the context assembler (brain.py, memory.py) *)

Section ContextBudget.

Lemma context_cost_app (a b : list Message) :
  context_cost (a ++ b) = context_cost a + context_cost b.
Proof.
  unfold context_cost. induction a as [|m a IH]; cbn; [reflexivity|].
  rewrite IH. lia.
Qed.

Lemma context_cost_rev (a : list Message) : context_cost (rev a) = context_cost a.
Proof.
  induction a as [|m a IH]; [reflexivity|]. cbn [rev].
  rewrite context_cost_app, IH. unfold context_cost. cbn. lia.
Qed.

Lemma in_skipn {A} (n : nat) (l : list A) (x : A) : In x (skipn n l) -> In x l.
Proof.
  revert l; induction n as [|n IH]; intros [|y l]; cbn; auto.
Qed.

Lemma recent_messages_stored session_id limit st r :
  In r (get_recent_messages session_id limit st) -> In r (messages st).
Proof.
  unfold get_recent_messages, lastn. intros Hin%in_skipn.
  now apply filter_In in Hin.
Qed.

Lemma select_recent_incl budget total rows r :
  In r (select_recent budget total rows) -> In r rows.
Proof.
  revert total; induction rows as [|row rows IH]; intros total; cbn; [tauto|].
  destruct (total + row_cost row >? budget); cbn; [tauto|].
  intros [-> | Hin]; [now left | right; eauto].
Qed.

(** The loop invariant of the selection: what it has taken fits. *)
Lemma select_recent_fits budget total rows :
  select_recent budget total rows = [] \/
  total + charged (select_recent budget total rows) <= budget.
Proof.
  unfold charged.
  revert total; induction rows as [|row rows IH]; intros total; cbn; [now left|].
  destruct (Z.gtb_spec (total + row_cost row) budget) as [Hover|Hfits]; [now left|].
  right. cbn. destruct (IH (total + row_cost row)) as [-> | Hle]; cbn; lia.
Qed.

Lemma charged_rev (rows : list MsgRow) : charged (rev rows) = charged rows.
Proof.
  unfold charged. induction rows as [|r rows IH]; [reflexivity|]. cbn [rev].
  rewrite map_app, fold_right_app. cbn.
  rewrite <- IH. generalize (map row_cost (rev rows)) as costs.
  induction costs as [|c costs IHc]; cbn; lia.
Qed.

Lemma recorded_row_cost st r :
  tokens_recorded st -> In r (messages st) ->
  row_cost r = message_cost (wire_message r).
Proof.
  intros Hrec Hin. unfold row_cost, message_cost. rewrite (Hrec r Hin). cbn.
  pose proof (estimate_tokens_pos (msg_content r)).
  destruct (Z.eqb_spec (estimate_tokens (msg_content r)) 0); [lia | reflexivity].
Qed.

Lemma recorded_charge st rows :
  tokens_recorded st -> incl rows (messages st) ->
  context_cost (map wire_message rows) = charged rows.
Proof.
  intros Hrec Hincl. unfold context_cost, charged. rewrite map_map. f_equal.
  apply map_ext_in. intros r Hin. symmetry. eapply recorded_row_cost; eauto.
Qed.

(** The rows chosen from the recent window, in chronological order. *)
Lemma recent_selection st session_id budget :
  let chosen := rev (select_recent budget 0 (rev (get_recent_messages session_id 50 st))) in
  incl chosen (messages st) /\ (charged chosen = 0 \/ charged chosen <= budget).
Proof.
  intros chosen. subst chosen.
  set (rows := rev (get_recent_messages session_id 50 st)). split.
  - intros r Hin%in_rev%select_recent_incl. subst rows. apply in_rev in Hin.
    eapply recent_messages_stored, Hin.
  - rewrite charged_rev.
    destruct (select_recent_fits budget 0 rows) as [-> | Hle]; [now left | right; lia].
Qed.

(** Splits on the innermost budget test that is still undecided. *)
Ltac decide_fit :=
  match goal with
  | |- context [Z.ltb ?a ?b] =>
      lazymatch b with
      | context [Z.ltb _ _] => fail
      | _ => destruct (Z.ltb_spec a b); cbn beta iota zeta
      end
  end.

(** Names the system lines and the chosen rows of an assembled context. *)
Ltac name_parts :=
  cbn [app];
  match goal with
  | |- exists _ _, _ :: ?a :: ?b :: map wire_message ?sel = _ /\ _ => exists [a; b], sel
  | |- exists _ _, _ :: ?a :: map wire_message ?sel = _ /\ _ => exists [a], sel
  | |- exists _ _, _ :: map wire_message ?sel = _ /\ _ => exists [], sel
  end.

Ltac name_lines :=
  cbn [app];
  match goal with
  | |- exists _ _, ?a :: ?b :: ?c :: map wire_message ?sel = _ /\ _ =>
      exists [a; b; c], sel
  | |- exists _ _, ?a :: ?b :: map wire_message ?sel = _ /\ _ => exists [a; b], sel
  | |- exists _ _, ?a :: map wire_message ?sel = _ /\ _ => exists [a], sel
  | |- exists _ _, map wire_message ?sel = _ /\ _ => exists [], sel
  end.

(** Closes the arithmetic of a branch once the selection is bounded. *)
Ltac settle_budget :=
  unfold context_cost in *; cbn [map fold_right app];
  repeat match goal with
         | |- context [message_cost (mkMessage ?r ?c)] =>
             change (message_cost (mkMessage r c)) with (estimate_tokens c)
         end;
  repeat match goal with
         | |- context [estimate_tokens ?t] =>
             lazymatch goal with
             | _ : 1 <= estimate_tokens t |- _ => fail
             | _ => pose proof (estimate_tokens_pos t)
             end
         end;
  assert (0 <= MAX_CONTEXT_TOKENS) by (unfold MAX_CONTEXT_TOKENS; lia);
  lia.

(** C7: for every session, mode and store, the context is the identity
    briefing, then the system lines (summary, task), then the chosen stored
    messages; what the assembler charges for everything after the briefing
    fits the budget left once the briefing is paid for (nothing follows when
    nothing is left), so the total is at most MAX_CONTEXT_TOKENS plus the
    estimate of the briefing.  On a store whose rows carry the estimate
    save_message gave them, the charge is the estimate of the content. *)
Theorem context_budget_safety :
  forall (P : Prompts) (session_id mode : str) (st : Store),
    let identity := build_identity P mode (Some session_id) st in
    let overshoot := estimate_tokens identity in
    let ctx := _build_context_with_identity P session_id mode st in
    exists extras selected,
      ctx = mkMessage (lit "system") identity :: extras ++ map wire_message selected /\
      incl selected (messages st) /\
      context_cost extras + charged selected
        <= Z.max 0 (MAX_CONTEXT_TOKENS - overshoot) /\
      overshoot + context_cost extras + charged selected
        <= MAX_CONTEXT_TOKENS + overshoot /\
      (tokens_recorded st ->
         context_cost (extras ++ map wire_message selected)
           <= Z.max 0 (MAX_CONTEXT_TOKENS - overshoot) /\
         context_cost ctx <= MAX_CONTEXT_TOKENS + overshoot).
Proof.
  intros P session_id mode st identity overshoot ctx. subst ctx overshoot.
  unfold _build_context_with_identity. fold identity.
  destruct (get_latest_summary session_id st) as [summary|];
    destruct (get_active_task st) as [task|];
    cbn beta iota zeta; repeat decide_fit; name_parts;
    (split; [reflexivity|]);
    match goal with
    | |- context [select_recent ?b 0 _] =>
        destruct (recent_selection st session_id b) as [Hincl Hfit]
    end;
    (split; [exact Hincl|]);
    (split; [settle_budget|]); (split; [settle_budget|]);
    intros Hrec; pose proof (recorded_charge st _ Hrec Hincl) as Hcharge;
    split; settle_budget.
Qed.

(** The assembler of memory.py obeys the same bound, with the optional
    system prompt in the place of the identity briefing. *)
Lemma build_context_budget_safety (session_id system_prompt : str) (st : Store) :
  exists extras selected,
    build_context session_id system_prompt st = extras ++ map wire_message selected /\
    incl selected (messages st) /\
    context_cost extras + charged selected
      <= MAX_CONTEXT_TOKENS
         + (if truthy system_prompt then estimate_tokens system_prompt else 0).
Proof.
  unfold build_context.
  destruct (truthy system_prompt);
    destruct (get_latest_summary session_id st) as [summary|];
    destruct (get_active_task st) as [task|];
    cbn beta iota zeta; repeat decide_fit; name_lines;
    (split; [reflexivity|]);
    match goal with
    | |- context [select_recent ?b 0 _] =>
        destruct (recent_selection st session_id b) as [Hincl Hfit]
    end;
    (split; [exact Hincl|]); settle_budget.
Qed.

(** [save_message] keeps the estimates recorded, so the assumption of the
    budget theorem holds of every store built by it. *)
Lemma save_message_keeps_recorded session_id role content st :
  tokens_recorded st ->
  tokens_recorded (snd (save_message session_id role content st)).
Proof.
  intros Hrec r. unfold save_message. cbn [snd messages with_messages].
  rewrite in_app_iff. intros [Hin | [<- | []]]; [now apply Hrec | reflexivity].
Qed.

End ContextBudget.

(** A session with two stored messages. *)
Lemma context_budget_safety_witness :
  let st :=
    snd (save_message (lit "s1") (lit "assistant") (lit "hi, what are we building?")
           (snd (save_message (lit "s1") (lit "user") (lit "hello") empty_store))) in
  let ctx := _build_context_with_identity plain_prompts (lit "s1") (lit "companion") st in
  tokens_recorded st /\
  length ctx = 3%nat /\
  context_cost ctx
    <= MAX_CONTEXT_TOKENS
       + estimate_tokens (build_identity plain_prompts (lit "companion")
                                         (Some (lit "s1")) st).
Proof.
  intros st ctx.
  assert (Hrec : tokens_recorded st).
  { intros r Hin. vm_compute in Hin. destruct Hin as [<- | [<- | []]]; reflexivity. }
  split; [exact Hrec | split; [reflexivity|]].
  destruct (context_budget_safety plain_prompts (lit "s1") (lit "companion") st)
    as (extras & selected & _ & _ & _ & _ & Hcontent).
  apply (Hcontent Hrec).
Defined.

(** ** The prompt sanitizer (identity.py) *)

Section Sanitizer.

Lemma inert_tail new x tail : inert new (x :: tail) -> inert new tail.
Proof. destruct new as [|d new]; cbn; [discriminate | tauto]. Qed.

(** A word that [new] cannot start is read off the output only where it
    stood in the input. *)
Lemma replace_from_reflects_prefix (old new : str) :
  forall fuel (tail s : str),
    inert new tail ->
    startswith tail (replace_from fuel old new s) = true ->
    startswith tail s = true.
Proof.
  induction fuel as [|fuel IH]; intros tail s Hinert; cbn [replace_from]; [auto|].
  destruct (strip_prefix old s) as [rest|] eqn:Hstrip.
  - destruct tail as [|x tail]; [reflexivity|].
    destruct new as [|d new]; cbn in Hinert; [discriminate|].
    cbn. intros [Hxd _]%andb_true_iff. apply char_eqb_eq in Hxd. subst. tauto.
  - destruct s as [|c s]; [auto|].
    destruct tail as [|x tail]; [reflexivity|]. cbn.
    intros [Hxc Htail]%andb_true_iff. rewrite Hxc. cbn.
    eapply IH; eauto using inert_tail.
Qed.

Lemma contains_skip (e : char) (tail new rest : str) :
  ~ In e new ->
  contains (e :: tail) (new ++ rest) = contains (e :: tail) rest.
Proof.
  induction new as [|d new IH]; intros Hnot; [reflexivity|].
  cbn [app contains startswith].
  destruct (char_eqb e d) eqn:E.
  - apply char_eqb_eq in E. subst. cbn in Hnot. tauto.
  - cbn. apply IH. cbn in Hnot. tauto.
Qed.

(** After the replacement, the word [e :: tail] occurs nowhere, provided
    each place where it stood in the input was a place where [old] stood. *)
Lemma replace_from_clears (old new : str) (e : char) (tail : str) :
  old <> [] -> ~ In e new -> inert new tail ->
  forall fuel s,
    (length s < fuel)%nat ->
    (forall a t, s = a ++ t -> startswith (e :: tail) t = true ->
                 startswith old t = true) ->
    contains (e :: tail) (replace_from fuel old new s) = false.
Proof.
  intros Hold Hnew Hinert.
  induction fuel as [|fuel IH]; intros s Hlen Hcover; [lia|].
  cbn [replace_from].
  destruct (strip_prefix old s) as [rest|] eqn:Hstrip.
  - apply strip_prefix_spec in Hstrip. subst s.
    rewrite contains_skip by exact Hnew.
    apply IH.
    + rewrite length_app in Hlen. destruct old; [congruence | cbn in Hlen; lia].
    + intros a t -> Ht. apply (Hcover (old ++ a)); [now rewrite app_assoc | exact Ht].
  - destruct s as [|c s]; [reflexivity|].
    cbn [contains]. apply orb_false_iff. split.
    + apply not_true_iff_false. intros Hstart.
      assert (Hin : startswith (e :: tail) (c :: s) = true).
      { cbn in Hstart |- *. apply andb_true_iff in Hstart as [Hec Htail].
        rewrite Hec. cbn. eapply replace_from_reflects_prefix; eauto. }
      apply (Hcover [] (c :: s) eq_refl) in Hin.
      apply strip_prefix_none in Hstrip. congruence.
    + apply IH; [cbn in Hlen; lia|].
      intros a t -> Ht. apply (Hcover (c :: a)); [reflexivity | exact Ht].
Qed.

Lemma contains_suffix (w a t : str) :
  contains w (a ++ t) = false -> contains w t = false.
Proof.
  induction a as [|x a IH]; [auto|]. cbn [app contains].
  intros [_ H]%orb_false_iff. auto.
Qed.

Lemma contains_here (w s : str) : contains w s = false -> startswith w s = false.
Proof. destruct s; cbn; [now rewrite orb_false_r | now intros [H _]%orb_false_iff]. Qed.

(** [replace] removes every occurrence of [old]. *)
Lemma replace_removes (o : char) (old' new s : str) :
  ~ In o new -> inert new old' ->
  contains (o :: old') (replace (o :: old') new s) = false.
Proof.
  intros Hnew Hinert. unfold replace.
  apply replace_from_clears; auto; try discriminate; try lia.
Qed.

(** [replace] does not create an occurrence of a word it cannot complete. *)
Lemma replace_preserves (o : char) (old' new : str) (e : char) (tail s : str) :
  ~ In e new -> inert new tail ->
  contains (e :: tail) s = false ->
  contains (e :: tail) (replace (o :: old') new s) = false.
Proof.
  intros Hnew Hinert Hclean. unfold replace.
  apply replace_from_clears; auto; try discriminate; try lia.
  intros a t -> Ht. apply contains_suffix, contains_here in Hclean. congruence.
Qed.

Lemma startswith_truncated (w marker : str) :
  (forall c, In c w -> ~ In c marker) ->
  forall n x, startswith w (firstn n x ++ marker) = true -> startswith w x = true.
Proof.
  induction w as [|y w IH]; intros Hfree n x; [reflexivity|].
  assert (Hmarker : startswith (y :: w) marker = true -> False).
  { destruct marker as [|d marker]; cbn; [discriminate|].
    intros [Hyd _]%andb_true_iff. apply char_eqb_eq in Hyd. subst.
    apply (Hfree d); now left. }
  destruct n as [|n]; [intros H; now apply Hmarker in H|].
  destruct x as [|c x]; [intros H; now apply Hmarker in H|].
  cbn. intros [Hyc Hrest]%andb_true_iff. rewrite Hyc. cbn.
  apply (IH (fun c' Hc' => Hfree c' (or_intror Hc')) n x Hrest).
Qed.

Lemma contains_unshared (e : char) (tail marker : str) :
  ~ In e marker -> contains (e :: tail) marker = false.
Proof.
  induction marker as [|d marker IH]; intros Hnot; [reflexivity|].
  cbn [contains startswith]. destruct (char_eqb e d) eqn:E.
  - apply char_eqb_eq in E. subst. cbn in Hnot. tauto.
  - cbn. apply IH. cbn in Hnot. tauto.
Qed.

(** Cutting a clean text and appending a marker that shares no character
    with the word keeps the text clean. *)
Lemma contains_truncated (e : char) (tail marker : str) :
  (forall c, In c (e :: tail) -> ~ In c marker) ->
  forall n x,
    contains (e :: tail) x = false ->
    contains (e :: tail) (firstn n x ++ marker) = false.
Proof.
  intros Hfree n x. revert n.
  assert (Hmarker : contains (e :: tail) marker = false).
  { apply contains_unshared, Hfree. now left. }
  induction x as [|c x IH]; intros n Hclean.
  - now rewrite firstn_nil.
  - destruct n as [|n]; [exact Hmarker|].
    change (firstn (S n) (c :: x) ++ marker) with (c :: (firstn n x ++ marker)).
    cbn [contains]. apply orb_false_iff. split.
    + apply not_true_iff_false. intros Hstart.
      apply (startswith_truncated _ marker Hfree (S n) (c :: x)) in Hstart.
      apply contains_here in Hclean. congruence.
    + apply IH. cbn [contains] in Hclean. now apply orb_false_iff in Hclean.
Qed.

(** Decides the side conditions on the literals of the sanitizer. *)
Ltac literal_side :=
  cbv; repeat (intros [] || intro); intuition (try discriminate; try congruence).

(** The text before the length cut is free of the four words. *)
Lemma sanitize_replacements_clean (text : str) :
  let cleaned :=
    replace (lit "</tool") (lit "&lt;/tool")
      (replace (lit "<tool") (lit "&lt;tool")
         (replace (lit "}") [] (replace (lit "{") [] text))) in
  contains (lit "{") cleaned = false /\
  contains (lit "}") cleaned = false /\
  contains (lit "<tool") cleaned = false /\
  contains (lit "</tool") cleaned = false.
Proof.
  intros cleaned. subst cleaned.
  set (t1 := replace (lit "{") [] text).
  set (t2 := replace (lit "}") [] t1).
  set (t3 := replace (lit "<tool") (lit "&lt;tool") t2).
  assert (H1 : contains (lit "{") t1 = false).
  { apply (replace_removes 123%N [] [] text); literal_side. }
  assert (H2 : contains (lit "{") t2 = false).
  { apply (replace_preserves 125%N [] [] 123%N [] t1); auto; literal_side. }
  assert (H2' : contains (lit "}") t2 = false).
  { apply (replace_removes 125%N [] [] t1); literal_side. }
  assert (H3 : contains (lit "{") t3 = false).
  { apply (replace_preserves 60%N (lit "tool") (lit "&lt;tool") 123%N [] t2);
      auto; literal_side. }
  assert (H3' : contains (lit "}") t3 = false).
  { apply (replace_preserves 60%N (lit "tool") (lit "&lt;tool") 125%N [] t2);
      auto; literal_side. }
  assert (H3'' : contains (lit "<tool") t3 = false).
  { apply (replace_removes 60%N (lit "tool") (lit "&lt;tool") t2); literal_side. }
  repeat split.
  - apply (replace_preserves 60%N (lit "/tool") (lit "&lt;/tool") 123%N [] t3);
      auto; literal_side.
  - apply (replace_preserves 60%N (lit "/tool") (lit "&lt;/tool") 125%N [] t3);
      auto; literal_side.
  - apply (replace_preserves 60%N (lit "/tool") (lit "&lt;/tool") 60%N (lit "tool") t3);
      auto; literal_side.
  - apply (replace_removes 60%N (lit "/tool") (lit "&lt;/tool") t3); literal_side.
Qed.

(** C4 (amended): for every input, the sanitizer output contains no opening
    or closing brace and neither of the substrings "<tool" and "</tool", and
    it is at most 2,003 characters long: 2,000 characters of sanitized text
    and, when the text was cut, the three-character marker "...". *)
Theorem sanitize_for_prompt_safe :
  forall text : str,
    let out := _sanitize_for_prompt text in
    contains (lit "{") out = false /\
    contains (lit "}") out = false /\
    contains (lit "<tool") out = false /\
    contains (lit "</tool") out = false /\
    len out <= 2003.
Proof.
  intros text out. subst out. unfold _sanitize_for_prompt.
  destruct text as [|c text].
  { cbn [truthy negb]. repeat (split; [reflexivity|]). unfold len. cbn. lia. }
  cbn [truthy negb].
  destruct (sanitize_replacements_clean (c :: text)) as (Ha & Hb & Hc & Hd).
  cbv zeta.
  set (cleaned := replace (lit "</tool") _ _) in *.
  destruct (Z.gtb_spec (len cleaned) 2000) as [Hlong|Hshort].
  - unfold slice_to. repeat split.
    + apply (contains_truncated 123%N [] (lit "...")); auto; literal_side.
    + apply (contains_truncated 125%N [] (lit "...")); auto; literal_side.
    + apply (contains_truncated 60%N (lit "tool") (lit "...")); auto; literal_side.
    + apply (contains_truncated 60%N (lit "/tool") (lit "...")); auto; literal_side.
    + unfold len. rewrite length_app, length_firstn. cbn [length lit]. 
      change (length (lit "...")) with 3%nat. lia.
  - repeat split; auto. lia.
Qed.

End Sanitizer.

(** C4 (as stated, refuted): a text of 2,001 letters is cut to 2,000 and
    given the marker, which makes 2,003 characters, more than 2,000. *)
Lemma sanitize_for_prompt_exceeds_2000 :
  len (_sanitize_for_prompt (repeat 97%N 2001)) = 2003 /\
  ~ len (_sanitize_for_prompt (repeat 97%N 2001)) <= 2000.
Proof. split; [vm_compute; reflexivity | vm_compute; intros H; now apply H]. Qed.

(** ** Tool-call parsing (tools.py) *)

Section ToolCalls.

Lemma lstrip_no_lead (s : str) : no_lead (lstrip s).
Proof.
  induction s as [|c s IH]; cbn; [exact I|].
  destruct (is_space c) eqn:E; [exact IH | exact E].
Qed.

Lemma lstrip_fixed (s : str) : no_lead s -> lstrip s = s.
Proof. destruct s as [|c s]; cbn; [reflexivity | now intros ->]. Qed.

Lemma lstrip_suffix (s : str) : exists dropped, s = dropped ++ lstrip s.
Proof.
  induction s as [|c s [dropped IH]]; cbn; [now exists []|].
  destruct (is_space c); [exists (c :: dropped); cbn; now f_equal | now exists []].
Qed.

Lemma rstrip_no_lead (s : str) : no_lead s -> no_lead (rstrip s).
Proof.
  intros Hlead. unfold rstrip.
  destruct (lstrip_suffix (rev s)) as [dropped Hsplit].
  apply (f_equal (@rev _)) in Hsplit. rewrite rev_involutive, rev_app_distr in Hsplit.
  destruct (rev (lstrip (rev s))) as [|c kept]; [exact I|].
  rewrite Hsplit in Hlead. exact Hlead.
Qed.

(** [strip] is idempotent. *)
Lemma strip_strip (s : str) : strip (strip s) = strip s.
Proof.
  unfold strip at 1.
  rewrite (lstrip_fixed (strip s)) by apply rstrip_no_lead, lstrip_no_lead.
  unfold strip, rstrip. rewrite rev_involutive.
  now rewrite (lstrip_fixed (lstrip _)) by apply lstrip_no_lead.
Qed.

(** Where the pattern matches nowhere, substitution changes nothing. *)
Lemma sub_without_match (p : list node) (repl : str) :
  forall fuel s, findall_from fuel p s = [] -> sub_from fuel p repl s = s.
Proof.
  induction fuel as [|fuel IH]; intros s; cbn; [reflexivity|].
  destruct (match_here p s) as [[groups rest]|]; [discriminate|].
  destruct s as [|c s]; [reflexivity|]. intros Hnone. now rewrite IH.
Qed.

(** C9 (amended): the cleaned text of parse_tool_calls is already
    stripped, and a second parse that finds no call in it returns it
    unchanged; a second parse may, however, find a call that the removal of
    the first calls has put together. *)
Theorem parse_tool_calls_stable_when_clean :
  forall text : str,
    let cleaned := snd (parse_tool_calls text) in
    strip cleaned = cleaned /\
    (fst (parse_tool_calls cleaned) = [] ->
     parse_tool_calls cleaned = ([], cleaned)).
Proof.
  intros text cleaned. subst cleaned. unfold parse_tool_calls. cbn [fst snd].
  split; [apply strip_strip|].
  intros Hnone. rewrite Hnone. f_equal.
  apply map_eq_nil in Hnone. unfold sub, findall in *.
  rewrite (sub_without_match pattern [] _ _ Hnone). apply strip_strip.
Qed.

End ToolCalls.

(** C9 (as stated, refuted): removing the inner call of the spliced reply
    leaves the text of another call, which the second parse finds. *)
Lemma parse_tool_calls_not_idempotent :
  let cleaned := snd (parse_tool_calls spliced_reply) in
  fst (parse_tool_calls spliced_reply) = [(lit "a", lit "x")] /\
  parse_tool_calls cleaned = ([(lit "b", lit "y")], []) /\
  parse_tool_calls cleaned <> ([], cleaned).
Proof. vm_compute. repeat split; discriminate. Qed.

(** An ordinary reply: one call, and a cleaned text that parses to itself. *)
Lemma parse_tool_calls_stable_when_clean_witness :
  let cleaned := snd (parse_tool_calls calc_reply) in
  fst (parse_tool_calls calc_reply) = [(lit "calc", lit "2+2")] /\
  cleaned = lit "hi  there" /\
  parse_tool_calls cleaned = ([], cleaned).
Proof.
  intros cleaned. split; [vm_compute; reflexivity | split; [vm_compute; reflexivity|]].
  apply (parse_tool_calls_stable_when_clean calc_reply). vm_compute. reflexivity.
Defined.

(** ** The bound on inference calls (brain.py) *)

Section InferenceBound.
Context {W : Type} `{Runtime W}.

Lemma between_ret {A} (a : A) : between 0 0 (ret a : M W A).
Proof. intros s. cbn. lia. Qed.

Lemma between_weaken {A} (m : M W A) lo hi lo' hi' :
  between lo hi m -> (lo' <= lo)%nat -> (hi <= hi')%nat -> between lo' hi' m.
Proof. intros Hm Hlo Hhi s. specialize (Hm s). lia. Qed.

Lemma between_bind_quiet {A B} (m : M W A) (k : A -> M W B) lo hi :
  between 0 0 m -> (forall x, between lo hi (k x)) -> between lo hi (bind m k).
Proof.
  intros Hm Hk s. rewrite bind_run.
  specialize (Hm s). specialize (Hk (fst (m s)) (snd (m s))). lia.
Qed.

Lemma between_bind_call {A B} (m : M W A) (k : A -> M W B) lo hi :
  between 1 1 m -> (forall x, between lo hi (k x)) ->
  between (S lo) (S hi) (bind m k).
Proof.
  intros Hm Hk s. rewrite bind_run.
  specialize (Hm s). specialize (Hk (fst (m s)) (snd (m s))). lia.
Qed.

Lemma between_on_db (f : Store -> Store) : between 0 0 (on_db f : M W unit).
Proof. intros s. cbn. lia. Qed.

Lemma between_query_db {A} (f : Store -> A) : between 0 0 (query_db f : M W A).
Proof. intros s. cbn. lia. Qed.

Lemma between_on_world {A} (f : W -> A * W) : between 0 0 (on_world f).
Proof. intros s. unfold on_world. destruct (f (world s)). cbn. lia. Qed.

Lemma between_get_mode : between 0 0 (get_mode : M W str).
Proof. intros s. cbn. lia. Qed.

Lemma between_count_inference : between 1 1 (count_inference : M W unit).
Proof. intros s. cbn. lia. Qed.

Lemma between_log event details : between 0 0 (log event details : M W unit).
Proof. apply between_on_db. Qed.

Lemma between_save session_id role content :
  between 0 0 (save session_id role content : M W unit).
Proof. apply between_on_db. Qed.

Lemma between_call_back (cb : str -> W -> W) chunk :
  between 0 0 (call_back cb chunk).
Proof. apply between_on_world. Qed.

Lemma between_for_each {A} (xs : list A) (body : A -> M W unit) :
  (forall x, between 0 0 (body x)) -> between 0 0 (for_each xs body).
Proof.
  intros Hbody. induction xs as [|x xs IH]; cbn [for_each].
  - apply between_ret.
  - apply between_bind_quiet; auto.
Qed.

Lemma between_ollama model messages stream :
  between 1 1 (ollama model messages stream).
Proof.
  unfold ollama. apply (between_bind_call _ _ 0 0).
  - apply between_count_inference.
  - intros _. apply between_on_world.
Qed.

Lemma between_cloud messages : between 1 1 (cloud messages).
Proof.
  unfold cloud. apply (between_bind_call _ _ 0 0).
  - apply between_count_inference.
  - intros _. apply between_on_world.
Qed.

Lemma between_chat_full model messages : between 1 1 (_chat_full model messages).
Proof.
  unfold _chat_full. apply (between_bind_call _ _ 0 0).
  - apply between_ollama.
  - intros parts. apply between_ret.
Qed.

Create HintDb calls.

#[local] Hint Resolve between_ret between_on_db between_query_db between_on_world
  between_get_mode between_log between_save between_call_back between_for_each
  between_ollama between_cloud between_chat_full : calls.

(** Steps through a computation, charging each sub-computation by its
    lemma. *)
Ltac count_calls :=
  repeat first
    [ apply between_ret
    | apply between_bind_quiet; [solve [auto with calls] | intros]
    | apply (between_bind_call _ _ 0 0); [solve [auto with calls] | intros]
    | solve [auto with calls]
    | match goal with
      | |- between _ _ (if ?c then _ else _) => destruct c
      | |- between _ _ (match ?o with Some _ => _ | None => _ end) => destruct o
      end ].

(** Classification is one inference call. *)
Lemma between_classify user_message : between 1 1 (_classify user_message).
Proof. unfold _classify. count_calls. Qed.

(** Picking a model asks the cloud whether it is there, but infers nothing. *)
Lemma between_pick_model category : between 0 0 (_pick_model category).
Proof. unfold _pick_model. count_calls. Qed.

Lemma between_execute_tool name args : between 0 0 (execute_tool name args).
Proof. unfold execute_tool. count_calls. Qed.

#[local] Hint Resolve between_classify between_pick_model between_execute_tool : calls.

Lemma between_run_tool_calls session_id tool_calls :
  between 0 0 (run_tool_calls session_id tool_calls).
Proof.
  induction tool_calls as [|[tool_name tool_args] rest IH]; cbn [run_tool_calls].
  - apply between_ret.
  - count_calls.
Qed.

(** Every pass of the loop body makes exactly one inference call, on
    whichever of its three paths. *)
Lemma between_generate_once is_cloud model messages stream_callback loop_num :
  between 1 1 (generate_once is_cloud model messages stream_callback loop_num).
Proof.
  unfold generate_once. destruct is_cloud.
  - apply (between_bind_call _ _ 0 0); [auto with calls | intros r].
    apply between_bind_quiet.
    + destruct stream_callback as [cb|]; [|apply between_ret].
      apply between_for_each. intros chunk. count_calls.
    + intros _. count_calls.
  - destruct stream_callback as [cb|]; [destruct loop_num|]; count_calls.
Qed.

#[local] Hint Resolve between_run_tool_calls between_generate_once : calls.

(** A loop with [remaining] iterations to go makes at most [remaining] calls,
    and at least one if it runs at all. *)
Lemma between_tool_loop remaining :
  forall loop_num is_cloud model session_id stream_callback messages
         accumulated_text full_text,
    between (Nat.min 1 remaining) remaining
            (tool_loop remaining loop_num is_cloud model session_id
                       stream_callback messages accumulated_text full_text).
Proof.
  induction remaining as [|remaining IH]; intros; cbn [tool_loop].
  - apply between_ret.
  - change (Nat.min 1 (S remaining)) with 1%nat.
    apply (between_bind_call _ _ 0 remaining); [auto with calls | intros reply].
    destruct (parse_tool_calls reply) as [tool_calls cleaned_text].
    destruct tool_calls as [|call more].
    + eapply between_weaken; [apply between_ret | lia | lia].
    + apply between_bind_quiet; [auto with calls | intros all_results].
      eapply between_weaken; [apply IH | lia | lia].
Qed.

Lemma between_generate_with_tools model_key context session_id stream_callback :
  between 1 MAX_TOOL_LOOPS
          (_generate_with_tools model_key context session_id stream_callback).
Proof. unfold _generate_with_tools. apply (between_tool_loop MAX_TOOL_LOOPS). Qed.

Lemma between_process_message P session_id user_message stream_callback :
  between 2 (MAX_TOOL_LOOPS + 1)
          (process_message P session_id user_message stream_callback).
Proof.
  unfold process_message.
  apply between_bind_quiet; [auto with calls | intros _].
  replace (MAX_TOOL_LOOPS + 1)%nat with (S MAX_TOOL_LOOPS) by lia.
  apply (between_bind_call _ _ 1 MAX_TOOL_LOOPS); [auto with calls | intros category].
  apply between_bind_quiet; [auto with calls | intros model_key].
  apply between_bind_quiet; [auto with calls | intros _].
  apply between_bind_quiet; [auto with calls | intros context].
  intros s. rewrite bind_run.
  pose proof (between_generate_with_tools model_key context session_id
                                          stream_callback s) as Hgen.
  set (s1 := snd (_generate_with_tools model_key context session_id stream_callback s))
    in *.
  set (reply := fst (_generate_with_tools model_key context session_id
                                          stream_callback s)).
  assert (Hrest : between 0 0
            (let* _ := save session_id (lit "assistant") reply in
             let* _ := log (lit "response")
                           (lit "model=" ++ model_key ++ lit ", len="
                              ++ decimal (length reply)) in
             ret reply)) by count_calls.
  specialize (Hrest s1). lia.
Qed.

(** C2 (amended): one call of process_message makes exactly one inference
    call to classify the message and between one and MAX_TOOL_LOOPS (25)
    calls in the tool loop, hence at most MAX_TOOL_LOOPS + 1 = 26 inference
    calls in total, for every session, message, callback and inference
    oracle. *)
Theorem process_message_inference_bound :
  forall (P : Prompts) (session_id user_message : str) (stream_callback : callback)
         (s : State W),
    calls_made (_classify user_message) s = 1%nat /\
    (forall model_key context,
       (1 <= calls_made (_generate_with_tools model_key context session_id
                                               stream_callback) s
          <= MAX_TOOL_LOOPS)%nat) /\
    (2 <= calls_made (process_message P session_id user_message stream_callback) s
       <= MAX_TOOL_LOOPS + 1)%nat.
Proof.
  intros P session_id user_message stream_callback s. unfold calls_made.
  split; [|split].
  - pose proof (between_classify user_message s). lia.
  - intros model_key context.
    pose proof (between_generate_with_tools model_key context session_id
                                            stream_callback s). lia.
  - pose proof (between_process_message P session_id user_message stream_callback s).
    lia.
Qed.

End InferenceBound.

(** C2 (as stated, refuted): with a model that answers every prompt with a
    tool call, one turn makes 26 inference calls, one more than
    MAX_TOOL_LOOPS. *)
Lemma process_message_makes_26_calls :
  calls_made (process_message plain_prompts (lit "s1") (lit "hello") None) fresh_state
    = 26%nat /\
  ~ (calls_made (process_message plain_prompts (lit "s1") (lit "hello") None) fresh_state
       <= MAX_TOOL_LOOPS)%nat.
Proof.
  assert (Hcalls : calls_made (process_message plain_prompts (lit "s1") (lit "hello") None)
                              fresh_state = 26%nat) by (vm_compute; reflexivity).
  split; [exact Hcalls|]. rewrite Hcalls. unfold MAX_TOOL_LOOPS. lia.
Qed.

(** A turn with one tool call: the classification, the reply that asks for
    the calculator and the reply that uses its result make three inference
    calls; the answer is the text around the call followed by the second
    reply, and the store records user, tool, tool_result and assistant
    messages in that order. *)
Example calculator_turn :
  let run := process_message plain_prompts (lit "s1") (lit "what is 2+2") None
                             calculating_state in
  fst run = lit "hi  there" ++ nl ++ lit "4 it is" /\
  inference_calls (snd run) = 3%nat /\
  map msg_role (messages (db (snd run)))
    = [lit "user"; lit "tool"; lit "tool_result"; lit "assistant"] /\
  map msg_content (messages (db (snd run)))
    = [lit "what is 2+2"; lit "Called calc"; lit "4";
       lit "hi  there" ++ nl ++ lit "4 it is"].
Proof. vm_compute. repeat split; reflexivity. Qed.

(** ** The scans never run out of fuel

    [replace], [findall] and [sub] recurse on a counter that starts above the
    length of the text.  Each step consumes input, so the counter is never
    exhausted and the three functions satisfy the equations of the scan they
    stand for. *)

Section ScanEquations.

Lemma replace_from_enough (old new : str) :
  old <> [] ->
  forall fuel1 fuel2 s,
    (length s < fuel1)%nat -> (length s < fuel2)%nat ->
    replace_from fuel1 old new s = replace_from fuel2 old new s.
Proof.
  intros Hold. induction fuel1 as [|fuel1 IH]; intros fuel2 s H1 H2; [lia|].
  destruct fuel2 as [|fuel2]; [lia|]. cbn [replace_from].
  destruct (strip_prefix old s) as [rest|] eqn:Hstrip.
  - apply strip_prefix_spec in Hstrip. subst s. rewrite length_app in *.
    f_equal. destruct old; [congruence|]. cbn in H1, H2. apply IH; lia.
  - destruct s as [|c s]; [reflexivity|]. cbn in H1, H2. f_equal. apply IH; lia.
Qed.

(** [s.replace(old, new)] replaces at the front and goes on behind it. *)
Lemma replace_equation (o : char) (old' new s : str) :
  replace (o :: old') new s =
  match strip_prefix (o :: old') s with
  | Some rest => new ++ replace (o :: old') new rest
  | None =>
      match s with
      | [] => []
      | c :: s' => c :: replace (o :: old') new s'
      end
  end.
Proof.
  unfold replace at 1. cbn [replace_from].
  destruct (strip_prefix (o :: old') s) as [rest|] eqn:Hstrip.
  - f_equal. unfold replace. apply strip_prefix_spec in Hstrip. subst s.
    apply replace_from_enough; [discriminate | | lia].
    rewrite length_app. cbn. lia.
  - destruct s as [|c s]; reflexivity.
Qed.

Lemma greedy_plus_bound {R} (cls : char -> bool) (k : str -> str -> option R)
    (left : R -> str) :
  (forall taken r out, k taken r = Some out -> (length (left out) <= length r)%nat) ->
  forall s taken out,
    greedy_plus cls k taken s = Some out -> (length (left out) <= length s)%nat.
Proof.
  intros Hk. induction s as [|c s IH]; intros taken out; cbn; [discriminate|].
  destruct (cls c); [|discriminate].
  destruct (greedy_plus cls k (taken ++ [c]) s) as [r|] eqn:Hmore.
  - intros [= <-]. apply IH in Hmore. lia.
  - intros Hstop%Hk. lia.
Qed.

Lemma lazy_star_bound {R} (cls : char -> bool) (k : str -> str -> option R)
    (left : R -> str) :
  (forall taken r out, k taken r = Some out -> (length (left out) <= length r)%nat) ->
  forall s taken out,
    lazy_star cls k taken s = Some out -> (length (left out) <= length s)%nat.
Proof.
  intros Hk. induction s as [|c s IH]; intros taken out; cbn.
  - destruct (k taken []) as [r|] eqn:Hnow; [|discriminate].
    intros [= <-]. now apply Hk in Hnow.
  - destruct (k taken (c :: s)) as [r|] eqn:Hnow.
    + intros [= <-]. now apply Hk in Hnow.
    + destruct (cls c); [|discriminate]. intros Hmore%IH. lia.
Qed.

(** A match never leaves more input than it was given. *)
Lemma match_here_bound (p : list node) :
  forall s groups rest,
    match_here p s = Some (groups, rest) -> (length rest <= length s)%nat.
Proof.
  induction p as [|n p IH]; intros s groups rest.
  - cbn. intros [= _ <-]. lia.
  - destruct n as [text | kind cls capture]; cbn [match_here].
    + destruct (strip_prefix text s) as [r|] eqn:Hstrip; [|discriminate].
      apply strip_prefix_spec in Hstrip. subst s. intros Hm%IH.
      rewrite length_app. lia.
    + set (continue := fun taken r => _).
      assert (Hcont : forall taken r out,
                 continue taken r = Some out -> (length (snd out) <= length r)%nat).
      { intros taken r out. subst continue. cbn beta.
        destruct (match_here p r) as [[g remaining]|] eqn:Hm; [|discriminate].
        intros [= <-]. cbn. eauto. }
      destruct kind; intros Hm.
      * apply (greedy_plus_bound cls continue snd Hcont) in Hm. exact Hm.
      * apply (lazy_star_bound cls continue snd Hcont) in Hm. exact Hm.
Qed.

Lemma match_here_lit (text : str) (p : list node) (s : str) :
  match_here (Lit text :: p) s =
  match strip_prefix text s with
  | Some rest => match_here p rest
  | None => None
  end.
Proof. reflexivity. Qed.

(** A match of the call pattern consumes input. *)
Lemma pattern_consumes (s : str) groups rest :
  match_here pattern s = Some (groups, rest) -> (length rest < length s)%nat.
Proof.
  unfold pattern. rewrite match_here_lit.
  destruct (strip_prefix (lit "<tool") s) as [r|] eqn:Hstrip; [|discriminate].
  apply strip_prefix_spec in Hstrip. subst s.
  intros Hm. apply (match_here_bound _ r groups rest) in Hm.
  rewrite length_app. cbn. lia.
Qed.

Lemma findall_from_enough :
  forall fuel1 fuel2 s,
    (length s < fuel1)%nat -> (length s < fuel2)%nat ->
    findall_from fuel1 pattern s = findall_from fuel2 pattern s.
Proof.
  induction fuel1 as [|fuel1 IH]; intros fuel2 s H1 H2; [lia|].
  destruct fuel2 as [|fuel2]; [lia|]. cbn [findall_from].
  destruct (match_here pattern s) as [[groups rest]|] eqn:Hm.
  - apply pattern_consumes in Hm. f_equal. apply IH; lia.
  - destruct s as [|c s]; [reflexivity|]. cbn in H1, H2. apply IH; lia.
Qed.

Lemma sub_from_enough (repl : str) :
  forall fuel1 fuel2 s,
    (length s < fuel1)%nat -> (length s < fuel2)%nat ->
    sub_from fuel1 pattern repl s = sub_from fuel2 pattern repl s.
Proof.
  induction fuel1 as [|fuel1 IH]; intros fuel2 s H1 H2; [lia|].
  destruct fuel2 as [|fuel2]; [lia|]. cbn [sub_from].
  destruct (match_here pattern s) as [[groups rest]|] eqn:Hm.
  - apply pattern_consumes in Hm. f_equal. apply IH; lia.
  - destruct s as [|c s]; [reflexivity|]. cbn in H1, H2. f_equal. apply IH; lia.
Qed.

(** [re.findall] takes the leftmost match and resumes behind it. *)
Lemma findall_equation (s : str) :
  findall pattern s =
  match match_here pattern s with
  | Some (groups, rest) => groups :: findall pattern rest
  | None =>
      match s with
      | [] => []
      | _ :: s' => findall pattern s'
      end
  end.
Proof.
  unfold findall at 1. cbn [findall_from].
  destruct (match_here pattern s) as [[groups rest]|] eqn:Hm.
  - apply pattern_consumes in Hm. f_equal. apply findall_from_enough; lia.
  - destruct s as [|c s]; reflexivity.
Qed.

(** [re.sub] replaces the leftmost match and resumes behind it. *)
Lemma sub_equation (repl s : str) :
  sub pattern repl s =
  match match_here pattern s with
  | Some (_, rest) => repl ++ sub pattern repl rest
  | None =>
      match s with
      | [] => []
      | c :: s' => c :: sub pattern repl s'
      end
  end.
Proof.
  unfold sub at 1. cbn [sub_from].
  destruct (match_here pattern s) as [[groups rest]|] eqn:Hm.
  - apply pattern_consumes in Hm. f_equal. apply sub_from_enough; lia.
  - destruct s as [|c s]; reflexivity.
Qed.

End ScanEquations.

(** * Further properties of the code *)

(** ** Message ids and the recent window (memory.py) *)

Section MessageTable.

Lemma keyed_after_save session_id role content st :
  messages_keyed st -> messages_keyed (snd (save_message session_id role content st)).
Proof.
  intros [Hsorted Hbound]. unfold messages_keyed, save_message.
  cbn [snd messages msg_seq with_messages]. split.
  - rewrite map_app. cbn [map msg_id]. apply StronglySorted_app_2.
    + intros x y Hx Hy%list_elem_of_singleton. subst y.
      apply list_elem_of_In, in_map_iff in Hx as (r & <- & Hr).
      rewrite Forall_forall in Hbound. apply list_elem_of_In, Hbound in Hr. lia.
    + exact Hsorted.
    + repeat constructor.
  - apply Forall_app. split.
    + eapply Forall_impl; [exact Hbound|]. cbn. intros; lia.
    + repeat constructor. cbn. lia.
Qed.

Lemma latest_id_bounded (rows : list MsgRow) (n : Z) :
  Forall (fun r => msg_id r <= n) rows ->
  forall init,
    match init with Some b => b <= n | None => True end ->
    match fold_left
            (fun best r =>
               match best with
               | Some b => Some (Z.max b (msg_id r))
               | None => Some (msg_id r)
               end) rows init with
    | Some b => b <= n
    | None => True
    end.
Proof.
  induction 1 as [|r rows Hr _ IH]; intros init Hinit; cbn; [exact Hinit|].
  apply IH. destruct init; lia.
Qed.

(** X1: on a table whose ids are increasing, save_message returns an id
    above every stored id, keeps the ids increasing, and that id is what
    get_latest_message_id then reports for the session. *)
Theorem save_message_ids_increase :
  forall (session_id role content : str) (st : Store),
    messages_keyed st ->
    let id := fst (save_message session_id role content st) in
    let st' := snd (save_message session_id role content st) in
    Forall (fun r => msg_id r < id) (messages st) /\
    messages_keyed st' /\
    get_latest_message_id session_id st' = Some id.
Proof.
  intros session_id role content st Hkeyed id st'. split; [|split].
  - destruct Hkeyed as [_ Hbound]. eapply Forall_impl; [exact Hbound|].
    subst id. cbn. intros; lia.
  - now apply keyed_after_save.
  - subst id st'. unfold get_latest_message_id, save_message.
    cbn [fst snd messages with_messages].
    rewrite List.filter_app, fold_left_app. cbn [List.filter msg_session].
    rewrite str_eqb_refl. cbn [fold_left msg_id].
    destruct Hkeyed as [_ Hbound].
    assert (Hsession : Forall (fun r => msg_id r <= msg_seq st)
                         (List.filter (fun r => str_eqb (msg_session r) session_id)
                                      (messages st))).
    { rewrite Forall_forall in Hbound |- *. intros r Hr%list_elem_of_In%filter_In.
      apply Hbound, list_elem_of_In, Hr. }
    pose proof (latest_id_bounded _ _ Hsession None I) as Hmax.
    destruct (fold_left _ _ None) as [b|]; [f_equal; lia | reflexivity].
Qed.

Lemma skipn_suffix {A} (n : nat) (l : list A) : exists older, l = older ++ skipn n l.
Proof. exists (firstn n l). now rewrite firstn_skipn. Qed.

(** X2: get_recent_messages returns at most [limit] rows, all of the
    session, and they are the newest ones in stored order: the messages of
    the session are some older rows followed by exactly the rows returned. *)
Theorem recent_messages_window :
  forall (session_id : str) (limit : nat) (st : Store),
    let recent := get_recent_messages session_id limit st in
    (length recent <= limit)%nat /\
    Forall (fun r => msg_session r = session_id) recent /\
    exists older,
      session_messages session_id st = older ++ recent /\
      (length older = length (session_messages session_id st) - limit)%nat.
Proof.
  intros session_id limit st recent. subst recent.
  unfold get_recent_messages, lastn, session_messages.
  set (mine := List.filter _ (messages st)).
  split; [|split].
  - rewrite length_skipn. lia.
  - rewrite Forall_forall. intros r Hr%list_elem_of_In%in_skipn%filter_In.
    now apply str_eqb_eq.
  - exists (firstn (length mine - limit) mine). split.
    + now rewrite firstn_skipn.
    + rewrite length_firstn. lia.
Qed.

(** X3: after save_message the new row is the last row of its session's
    recent window (for any positive limit), and the windows of the other
    sessions are what they were. *)
Theorem saved_message_is_most_recent :
  forall (session_id role content : str) (st : Store) (limit : nat),
    (0 < limit)%nat ->
    let st' := snd (save_message session_id role content st) in
    (exists row,
       last (get_recent_messages session_id limit st') = Some row /\
       msg_id row = fst (save_message session_id role content st) /\
       msg_role row = role /\ msg_content row = content /\
       msg_tokens row = Some (estimate_tokens content)) /\
    (forall other, other <> session_id ->
       get_recent_messages other limit st' = get_recent_messages other limit st).
Proof.
  intros session_id role content st limit Hlimit st'. subst st'.
  unfold get_recent_messages, save_message, lastn.
  cbn [fst snd messages with_messages]. split.
  - eexists. rewrite List.filter_app. cbn [List.filter msg_session].
    rewrite str_eqb_refl.
    set (mine := List.filter _ (messages st)).
    rewrite length_app. cbn [length].
    rewrite skipn_app.
    replace (length mine + 1 - limit - length mine)%nat with 0%nat by lia.
    cbn [skipn]. rewrite last_snoc. repeat split; reflexivity.
  - intros other Hother. rewrite List.filter_app. cbn [List.filter msg_session].
    apply not_eq_sym, str_eqb_neq in Hother. rewrite Hother.
    now rewrite app_nil_r.
Qed.

End MessageTable.

(** A table with two messages. *)
Lemma save_message_ids_increase_witness :
  let st := snd (save_message (lit "s1") (lit "user") (lit "hello") empty_store) in
  messages_keyed st /\
  fst (save_message (lit "s1") (lit "assistant") (lit "hi") st) = 2 /\
  get_latest_message_id (lit "s1")
    (snd (save_message (lit "s1") (lit "assistant") (lit "hi") st)) = Some 2.
Proof.
  intros st.
  assert (Hkeyed : messages_keyed st).
  { apply keyed_after_save. split; constructor. }
  split; [exact Hkeyed | split; [reflexivity|]].
  apply (save_message_ids_increase (lit "s1") (lit "assistant") (lit "hi") st Hkeyed).
Defined.

(** A second session does not see the message of the first. *)
Lemma saved_message_is_most_recent_witness :
  let st := snd (save_message (lit "s2") (lit "user") (lit "other") empty_store) in
  let st' := snd (save_message (lit "s1") (lit "user") (lit "hello") st) in
  (msg_content <$> last (get_recent_messages (lit "s1") 50 st')) = Some (lit "hello") /\
  get_recent_messages (lit "s2") 50 st' = get_recent_messages (lit "s2") 50 st.
Proof.
  intros st st'.
  destruct (saved_message_is_most_recent (lit "s1") (lit "user") (lit "hello") st 50)
    as [(row & Hlast & _ & _ & Hcontent & _) Hothers]; [lia|].
  split.
  - fold st' in Hlast. rewrite Hlast. cbn. now rewrite Hcontent.
  - apply Hothers. intros Heq. vm_compute in Heq. discriminate.
Defined.

(** ** The summarizer (workers.py, memory.py) *)

Section Summarizer.
Context {W : Type} `{Generator W}.

Lemma same_tables_refl (a : Store) : same_tables a a.
Proof. repeat split. Qed.

Lemma same_tables_log event details st : same_tables (log_event event details st) st.
Proof. repeat split. Qed.

(** [_quick_generate] writes nothing but a timeline entry. *)
Lemma quick_generate_tables (prompt : str) (s : State W) :
  same_tables (db (snd (_quick_generate prompt s))) (db s).
Proof.
  unfold _quick_generate. rewrite bind_run. unfold on_world.
  destruct (quick_post prompt (world s)) as [[text|e] w]; cbn; repeat split.
Qed.

Lemma latest_summary_after_save session_id text covers st :
  get_latest_summary session_id (save_summary session_id text covers st)
    = Some (mkSummary (sum_seq st + 1) session_id text covers
                      (Some (estimate_tokens text))).
Proof.
  unfold get_latest_summary, save_summary. cbn [summaries with_summaries].
  rewrite List.filter_app. cbn [List.filter sum_session].
  rewrite str_eqb_refl. apply last_snoc.
Qed.

(** What one run of [_summarize] does to the store. *)
Lemma summarize_outcome :
  forall (session_id : str) (s : State W),
    let s' := snd (_summarize session_id s) in
    messages (db s') = messages (db s) /\
    (summaries (db s') = summaries (db s) \/
     exists row final,
       summaries (db s') = summaries (db s) ++ [row] /\
       sum_session row = session_id /\ sum_text row <> [] /\
       last (get_unsummarized_messages session_id (db s)) = Some final /\
       sum_covers_up_to row = msg_id final /\
       covered_up_to session_id (db s) < sum_covers_up_to row /\
       covered_up_to session_id (db s') = sum_covers_up_to row).
Proof.
  intros session_id s s'. subst s'. unfold _summarize.
  rewrite bind_run. cbn [query_db fst snd].
  destruct (last (get_unsummarized_messages session_id (db s))) as [final|] eqn:Hlast;
    [|split; [reflexivity | now left]].
  rewrite bind_run.
  match goal with
  | |- context [_quick_generate ?p s] =>
      pose proof (quick_generate_tables p s) as Htab;
      set (s1 := snd (_quick_generate p s)) in *;
      set (summary := fst (_quick_generate p s))
  end.
  destruct Htab as (Hmsgs & _ & Hsums & _).
  destruct (truthy (strip summary)) eqn:Hnonblank;
    [|split; [exact Hmsgs | left; exact Hsums]].
  rewrite bind_run. cbn [on_db note fst snd db].
  split; [exact Hmsgs|]. right.
  exists (mkSummary (sum_seq (db s1) + 1) session_id (strip summary) (msg_id final)
                    (Some (estimate_tokens (strip summary)))), final.
  assert (Hfinal : In final (get_unsummarized_messages session_id (db s))).
  { apply last_Some in Hlast as [front ->]. apply in_app_iff. right. now left. }
  apply filter_In in Hfinal as [_ Hunc]. unfold uncovered in Hunc.
  apply andb_true_iff in Hunc as [_ Habove%Z.ltb_lt].
  repeat split.
  - cbn [summaries log_event with_timeline save_summary with_summaries].
    now rewrite Hsums.
  - cbn. intros Hnil. rewrite Hnil in Hnonblank. discriminate.
  - exact Habove.
  - unfold covered_up_to.
    change (get_latest_summary session_id (log_event ?e ?d ?st))
      with (get_latest_summary session_id st).
    now rewrite latest_summary_after_save.
Qed.

Lemma sorted_filter_last (p : MsgRow -> bool) (rows : list MsgRow) (final : MsgRow) :
  StronglySorted Z.lt (map msg_id rows) ->
  last (List.filter p rows) = Some final ->
  Forall (fun r => msg_id r <= msg_id final) (List.filter p rows).
Proof.
  induction rows as [|r rows IH]; cbn [map List.filter]; [constructor|].
  intros [Hr Hsorted]%StronglySorted_cons Hlast.
  destruct (p r) eqn:Hp; [|now apply IH].
  destruct (List.filter p rows) as [|r' kept] eqn:Hkept.
  - cbn in Hlast. injection Hlast as <-. repeat constructor. lia.
  - rewrite last_cons_cons in Hlast. constructor; [|now apply IH].
    assert (Hin : In final rows).
    { apply last_Some in Hlast as [front Hfront].
      assert (In final (List.filter p rows)) as Hf%filter_In.
      { rewrite Hkept, Hfront. apply in_app_iff. right. now left. }
      tauto. }
    rewrite Forall_forall in Hr.
    assert (msg_id r < msg_id final); [|lia].
    apply Hr, list_elem_of_In, in_map, Hin.
Qed.

(** X4: _summarize never touches the messages and adds at most one
    summary; a summary it adds is for the session, has a non-empty text,
    and covers up to the id of the last unsummarized message, which lies
    strictly above what was covered before and is what the session is
    covered up to from then on. *)
Theorem summary_coverage_increases :
  forall (session_id : str) (s : State W),
    let s' := snd (_summarize session_id s) in
    messages (db s') = messages (db s) /\
    (summaries (db s') = summaries (db s) \/
     exists row final,
       summaries (db s') = summaries (db s) ++ [row] /\
       sum_session row = session_id /\ sum_text row <> [] /\
       last (get_unsummarized_messages session_id (db s)) = Some final /\
       sum_covers_up_to row = msg_id final /\
       covered_up_to session_id (db s) < sum_covers_up_to row /\
       covered_up_to session_id (db s') = sum_covers_up_to row).
Proof. exact summarize_outcome. Qed.

Lemma filter_none {A} (p : A -> bool) (l : list A) :
  (forall x, In x l -> p x = false) -> List.filter p l = [].
Proof.
  induction l as [|x l IH]; intros Hp; cbn; [reflexivity|].
  rewrite (Hp x) by now left. apply IH. intros y Hy. apply Hp. now right.
Qed.

(** X5: on a table whose ids are increasing, a run of _summarize that adds
    a summary leaves no message of the session unsummarized, and the next
    pass of the summarizer changes nothing. *)
Theorem summarize_leaves_nothing_uncovered :
  forall (session_id : str) (s : State W),
    messages_keyed (db s) ->
    let s' := snd (_summarize session_id s) in
    summaries (db s') <> summaries (db s) ->
    get_unsummarized_messages session_id (db s') = [] /\
    count_unsummarized session_id (db s') = 0 /\
    snd (summarizer_pass session_id s') = s'.
Proof.
  intros session_id s [Hsorted _] s' Hchanged.
  destruct (summarize_outcome session_id s)
    as [Hmsgs [Hsame | (row & final & _ & _ & _ & Hlast & Hcov & Habove & Hcov')]];
    [contradiction|].
  fold s' in Hmsgs, Hcov'.
  assert (Hnone : List.filter (uncovered session_id (covered_up_to session_id (db s')))
                              (messages (db s')) = []).
  { rewrite Hcov', Hcov, Hmsgs. apply filter_none. intros r Hr.
    apply not_true_iff_false. intros Hunc. unfold uncovered in Hunc.
    apply andb_true_iff in Hunc as [Hsess Hgt%Z.ltb_lt].
    pose proof (sorted_filter_last _ _ _ Hsorted Hlast) as Hmax.
    rewrite Forall_forall in Hmax.
    assert (msg_id r <= msg_id final); [|lia].
    apply Hmax, list_elem_of_In, filter_In. split; [exact Hr|].
    unfold uncovered. rewrite Hsess. cbn. apply Z.ltb_lt. lia. }
  split; [exact Hnone | split].
  - unfold count_unsummarized. now rewrite Hnone.
  - unfold summarizer_pass. rewrite bind_run. cbn [query_db fst snd].
    unfold count_unsummarized. rewrite Hnone. reflexivity.
Qed.

End Summarizer.

(** Two greetings get summarized; nothing is left for a second pass. *)
Lemma summarize_leaves_nothing_uncovered_witness :
  let s' := snd (_summarize (lit "s1") greeted) in
  length (summaries (db s')) = 1%nat /\
  covered_up_to (lit "s1") (db s') = 2 /\
  get_unsummarized_messages (lit "s1") (db s') = [] /\
  snd (summarizer_pass (lit "s1") s') = s'.
Proof.
  intros s'.
  assert (Hkeyed : messages_keyed (db greeted)).
  { apply keyed_after_save, keyed_after_save. split; constructor. }
  assert (Hchanged : summaries (db s') <> summaries (db greeted)).
  { vm_compute. discriminate. }
  destruct (summarize_leaves_nothing_uncovered (lit "s1") greeted Hkeyed Hchanged)
    as (Hnone & _ & Hpass).
  split; [reflexivity | split; [reflexivity | split; [exact Hnone | exact Hpass]]].
Defined.

(** ** The active task and its tracker (memory.py, workers.py) *)

Section TaskTracker.
Context {W : Type} `{Generator W}.

Lemma filter_all_false {A} (p : A -> bool) (l : list A) :
  Forall (fun x => p x = false) l -> List.filter p l = [].
Proof.
  intros Hall. apply filter_none. rewrite Forall_forall in Hall.
  intros x Hx. apply Hall, list_elem_of_In, Hx.
Qed.

(** X6: on a keyed table with at most one active task,
    upsert_task(title, "active", context) makes the task that
    get_active_task returns carry that title and context; it keeps the id of
    the task that was active, or takes the next id if none was. *)
Theorem upserted_task_is_the_active_task :
  forall (st : Store) (title : str) (context_json : option str),
    tasks_keyed st -> (count_active st <= 1)%nat ->
    exists t,
      get_active_task (upsert_task title (lit "active") context_json st) = Some t /\
      task_title t = title /\ task_context_json t = context_json /\
      task_updated_at t = now st /\
      task_id t = match first_active (tasks st) with
                  | Some existing => task_id existing
                  | None => task_seq st + 1
                  end.
Proof.
  intros st title ctx [Hnodup _] Hcount. unfold count_active in Hcount.
  unfold get_active_task.
  destruct (first_active (tasks st)) as [existing|] eqn:Hfind.
  - destruct (upsert_in_place title (lit "active") ctx st existing Hnodup Hfind)
      as (before & after & Hts & Hbefore & Hact & Hts').
    rewrite Hts'. rewrite Hts in Hcount.
    rewrite List.filter_app in Hcount |- *. cbn [List.filter] in Hcount |- *.
    rewrite Hact in Hcount. rewrite (filter_all_false _ _ Hbefore) in Hcount |- *.
    cbn [app length] in Hcount |- *.
    change (is_active (mkTask (task_id existing) (now st) title (lit "active") ctx))
      with true.
    destruct (List.filter is_active after); [|cbn in Hcount; lia].
    eexists. repeat split.
  - unfold upsert_task. rewrite Hfind. cbn [tasks with_tasks].
    rewrite List.filter_app, (first_active_none _ Hfind). cbn [List.filter app].
    change (is_active (mkTask (task_seq st + 1) (now st) title (lit "active") ctx))
      with true.
    eexists. repeat split.
Qed.

(** X7: after complete_active_task no task is active, whatever the table
    held, and no task is added, removed or renamed. *)
Theorem complete_leaves_no_active_task :
  forall st : Store,
    get_active_task (complete_active_task st) = None /\
    map task_id (tasks (complete_active_task st)) = map task_id (tasks st) /\
    map task_title (tasks (complete_active_task st)) = map task_title (tasks st).
Proof.
  intros st. unfold get_active_task, complete_active_task. cbn [tasks with_tasks].
  generalize (now st) as moment. intros moment. split; [|split].
  - assert (Hnone : List.filter is_active
                      (map (fun t => if is_active t
                                     then mkTask (task_id t) moment (task_title t)
                                                 (lit "done") (task_context_json t)
                                     else t) (tasks st)) = []).
    { apply filter_none. intros t (t0 & <- & _)%in_map_iff.
      destruct (is_active t0) eqn:E; [reflexivity | exact E]. }
    now rewrite Hnone.
  - rewrite map_map. apply map_ext. intros t. now destruct (is_active t).
  - rewrite map_map. apply map_ext. intros t. now destruct (is_active t).
Qed.

(** What [_parse_task_result] does to the store: nothing, or one of the two
    task writes followed by a timeline entry. *)
Lemma parse_task_outcome (result : str) (s : State W) :
  let s' := snd (_parse_task_result result s) in
  world s' = world s /\
  (db s' = db s \/
   (exists t, db s' = log_event (lit "task_done") (Some t)
                                (complete_active_task (db s))) \/
   (exists t, t <> [] /\
              db s' = log_event (lit "task_detected") (Some t)
                                (upsert_task t (lit "active") None (db s)))).
Proof.
  unfold _parse_task_result.
  destruct (fold_left read_line _ _) as [task_line status_line].
  destruct (negb (truthy task_line) || _) eqn:Hskip; [split; [reflexivity | now left]|].
  apply orb_false_iff in Hskip as [Htask _].
  destruct (str_eqb status_line (lit "done")).
  - rewrite bind_run. cbn. split; [reflexivity|]. right. left. now eexists.
  - destruct (str_eqb status_line (lit "active")).
    + rewrite bind_run. cbn. split; [reflexivity|]. right. right.
      exists task_line. split; [|reflexivity].
      intros ->. discriminate.
    + split; [reflexivity | now left].
Qed.

(** X8: whatever the model answers, one check of the task tracker keeps
    the task table keyed and leaves at most one active task, and it never
    touches the messages. *)
Theorem task_tracker_keeps_single_active :
  forall (user_msg assistant_msg : str) (s : State W),
    tasks_keyed (db s) -> (count_active (db s) <= 1)%nat ->
    let s' := snd (check user_msg assistant_msg s) in
    tasks_keyed (db s') /\ (count_active (db s') <= 1)%nat /\
    messages (db s') = messages (db s).
Proof.
  intros user_msg assistant_msg s Hkeyed Hcount s'. subst s'.
  unfold check. rewrite bind_run.
  match goal with
  | |- context [_quick_generate ?p s] =>
      pose proof (quick_generate_tables p s) as Htab;
      set (s1 := snd (_quick_generate p s)) in *;
      set (reply := fst (_quick_generate p s))
  end.
  destruct Htab as (Hmsgs & _ & _ & _ & Htasks & Hseq & _).
  assert (Hkeyed1 : tasks_keyed (db s1)).
  { unfold tasks_keyed. now rewrite Htasks, Hseq. }
  assert (Hcount1 : (count_active (db s1) <= 1)%nat).
  { unfold count_active. now rewrite Htasks. }
  destruct (parse_task_outcome reply s1) as [_ [-> | [[t ->] | (t & _ & ->)]]].
  - now rewrite Hmsgs.
  - destruct (complete_keeps_single (db s1) Hkeyed1) as [Hk Hc].
    repeat split; try apply Hk. 
    + unfold count_active in *. cbn [tasks log_event with_timeline]. lia.
    + cbn. exact Hmsgs.
  - destruct (upsert_keeps_single t (lit "active") None (db s1) Hkeyed1 Hcount1)
      as [Hk Hc].
    repeat split; try apply Hk.
    + exact Hc.
    + cbn [messages log_event with_timeline]. unfold upsert_task.
      destruct (first_active (tasks (db s1))); cbn; exact Hmsgs.
Qed.

End TaskTracker.

(** Retitling the active task of a table that also holds a finished one. *)
Lemma upserted_task_is_the_active_task_witness :
  let st := run_task_ops [Upsert (lit "draft") (lit "active") None; Complete;
                          Upsert (lit "ship") (lit "active") None] empty_store in
  (task_title <$> get_active_task st) = Some (lit "ship") /\
  (task_title <$> get_active_task (upsert_task (lit "ship it") (lit "active") None st))
    = Some (lit "ship it") /\
  (task_id <$> get_active_task (upsert_task (lit "ship it") (lit "active") None st))
    = Some 2.
Proof.
  intros st.
  assert (Hkeyed : tasks_keyed st).
  { split; vm_compute.
    - repeat constructor; rewrite ?list_elem_of_In; cbn; intuition discriminate.
    - repeat constructor; discriminate. }
  assert (Hcount : (count_active st <= 1)%nat) by (vm_compute; lia).
  destruct (upserted_task_is_the_active_task st (lit "ship it") None Hkeyed Hcount)
    as (t & Hget & Htitle & _ & _ & Hid).
  split; [reflexivity|]. rewrite Hget. cbn. rewrite Htitle, Hid. split; reflexivity.
Defined.

(** The tracker reads [Task: write the parser] and [status: ACTIVE] and
    makes that the one active task. *)
Lemma task_tracker_keeps_single_active_witness :
  let s' := snd (check (lit "let us write a parser") (lit "sure") greeted) in
  (task_title <$> get_active_task (db s')) = Some (lit "write the parser") /\
  (count_active (db s') <= 1)%nat.
Proof.
  intros s'. split; [vm_compute; reflexivity|].
  assert (Hkeyed : tasks_keyed (db greeted)) by (split; constructor).
  assert (Hcount : (count_active (db greeted) <= 1)%nat) by (vm_compute; lia).
  apply (task_tracker_keeps_single_active (lit "let us write a parser") (lit "sure")
           greeted Hkeyed Hcount).
Defined.

(** ** More on the sanitizer and the profile (identity.py) *)

Section IdentityFacts.

(** Decides membership facts about literal strings. *)
Ltac literal_facts :=
  cbv; repeat (intros [] || intro); intuition (try discriminate; try congruence).

Lemma replace_from_absent (old new : str) :
  forall fuel s,
    contains old s = false -> replace_from fuel old new s = s.
Proof.
  induction fuel as [|fuel IH]; intros s Hclean; cbn [replace_from]; [reflexivity|].
  destruct (strip_prefix old s) as [rest|] eqn:Hstrip.
  - apply strip_prefix_spec in Hstrip. subst s.
    apply contains_here in Hclean. now rewrite startswith_app in Hclean.
  - destruct s as [|c s]; [reflexivity|]. f_equal. apply IH.
    cbn [contains] in Hclean. now apply orb_false_iff in Hclean.
Qed.

(** [replace] leaves a text without [old] alone. *)
Lemma replace_absent (o : char) (old' new s : str) :
  contains (o :: old') s = false -> replace (o :: old') new s = s.
Proof. intros Hclean. unfold replace. now apply replace_from_absent. Qed.

Lemma sanitize_clean_text (text : str) :
  contains (lit "{") text = false -> contains (lit "}") text = false ->
  contains (lit "<tool") text = false -> contains (lit "</tool") text = false ->
  _sanitize_for_prompt text =
  if len text >? 2000 then slice_to 2000 text ++ lit "..." else text.
Proof.
  intros Ha Hb Hc Hd. unfold _sanitize_for_prompt.
  destruct text as [|c text]; [reflexivity|]. cbn [truthy negb].
  rewrite (replace_absent 123%N [] [] _ Ha
           : replace (lit "{") [] (c :: text) = _).
  rewrite (replace_absent 125%N [] [] _ Hb
           : replace (lit "}") [] (c :: text) = _).
  rewrite (replace_absent 60%N (lit "tool") (lit "&lt;tool") _ Hc
           : replace (lit "<tool") (lit "&lt;tool") (c :: text) = _).
  rewrite (replace_absent 60%N (lit "/tool") (lit "&lt;/tool") _ Hd
           : replace (lit "</tool") (lit "&lt;/tool") (c :: text) = _).
  reflexivity.
Qed.

(** X9: a text of at most 2,000 characters without braces and without
    "<tool" or "</tool" passes through the sanitizer unchanged. *)
Theorem sanitize_for_prompt_keeps_clean_text :
  forall text : str,
    len text <= 2000 ->
    contains (lit "{") text = false -> contains (lit "}") text = false ->
    contains (lit "<tool") text = false -> contains (lit "</tool") text = false ->
    _sanitize_for_prompt text = text.
Proof.
  intros text Hlen Ha Hb Hc Hd. rewrite sanitize_clean_text by assumption.
  destruct (Z.gtb_spec (len text) 2000); [lia | reflexivity].
Qed.

(** X10: sanitizing twice is sanitizing once: text that has been through
    the sanitizer, cut and marked or not, comes out of it unchanged. *)
Theorem sanitize_for_prompt_idempotent :
  forall text : str,
    _sanitize_for_prompt (_sanitize_for_prompt text) = _sanitize_for_prompt text.
Proof.
  intros text. destruct text as [|c text]; [reflexivity|].
  destruct (sanitize_replacements_clean (c :: text)) as (Ha & Hb & Hc & Hd).
  cbv zeta in Ha, Hb, Hc, Hd.
  set (cleaned := replace (lit "</tool") _ _) in *.
  assert (Hout : _sanitize_for_prompt (c :: text)
                 = if len cleaned >? 2000
                   then slice_to 2000 cleaned ++ lit "..." else cleaned)
    by reflexivity.
  rewrite Hout. clear Hout.
  destruct (Z.gtb_spec (len cleaned) 2000) as [Hlong|Hshort].
  - rewrite sanitize_clean_text.
    + unfold slice_to, len in *.
      assert (Hcut : length (firstn 2000 cleaned) = 2000%nat).
      { rewrite length_firstn. lia. }
      rewrite length_app, Hcut.
      change (length (lit "...")) with 3%nat.
      destruct (Z.gtb_spec (Z.of_nat (2000 + 3)) 2000); [|lia].
      f_equal. rewrite firstn_app, Hcut, Nat.sub_diag. cbn [firstn].
      rewrite app_nil_r. rewrite firstn_all2; [reflexivity | lia].
    + apply (contains_truncated 123%N [] (lit "...")); auto; literal_facts.
    + apply (contains_truncated 125%N [] (lit "...")); auto; literal_facts.
    + apply (contains_truncated 60%N (lit "tool") (lit "...")); auto; literal_facts.
    + apply (contains_truncated 60%N (lit "/tool") (lit "...")); auto; literal_facts.
  - rewrite sanitize_clean_text by assumption.
    destruct (Z.gtb_spec (len cleaned) 2000); [lia | reflexivity].
Qed.

End IdentityFacts.

(** A short profile line goes through untouched. *)
Lemma sanitize_for_prompt_keeps_clean_text_witness :
  _sanitize_for_prompt (lit "name: Alex, likes <b>tools</b>")
    = lit "name: Alex, likes <b>tools</b>".
Proof.
  apply sanitize_for_prompt_keeps_clean_text; vm_compute; try reflexivity.
  discriminate.
Defined.

Section ProfileStore.

(** X11: after save_fact a fact is stored under the key with a confidence
    that is at least the one offered and at least the one stored before, so
    the stored confidence never goes down; facts under other keys are not
    touched. *)
Theorem save_fact_never_lowers_confidence :
  forall (st : Store) (category key value : str) (confidence : Q)
         (source : option str),
    let st' := save_fact category key value confidence source st in
    (exists f,
       profile st' !! (category, key) = Some f /\
       (confidence <= fact_confidence f)%Q /\
       (forall f0, profile st !! (category, key) = Some f0 ->
                   (fact_confidence f0 <= fact_confidence f)%Q)) /\
    (forall k, k <> (category, key) -> profile st' !! k = profile st !! k).
Proof.
  intros st category key value confidence source st'. subst st'. split.
  - unfold save_fact.
    destruct (profile st !! (category, key)) as [existing|] eqn:Hex.
    + destruct (conf_ge confidence (fact_confidence existing)) eqn:Hge.
      * cbn [profile with_profile]. rewrite lookup_insert_eq.
        eexists. split; [reflexivity|]. cbn. split; [apply Qle_refl|].
        intros f0 [= <-]. now apply conf_ge_true.
      * exists existing. split; [exact Hex|]. apply conf_ge_false in Hge.
        split; [now apply Qlt_le_weak|]. intros f0 [= <-]. apply Qle_refl.
    + cbn [profile with_profile]. rewrite lookup_insert_eq.
      eexists. split; [reflexivity|]. cbn. split; [apply Qle_refl | discriminate].
  - intros k Hk. now apply save_fact_other.
Qed.

(** X12: forget_fact removes the fact and nothing else, and a fact saved
    after it is stored whatever its confidence; clear_profile removes every
    fact. *)
Theorem forgotten_fact_can_be_relearned :
  forall (st : Store) (category key value : str) (confidence : Q)
         (source : option str),
    stored_value category key (forget_fact category key st) = None /\
    (forall k, k <> (category, key) ->
       profile (forget_fact category key st) !! k = profile st !! k) /\
    (let st' := save_fact category key value confidence source
                          (forget_fact category key st) in
     stored_value category key st' = Some value /\
     stored_confidence category key st' = Some confidence) /\
    (forall k, profile (clear_profile st) !! k = None).
Proof.
  intros st category key value confidence source.
  assert (Hgone : profile (forget_fact category key st) !! (category, key) = None).
  { unfold forget_fact. cbn [profile with_profile]. apply lookup_delete_eq. }
  split; [|split; [|split; [split|]]].
  - unfold stored_value. now rewrite Hgone.
  - intros k Hk. unfold forget_fact. cbn [profile with_profile].
    now apply lookup_delete_ne.
  - unfold stored_value. now rewrite (save_fact_fresh _ _ _ _ _ _ Hgone).
  - unfold stored_confidence. now rewrite (save_fact_fresh _ _ _ _ _ _ Hgone).
  - intros k. unfold clear_profile. cbn [profile with_profile]. apply lookup_empty.
Qed.

(** X13: the handoff saved for a session (of non-empty id) is the one
    get_latest_handoff returns for it; the latest handoff of any other
    session is unchanged; and the briefing built for the session ends with
    the sanitized text of that handoff. *)
Theorem latest_handoff_of_session :
  forall (st : Store) (from_model handoff_text session_id : str),
    truthy session_id = true ->
    let st' := save_handoff from_model handoff_text (Some session_id) st in
    get_latest_handoff (Some session_id) st'
      = Some (mkHandoff (ho_seq st + 1) from_model handoff_text (Some session_id)) /\
    (forall other, other <> session_id -> truthy other = true ->
       get_latest_handoff (Some other) st' = get_latest_handoff (Some other) st) /\
    (forall P mode, exists base,
       build_identity P mode (Some session_id) st'
         = base ++ lit ")]: " ++ _sanitize_for_prompt handoff_text).
Proof.
  intros st from_model handoff_text session_id Hsid st'.
  assert (Hlatest : get_latest_handoff (Some session_id) st'
            = Some (mkHandoff (ho_seq st + 1) from_model handoff_text (Some session_id))).
  { subst st'. unfold get_latest_handoff, save_handoff. rewrite Hsid.
    cbn [handoffs with_handoffs]. rewrite List.filter_app.
    cbn [List.filter same_session ho_session].
    rewrite str_eqb_refl. apply last_snoc. }
  split; [exact Hlatest | split].
  - intros other Hother Htruthy. subst st'. unfold get_latest_handoff, save_handoff.
    rewrite Htruthy. cbn [handoffs with_handoffs]. rewrite List.filter_app.
    cbn [List.filter same_session ho_session].
    apply not_eq_sym, str_eqb_neq in Hother. rewrite Hother. now rewrite app_nil_r.
  - intros P mode. unfold build_identity. rewrite Hlatest. cbn [ho_text ho_from_model].
    eexists. rewrite !app_assoc. reflexivity.
Qed.

End ProfileStore.

(** A handoff with tool markup reaches the briefing defused. *)
Lemma latest_handoff_of_session_witness :
  let st' := save_handoff (lit "beast") (lit "ran <tool name=x>") (Some (lit "s1"))
                          empty_store in
  (ho_text <$> get_latest_handoff (Some (lit "s1")) st') = Some (lit "ran <tool name=x>") /\
  get_latest_handoff (Some (lit "s2")) st' = None /\
  exists base,
    build_identity plain_prompts (lit "code") (Some (lit "s1")) st'
      = base ++ lit ")]: " ++ lit "ran &lt;tool name=x>".
Proof.
  intros st'.
  destruct (latest_handoff_of_session empty_store (lit "beast") (lit "ran <tool name=x>")
              (lit "s1") eq_refl) as (Hlatest & Hothers & Hbrief).
  fold st' in Hlatest, Hothers, Hbrief. split; [now rewrite Hlatest | split].
  - rewrite Hothers; [reflexivity | | reflexivity].
    intros Heq. vm_compute in Heq. discriminate.
  - destruct (Hbrief plain_prompts (lit "code")) as [base Hbase].
    exists base. rewrite Hbase. reflexivity.
Defined.

(** ** The sandbox seen from the tools (tools.py) *)

Section SandboxTools.
Context {FS : Type} `{FileSystem FS}.

(** What [_validate_path] accepts and what it answers otherwise. *)
Lemma validate_path_outcome :
  forall (path : str) (allow_read_only : bool) (fs : FS),
    let resolved := realpath fs (expanduser path) in
    (forall r,
       _validate_path path allow_read_only fs = inl r <->
       r = resolved /\ in_subtree _HOME_DIR resolved /\
       (allow_read_only = false ->
        forall denied, In denied _DENIED_PATHS -> ~ in_subtree denied resolved)) /\
    (forall e, _validate_path path allow_read_only fs = inr e -> is_denial e = true).
Proof.
  intros path ro fs resolved. unfold _validate_path. fold resolved.
  destruct (under _HOME_DIR resolved) eqn:Hhome; cbn [negb].
  - apply under_spec in Hhome.
    destruct ro; cbn [negb].
    + split; [|discriminate]. intros r. split.
      * intros [= <-]. repeat split; auto. discriminate.
      * now intros (-> & _).
    + destruct (List.find _ _DENIED_PATHS) as [d|] eqn:Hfind.
      * split; [|intros e [= <-]; reflexivity]. intros r. split; [discriminate|].
        intros (_ & _ & Hfree). apply find_some in Hfind as [Hin Hunder].
        apply under_spec in Hunder. now apply (Hfree eq_refl d) in Hunder.
      * split; [|discriminate]. intros r. split.
        -- intros [= <-]. repeat split; auto. intros _ d Hd Hsub%under_spec.
           apply (find_none _ _ Hfind) in Hd. cbn in Hd. congruence.
        -- now intros (-> & _).
  - split; [|intros e [= <-]; reflexivity]. intros r. split; [discriminate|].
    intros (_ & Hsub%under_spec & _). congruence.
Qed.

(** X14: _validate_path accepts a path exactly when it resolves to the home
    directory or below it and, unless the caller only reads, to none of the
    denied subtrees; what it returns then is the resolved path, and every
    refusal begins "Access denied". *)
Theorem validate_path_accepts_exactly_confined :
  forall (path : str) (allow_read_only : bool) (fs : FS),
    let resolved := realpath fs (expanduser path) in
    (forall r,
       _validate_path path allow_read_only fs = inl r <->
       r = resolved /\ in_subtree _HOME_DIR resolved /\
       (allow_read_only = false ->
        forall denied, In denied _DENIED_PATHS -> ~ in_subtree denied resolved)) /\
    (forall e, _validate_path path allow_read_only fs = inr e -> is_denial e = true).
Proof. exact validate_path_outcome. Qed.

(** X15: tool_read_file refuses a path outside the home directory without
    touching the file system, but not a path in a denied subtree; a file it
    reads comes back whole if it has at most 10,000 characters and otherwise
    as its first 10,000 characters and a marker, 10,016 characters in all. *)
#[warnings="-abstract-large-number"]
Theorem read_file_confined_and_capped :
  forall (args : str) (fs : FS),
    let resolved := realpath fs (expanduser (strip args)) in
    (~ in_subtree _HOME_DIR resolved ->
     is_denial (fst (tool_read_file args fs)) = true /\
     snd (tool_read_file args fs) = fs) /\
    (in_subtree _HOME_DIR resolved -> isfile fs resolved = true ->
     forall content fs1,
       open_read resolved fs = (inl content, fs1) ->
       snd (tool_read_file args fs) = fs1 /\
       (len content <= 10000 -> fst (tool_read_file args fs) = content) /\
       (10000 < len content ->
        fst (tool_read_file args fs)
          = firstn 10000 content ++ nl ++ lit "... (truncated)" /\
        len (fst (tool_read_file args fs)) = 10016)).
Proof.
  intros args fs resolved.
  destruct (validate_path_outcome (strip args) true fs)
    as [Hok Hdenied].
  fold resolved in Hok. unfold tool_read_file. split.
  - intros Hout. destruct (_validate_path (strip args) true fs) as [r|e] eqn:Hval.
    + destruct (proj1 (Hok r) eq_refl) as (_ & Hsub & _). contradiction.
    + split; [exact (Hdenied e eq_refl) | reflexivity].
  - intros Hin Hfile content fs1 Hread.
    assert (Hval : _validate_path (strip args) true fs = inl resolved).
    { apply Hok. repeat split; auto. discriminate. }
    rewrite Hval, Hfile. cbn [negb]. rewrite Hread. cbn [fst snd].
    split; [reflexivity | split].
    + intros Hshort. destruct (Z.gtb_spec (len content) 10000); [lia | reflexivity].
    + intros Hlong. destruct (Z.gtb_spec (len content) 10000); [|lia].
      split; [reflexivity|]. unfold len, slice_to in *.
      rewrite !length_app, length_firstn.
      change (length nl) with 1%nat.
      change (length (lit "... (truncated)")) with 15%nat.
      set (cap := Init.Nat.of_num_uint _) in *. assert (Z.of_nat cap = 10000) by reflexivity.
      lia.
Qed.

Lemma cut_spec (sep : str) :
  forall s a b,
    cut sep s = Some (a, b) ->
    s = a ++ sep ++ b /\
    (forall a1 a2, a = a1 ++ a2 -> a2 <> [] ->
                   startswith sep (a2 ++ sep ++ b) = false).
Proof.
  induction s as [|c s IH]; intros a b; cbn [cut].
  - destruct (strip_prefix sep []) as [rest|] eqn:Hstrip; [|discriminate].
    intros [= <- <-]. apply strip_prefix_spec in Hstrip. split; [exact Hstrip|].
    intros [|x a1] a2 Heq Hne; [cbn in Heq; congruence | discriminate].
  - destruct (strip_prefix sep (c :: s)) as [rest|] eqn:Hstrip.
    + intros [= <- <-]. apply strip_prefix_spec in Hstrip. split; [exact Hstrip|].
      intros [|x a1] a2 Heq Hne; [cbn in Heq; congruence | discriminate].
    + destruct (cut sep s) as [[a' b']|] eqn:Hcut; [|discriminate].
      intros [= <- <-]. destruct (IH a' b' eq_refl) as [Hs Hfirst].
      split; [cbn; now f_equal|].
      intros [|x a1] a2 Heq Hne.
      * cbn in Heq. subst a2. cbn [app]. rewrite <- Hs.
        now apply strip_prefix_none.
      * injection Heq as _ Heq. now apply (Hfirst a1 a2).
Qed.

Lemma cut_of_contains (sep : str) :
  forall s, contains sep s = true -> exists a b, cut sep s = Some (a, b).
Proof.
  induction s as [|c s IH]; cbn [contains cut]; intros Hin.
  - rewrite orb_false_r in Hin.
    destruct (strip_prefix sep []) as [rest|] eqn:Hstrip; [now eexists; eexists|].
    apply strip_prefix_none in Hstrip. congruence.
  - destruct (strip_prefix sep (c :: s)) as [rest|] eqn:Hstrip;
      [now eexists; eexists|].
    apply strip_prefix_none in Hstrip. rewrite Hstrip in Hin. cbn in Hin.
    destruct (IH Hin) as (a & b & ->). now eexists; eexists.
Qed.

(** X16: on a file that passes the sandbox and can be read, tool_edit_file
    writes nothing when the needle is absent, and otherwise writes the
    content with the first occurrence of the needle, and only that one,
    replaced. *)
Theorem edit_file_replaces_first_occurrence :
  forall (args line0 old new : str) (more : list str) (fs fs1 : FS)
         (path content : str),
    split nl 2 (strip args) = line0 :: old :: new :: more ->
    _validate_path (strip line0) false fs = inl path ->
    isfile fs path = true ->
    open_read path fs = (inl content, fs1) ->
    (contains old content = false ->
     tool_edit_file args fs = (lit "String to replace not found in file.", fs1)) /\
    (contains old content = true ->
     exists before after,
       content = before ++ old ++ after /\
       (forall b1 b2, before = b1 ++ b2 -> b2 <> [] ->
                      startswith old (b2 ++ old ++ after) = false) /\
       snd (tool_edit_file args fs)
         = snd (open_write path (before ++ new ++ after) fs1) /\
       fst (tool_edit_file args fs)
         = match fst (open_write path (before ++ new ++ after) fs1) with
           | Some e => lit "Error editing file: " ++ e
           | None => lit "Edited " ++ path
           end).
Proof.
  intros args line0 old new more fs fs1 path content Hsplit Hval Hfile Hread.
  unfold tool_edit_file. rewrite Hsplit, Hval, Hfile. cbn [negb]. rewrite Hread.
  split; intros Hneedle; rewrite Hneedle; cbn [negb]; [reflexivity|].
  destruct (cut_of_contains old content Hneedle) as (before & after & Hcut).
  destruct (cut_spec old content before after Hcut) as [Hcontent Hfirst].
  exists before, after. unfold replace_first. rewrite Hcut.
  destruct (open_write path (before ++ new ++ after) fs1) as [[e|] fs2];
    repeat split; auto.
Qed.

End SandboxTools.

(** Editing a note: only the first "cat" becomes "dog". *)
Lemma edit_file_replaces_first_occurrence_witness :
  let fs := [(lit "/home/bolt/note", lit "a cat and a cat")] in
  let args := lit "~/note" ++ nl ++ lit "cat" ++ nl ++ lit "dog" in
  (exists before after,
     lit "a cat and a cat" = before ++ lit "cat" ++ after /\
     startswith (lit "cat") (before ++ lit "cat" ++ after) = false /\
     snd (tool_edit_file args fs)
       = (lit "/home/bolt/note", before ++ lit "dog" ++ after) :: fs) /\
  file_lookup (snd (tool_edit_file args fs)) (lit "/home/bolt/note")
    = Some (lit "a dog and a cat").
Proof.
  intros fs args. split; [|vm_compute; reflexivity].
  destruct (edit_file_replaces_first_occurrence args (lit "~/note") (lit "cat")
              (lit "dog") [] fs fs (lit "/home/bolt/note") (lit "a cat and a cat"))
    as [_ Hfound]; try (vm_compute; reflexivity).
  destruct (Hfound eq_refl) as (before & after & Hcontent & Hfirst & Hfs & _).
  exists before, after. split; [exact Hcontent | split; [|exact Hfs]].
  destruct before as [|c before]; [vm_compute in Hcontent; discriminate|].
  apply (Hfirst [] (c :: before)); [reflexivity | discriminate].
Defined.

(** A key file may be read, though not written, and a file outside the
    home directory may not be read. *)
Lemma read_file_confined_and_capped_witness :
  let fs := [(lit "/home/bolt/.ssh/id", lit "KEY"); (lit "/etc/passwd", lit "root")] in
  fst (tool_read_file (lit " ~/.ssh/id ") fs) = lit "KEY" /\
  is_denial (fst (tool_write_file (lit "~/.ssh/id" ++ nl ++ lit "x") fs)) = true /\
  is_denial (fst (tool_read_file (lit "/etc/passwd") fs)) = true.
Proof.
  intros fs.
  destruct (read_file_confined_and_capped (lit " ~/.ssh/id ") fs) as [_ Hin].
  destruct (read_file_confined_and_capped (lit "/etc/passwd") fs) as [Hout _].
  split; [|split].
  - apply (Hin (or_intror (ex_intro _ (lit ".ssh/id") eq_refl)) eq_refl
               (lit "KEY") fs eq_refl).
    vm_compute. discriminate.
  - vm_compute. reflexivity.
  - apply Hout. intros [Heq | [rest Heq]]; vm_compute in Heq; discriminate.
Defined.

(** ** Commands and scripts (tools.py) *)

Section SubprocessTools.
Context {W : Type} `{Processes W}.

Lemma lstrip_length (s : str) : (length (lstrip s) <= length s)%nat.
Proof.
  destruct (lstrip_suffix s) as [dropped Hsplit].
  rewrite Hsplit at 2. rewrite length_app. lia.
Qed.

Lemma strip_length (s : str) : (length (strip s) <= length s)%nat.
Proof.
  unfold strip, rstrip. rewrite length_rev.
  etransitivity; [apply lstrip_length|]. rewrite length_rev. apply lstrip_length.
Qed.

Lemma render_output_capped (stdout stderr : str) (returncode : Z) :
  len (render_output stdout stderr returncode) <= 8016.
Proof.
  unfold render_output.
  match goal with
  | |- context [if len ?o >? 8000 then _ else _] => generalize o
  end.
  intros output. unfold len.
  match goal with |- Z.of_nat (length (strip ?s)) <= _ => pose proof (strip_length s) as Hstrip end.
  destruct (Z.gtb_spec (Z.of_nat (length output)) 8000) as [Hlong|Hshort].
  - unfold slice_to in *. rewrite !length_app, length_firstn in Hstrip.
    change (length nl) with 1%nat in Hstrip.
    change (length (lit "... (truncated)")) with 15%nat in Hstrip.
    set (cap := Init.Nat.of_num_uint _) in *.
    assert (Z.of_nat cap = 8000) by reflexivity. clearbody cap. lia.
  - lia.
Qed.

Lemma blocked_literals_short :
  Forall (fun blocked => (length blocked <= 14)%nat) _BLOCKED_SHELL.
Proof. repeat constructor; vm_compute; lia. Qed.

(** X17: a command whose stripped, lower-cased text contains one of the
    blocked literals never reaches the shell: tool_shell leaves the world as
    it found it and answers "Blocked for safety", naming a blocked literal
    that the command contains. *)
Theorem shell_blocklist_stops_command :
  forall (args : str) (w : W) (blocked : str),
    truthy (strip args) = true ->
    In blocked _BLOCKED_SHELL ->
    contains blocked (lower_case (strip args)) = true ->
    snd (tool_shell args w) = w /\
    exists named,
      In named _BLOCKED_SHELL /\
      contains named (lower_case (strip args)) = true /\
      fst (tool_shell args w)
        = inl (lit "Blocked for safety: command contains '" ++ strip named ++ lit "'").
Proof.
  intros args w blocked Hargs Hin Hfound. unfold tool_shell.
  rewrite Hargs. cbn [negb].
  destruct (List.find _ _BLOCKED_SHELL) as [named|] eqn:Hfind.
  - apply find_some in Hfind as [Hnamed Hhit]. split; [reflexivity|].
    exists named. auto.
  - apply (find_none _ _ Hfind) in Hin. cbn in Hin. congruence.
Qed.

(** X18: whatever the process prints, a reply of tool_shell or
    tool_python_exec has at most 8,016 characters: 8,000 of output and the
    truncation marker. *)
Theorem subprocess_tools_output_capped :
  forall (args : str) (w : W),
    match fst (tool_shell args w) with
    | inl reply => len reply <= 8016
    | inr _ => True
    end /\
    match fst (tool_python_exec args w) with
    | inl reply => len reply <= 8016
    | inr _ => True
    end.
Proof.
  intros args w. split.
  - unfold tool_shell. destruct (truthy (strip args)); cbn [negb fst];
      [|vm_compute; discriminate].
    destruct (List.find _ _BLOCKED_SHELL) as [named|] eqn:Hfind.
    + apply find_some in Hfind as [Hnamed _].
      pose proof (proj1 (List.Forall_forall _ _) blocked_literals_short _ Hnamed)
        as Hshort. cbn beta in Hshort.
      pose proof (strip_length named). cbn [fst]. unfold len.
      rewrite !length_app.
      change (length (lit "Blocked for safety: command contains '")) with 38%nat.
      change (length (lit "'")) with 1%nat. lia.
    + destruct (run_shell (strip args) w) as [[out err rc| |e] w']; cbn [fst].
      * apply render_output_capped.
      * vm_compute. discriminate.
      * exact I.
  - unfold tool_python_exec. destruct (truthy (strip args)); cbn [negb fst];
      [|vm_compute; discriminate].
    destruct (run_python (strip args) w) as [[out err rc| |e] w']; cbn [fst].
    + apply render_output_capped.
    + vm_compute. discriminate.
    + exact I.
Qed.

End SubprocessTools.

(** A command in capitals is stopped just the same, and no process starts. *)
Lemma shell_blocklist_stops_command_witness :
  snd (tool_shell (lit "  SUDO ls ") 0%nat) = 0%nat /\
  snd (tool_shell (lit "ls") 0%nat) = 1%nat.
Proof.
  split.
  - apply (shell_blocklist_stops_command (lit "  SUDO ls ") 0%nat (lit "sudo "));
      [reflexivity | now left | reflexivity].
  - reflexivity.
Defined.

(** ** What the call pattern finds (tools.py) *)

Section CallPattern.

Lemma greedy_plus_sound {R} (cls : char -> bool) (k : str -> str -> option R) :
  forall s taken out,
    greedy_plus cls k taken s = Some out ->
    exists run rest,
      s = run ++ rest /\ run <> [] /\ forallb cls run = true /\
      k (taken ++ run) rest = Some out.
Proof.
  induction s as [|c s IH]; intros taken out; cbn [greedy_plus]; [discriminate|].
  destruct (cls c) eqn:Hc; [|discriminate].
  destruct (greedy_plus cls k (taken ++ [c]) s) as [r|] eqn:Hmore.
  - intros [= <-]. destruct (IH _ _ Hmore) as (run & rest & -> & _ & Hrun & Hk).
    exists (c :: run), rest. rewrite <- app_assoc in Hk. cbn in *.
    rewrite Hc. repeat split; auto; discriminate.
  - intros Hk. exists [c], s. cbn. rewrite Hc. repeat split; auto; discriminate.
Qed.

Lemma lazy_star_sound {R} (cls : char -> bool) (k : str -> str -> option R) :
  forall s taken out,
    lazy_star cls k taken s = Some out ->
    exists run rest,
      s = run ++ rest /\ forallb cls run = true /\
      k (taken ++ run) rest = Some out /\
      (forall run1 run2, run = run1 ++ run2 -> run2 <> [] ->
                         k (taken ++ run1) (run2 ++ rest) = None).
Proof.
  assert (Hstop : forall s taken out,
             k taken s = Some out ->
             exists run rest,
               s = run ++ rest /\ forallb cls run = true /\
               k (taken ++ run) rest = Some out /\
               (forall run1 run2, run = run1 ++ run2 -> run2 <> [] ->
                                  k (taken ++ run1) (run2 ++ rest) = None)).
  { intros s taken out Hk. exists [], s. rewrite app_nil_r.
    repeat split; auto. intros [|x run1] run2 Heq Hne; [|discriminate].
    cbn in Heq. congruence. }
  induction s as [|c s IH]; intros taken out; cbn [lazy_star].
  - destruct (k taken []) as [r|] eqn:Hnow; [|discriminate].
    intros [= <-]. now apply Hstop.
  - destruct (k taken (c :: s)) as [r|] eqn:Hnow.
    + intros [= <-]. now apply Hstop.
    + destruct (cls c) eqn:Hc; [|discriminate]. intros Hmore.
      destruct (IH _ _ Hmore) as (run & rest & -> & Hrun & Hk & Hmin).
      exists (c :: run), rest. rewrite <- app_assoc in Hk. cbn in *.
      rewrite Hc. repeat split; auto.
      intros [|x run1] run2 Heq Hne.
      * cbn in Heq. subst run2. rewrite app_nil_r. exact Hnow.
      * injection Heq as <- Heq. specialize (Hmin run1 run2 Heq Hne).
        now rewrite <- app_assoc in Hmin.
Qed.

Lemma match_here_lit_inv (text : str) (p : list node) (s : str) groups rest :
  match_here (Lit text :: p) s = Some (groups, rest) ->
  exists r, s = text ++ r /\ match_here p r = Some (groups, rest).
Proof.
  cbn [match_here]. destruct (strip_prefix text s) as [r|] eqn:Hstrip; [|discriminate].
  apply strip_prefix_spec in Hstrip. eauto.
Qed.

Lemma match_here_greedy_inv (cls : char -> bool) (capture : bool) (p : list node)
    (s : str) groups rest :
  match_here (Rep GreedyPlus cls capture :: p) s = Some (groups, rest) ->
  exists run r inner,
    s = run ++ r /\ run <> [] /\ forallb cls run = true /\
    match_here p r = Some (inner, rest) /\
    groups = if capture then run :: inner else inner.
Proof.
  cbn [match_here]. intros Hm.
  apply greedy_plus_sound in Hm as (run & r & -> & Hne & Hrun & Hk).
  cbn [app] in Hk.
  destruct (match_here p r) as [[inner remaining]|] eqn:Hp; [|discriminate].
  injection Hk as <- <-. exists run, r, inner. repeat split; auto.
Qed.

Lemma match_here_lazy_inv (cls : char -> bool) (capture : bool) (p : list node)
    (s : str) groups rest :
  match_here (Rep LazyStar cls capture :: p) s = Some (groups, rest) ->
  exists run r inner,
    s = run ++ r /\ forallb cls run = true /\
    match_here p r = Some (inner, rest) /\
    groups = (if capture then run :: inner else inner) /\
    (forall run1 run2, run = run1 ++ run2 -> run2 <> [] ->
                       match_here p (run2 ++ r) = None).
Proof.
  cbn [match_here]. intros Hm.
  apply lazy_star_sound in Hm as (run & r & -> & Hrun & Hk & Hmin).
  cbn [app] in Hk. destruct (match_here p r) as [[inner remaining]|] eqn:Hp;
    [|discriminate].
  injection Hk as <- <-. exists run, r, inner. repeat split; auto.
  intros run1 run2 Heq Hne. specialize (Hmin run1 run2 Heq Hne). cbn [app] in Hmin.
  now destruct (match_here p (run2 ++ r)) as [[? ?]|].
Qed.

Lemma contains_split (w s : str) :
  contains w s = true -> exists a b, s = a ++ w ++ b.
Proof.
  intros Hin. destruct (cut_of_contains w s Hin) as (a & b & Hcut).
  exists a, b. now apply cut_spec in Hcut.
Qed.

Lemma pattern_sound (s : str) groups rest :
  match_here pattern s = Some (groups, rest) ->
  exists ws name args,
    groups = [name; args] /\ s = call_text ws name args ++ rest /\
    ws <> [] /\ forallb is_space ws = true /\
    name <> [] /\ ~ In quote name /\
    contains (lit "</tool>") args = false.
Proof.
  unfold pattern. intros Hm.
  apply match_here_lit_inv in Hm as (r1 & -> & Hm).
  apply match_here_greedy_inv in Hm as (ws & r2 & g2 & -> & Hws & Hspace & Hm & ->).
  apply match_here_lit_inv in Hm as (r3 & -> & Hm).
  apply match_here_greedy_inv in Hm as (name & r4 & g4 & -> & Hname & Hquote & Hm & ->).
  apply match_here_lit_inv in Hm as (r5 & -> & Hm).
  apply match_here_lazy_inv in Hm as (args & r6 & g6 & -> & _ & Hm & -> & Hmin).
  pose proof Hm as Hend.
  apply match_here_lit_inv in Hend as (r7 & -> & Hend). cbn in Hend.
  injection Hend as <- <-.
  exists ws, name, args. unfold call_text. repeat split; auto.
  - now rewrite <- !app_assoc.
  - intros Hin. rewrite forallb_forall in Hquote. apply Hquote in Hin.
    now rewrite char_eqb_refl in Hin.
  - destruct (contains (lit "</tool>") args) eqn:Hinside; [|reflexivity].
    apply contains_split in Hinside as (a & b & ->).
    assert (Hne : lit "</tool>" ++ b <> []) by discriminate.
    specialize (Hmin a _ eq_refl Hne).
    rewrite <- app_assoc, match_here_lit in Hmin.
    destruct (strip_prefix (lit "</tool>") _) as [r|] eqn:Hstrip; [discriminate|].
    apply strip_prefix_none in Hstrip. now rewrite startswith_app in Hstrip.
Qed.

Lemma findall_from_sound :
  forall fuel s groups,
    In groups (findall_from fuel pattern s) ->
    exists before at_match rest,
      s = before ++ at_match /\ match_here pattern at_match = Some (groups, rest).
Proof.
  induction fuel as [|fuel IH]; intros s groups; cbn [findall_from]; [intros []|].
  destruct (match_here pattern s) as [[found rest]|] eqn:Hm.
  - intros [<- | Hlater].
    + exists [], s, rest. auto.
    + destruct (IH _ _ Hlater) as (before & at_match & rest' & -> & Hm').
      apply pattern_sound in Hm as (ws & name & args & _ & -> & _).
      exists (call_text ws name args ++ before), at_match, rest'.
      now rewrite <- app_assoc.
  - destruct s as [|c s]; [intros []|]. intros Hlater.
    destruct (IH _ _ Hlater) as (before & at_match & rest' & -> & Hm').
    exists (c :: before), at_match, rest'. auto.
Qed.

Lemma findall_from_plain :
  forall fuel s,
    contains (lit "<tool") s = false -> findall_from fuel pattern s = [].
Proof.
  induction fuel as [|fuel IH]; intros s Hplain; cbn [findall_from]; [reflexivity|].
  destruct (match_here pattern s) as [[found rest]|] eqn:Hm.
  - apply match_here_lit_inv in Hm as (r & -> & _).
    apply contains_here in Hplain. now rewrite startswith_app in Hplain.
  - destruct s as [|c s]; [reflexivity|]. apply IH.
    cbn [contains] in Hplain. now apply orb_false_iff in Hplain.
Qed.

(** X19: every call parse_tool_calls reports is written out in the text:
    the opening tag with white space before the name attribute, a name that
    is not empty and holds no double quote, the arguments, and the first
    closing tag after them, so that the arguments never contain a closing
    tag. *)
Theorem parsed_calls_are_written_in_text :
  forall (text name args : str),
    In (name, args) (fst (parse_tool_calls text)) ->
    (exists before ws after,
       text = before ++ call_text ws name args ++ after /\
       ws <> [] /\ forallb is_space ws = true) /\
    name <> [] /\ ~ In quote name /\
    contains (lit "</tool>") args = false.
Proof.
  intros text name args. unfold parse_tool_calls. cbn [fst].
  intros (groups & Hcall & Hfound)%in_map_iff.
  apply findall_from_sound in Hfound as (before & at_match & rest & -> & Hm).
  apply pattern_sound in Hm
    as (ws & name' & args' & -> & -> & Hws & Hspace & Hname & Hquote & Hargs).
  injection Hcall as <- <-. repeat split; auto.
  exists before, ws, rest. auto.
Qed.

(** X20: a reply without the text of an opening tool tag holds no call, and
    parse_tool_calls hands it back stripped of surrounding white space. *)
Theorem parse_tool_calls_plain_text :
  forall text : str,
    contains (lit "<tool") text = false ->
    parse_tool_calls text = ([], strip text).
Proof.
  intros text Hplain. unfold parse_tool_calls, findall, sub.
  pose proof (findall_from_plain (S (length text)) text Hplain) as Hnone.
  now rewrite Hnone, (sub_without_match pattern [] _ _ Hnone).
Qed.

End CallPattern.

(** The one call of the sample reply, and a reply in plain words. *)
Lemma parsed_calls_are_written_in_text_witness :
  (exists before ws after,
     (calc_reply = before ++ call_text ws (lit "calc") (lit "2+2") ++ after) /\
     (ws <> []) /\ forallb is_space ws = true) /\
  contains (lit "</tool>") (lit "2+2") = false.
Proof.
  destruct (parsed_calls_are_written_in_text calc_reply (lit "calc") (lit "2+2"))
    as (Hwritten & _ & _ & Hargs); [vm_compute; now left|].
  split; assumption.
Defined.

Lemma parse_tool_calls_plain_text_witness :
  parse_tool_calls (lit "  2 < 3, as you know. ") = ([], lit "2 < 3, as you know.").
Proof. apply (parse_tool_calls_plain_text (lit "  2 < 3, as you know. ")). reflexivity. Defined.

(** ** What a turn writes to the messages table (brain.py) *)

Section TurnJournal.
Context {W : Type} `{Runtime W}.

Lemma same_tables_sym (a b : Store) : same_tables a b -> same_tables b a.
Proof. unfold same_tables. intuition congruence. Qed.

Lemma same_tables_trans (a b c : Store) :
  same_tables a b -> same_tables b c -> same_tables a c.
Proof. unfold same_tables. intuition congruence. Qed.

Lemma same_tables_save session_id role content (a b : Store) :
  same_tables a b ->
  same_tables (snd (save_message session_id role content a))
              (snd (save_message session_id role content b)).
Proof.
  unfold same_tables, save_message. cbn. intros (Hm & Hs & Hrest).
  rewrite Hm, Hs. intuition.
Qed.

Lemma same_tables_record session_id entries :
  forall a b,
    same_tables a b ->
    same_tables (record_all session_id entries a) (record_all session_id entries b).
Proof.
  induction entries as [|e entries IH]; intros a b Hab; [exact Hab|].
  cbn [record_all fold_left]. apply IH. now apply same_tables_save.
Qed.

Lemma record_all_app session_id es1 es2 st :
  record_all session_id (es1 ++ es2) st
    = record_all session_id es2 (record_all session_id es1 st).
Proof. apply fold_left_app. Qed.

Lemma appends_ret {A} session_id (a : A) : appends session_id silent (ret a : M W A).
Proof. intros s. exists []. split; [reflexivity | apply same_tables_refl]. Qed.

Lemma appends_weaken {A} session_id (shape shape' : A -> list (str * str) -> Prop)
    (m : M W A) :
  appends session_id shape m ->
  (forall a entries, shape a entries -> shape' a entries) ->
  appends session_id shape' m.
Proof. intros Hm Himpl s. destruct (Hm s) as (entries & Hshape & Hdb). eauto. Qed.

Lemma appends_bind {A B} session_id (m : M W A) (k : A -> M W B)
    (first : A -> list (str * str) -> Prop)
    (second : A -> B -> list (str * str) -> Prop) :
  appends session_id first m ->
  (forall a, appends session_id (second a) (k a)) ->
  appends session_id
          (fun b entries =>
             exists a es1 es2,
               entries = es1 ++ es2 /\ first a es1 /\ second a b es2)
          (bind m k).
Proof.
  intros Hm Hk s. rewrite bind_run.
  destruct (Hm s) as (es1 & Hfirst & Hdb1).
  destruct (Hk (fst (m s)) (snd (m s))) as (es2 & Hsecond & Hdb2).
  exists (es1 ++ es2). split; [now exists (fst (m s)), es1, es2|].
  rewrite record_all_app. eapply same_tables_trans; [exact Hdb2|].
  now apply same_tables_record.
Qed.

Lemma appends_bind_silent {A B} session_id (m : M W A) (k : A -> M W B)
    (shape : B -> list (str * str) -> Prop) :
  appends session_id silent m ->
  (forall a, appends session_id shape (k a)) ->
  appends session_id shape (bind m k).
Proof.
  intros Hm Hk. eapply appends_weaken; [apply (appends_bind _ _ _ _ (fun _ => shape) Hm Hk)|].
  cbn beta. intros b entries (a & es1 & es2 & -> & -> & Hshape). exact Hshape.
Qed.

Lemma appends_on_db_log session_id event details :
  appends session_id silent (log event details : M W unit).
Proof. intros s. exists []. split; [reflexivity | apply same_tables_log]. Qed.

Lemma appends_query_db {A} session_id (f : Store -> A) :
  appends session_id silent (query_db f : M W A).
Proof. intros s. exists []. split; [reflexivity | apply same_tables_refl]. Qed.

Lemma appends_on_world {A} session_id (f : W -> A * W) :
  appends session_id silent (on_world f).
Proof.
  intros s. exists []. split; [reflexivity|]. unfold on_world.
  destruct (f (world s)). apply same_tables_refl.
Qed.

Lemma appends_get_mode session_id : appends session_id silent (get_mode : M W str).
Proof. intros s. exists []. split; [reflexivity | apply same_tables_refl]. Qed.

Lemma appends_count_inference session_id :
  appends session_id silent (count_inference : M W unit).
Proof. intros s. exists []. split; [reflexivity | apply same_tables_refl]. Qed.

Lemma appends_call_back session_id (cb : str -> W -> W) chunk :
  appends session_id silent (call_back cb chunk).
Proof. apply appends_on_world. Qed.

Lemma appends_for_each {A} session_id (xs : list A) (body : A -> M W unit) :
  (forall x, appends session_id silent (body x)) ->
  appends session_id silent (for_each xs body).
Proof.
  intros Hbody. induction xs as [|x xs IH]; cbn [for_each].
  - apply appends_ret.
  - apply appends_bind_silent; auto.
Qed.


Create HintDb journal.

#[local] Hint Resolve appends_ret appends_on_db_log appends_query_db appends_on_world
  appends_get_mode appends_count_inference appends_call_back appends_for_each
  : journal.

(** Steps through a computation that saves no message. *)
Ltac hush :=
  repeat first
    [ apply appends_ret
    | apply appends_bind_silent; [solve [auto with journal] | intros]
    | solve [auto with journal]
    | match goal with
      | |- appends _ _ (if ?c then _ else _) => destruct c
      | |- appends _ _ (match ?o with Some _ => _ | None => _ end) => destruct o
      end ].

Lemma appends_ollama session_id model messages stream :
  appends session_id silent (ollama model messages stream).
Proof. unfold ollama. hush. Qed.

Lemma appends_cloud session_id messages : appends session_id silent (cloud messages).
Proof. unfold cloud. hush. Qed.

#[local] Hint Resolve appends_ollama appends_cloud : journal.

Lemma appends_chat_full session_id model messages :
  appends session_id silent (_chat_full model messages).
Proof. unfold _chat_full. hush. Qed.

#[local] Hint Resolve appends_chat_full : journal.

Lemma appends_classify session_id user_message :
  appends session_id silent (_classify user_message).
Proof. unfold _classify. hush. Qed.

Lemma appends_pick_model session_id category :
  appends session_id silent (_pick_model category).
Proof. unfold _pick_model. hush. Qed.

Lemma appends_execute_tool session_id name args :
  appends session_id silent (execute_tool name args).
Proof. unfold execute_tool. hush. Qed.

Lemma appends_generate_once session_id is_cloud model messages stream_callback loop_num :
  appends session_id silent
          (generate_once is_cloud model messages stream_callback loop_num).
Proof.
  unfold generate_once. destruct is_cloud.
  - apply appends_bind_silent; [auto with journal | intros r].
    apply appends_bind_silent.
    + destruct stream_callback as [cb|]; [|apply appends_ret].
      apply appends_for_each. intros chunk. hush.
    + intros _. hush.
  - destruct stream_callback as [cb|]; [destruct loop_num|]; hush.
Qed.

#[local] Hint Resolve appends_classify appends_pick_model appends_execute_tool
  appends_generate_once : journal.






End TurnJournal.

(** ** Routing stays inside the roster (brain.py) *)

Section RoutingTotal.
Context {W : Type} `{Runtime W}.


(** X23: for every category, even one _classify never returns, and every
    mode, _pick_model returns a key of the model roster, so the lookup of
    the model name cannot fail; it returns the key cloud only for the
    categories cloud and code_beast and only after the cloud answered that
    it is available. *)
Theorem pick_model_returns_roster_key :
  forall (category : str) (s : State W),
    let key := fst (_pick_model category s) in
    (exists name, lookup_model MODELS key = Some name) /\
    (key = lit "cloud" ->
     (category = lit "cloud" \/ category = lit "code_beast") /\
     fst (cloud_is_available (world s)) = true) /\
    inference_calls (snd (_pick_model category s)) = inference_calls s /\
    db (snd (_pick_model category s)) = db s.
Proof.
  intros category s key. subst key. unfold _pick_model, get_mode, on_world, ret.
  rewrite !bind_run. cbn [fst snd].
  destruct (str_eqb (_current_mode s) (lit "companion") &&
            str_eqb category (lit "companion")).
  { cbn [fst snd]. repeat split; [now eexists | discriminate | discriminate]. }
  destruct (str_eqb category (lit "cloud")) eqn:Hcloud;
    [apply str_eqb_eq in Hcloud|];
    (destruct (str_eqb category (lit "code_beast")) eqn:Hbeast;
     [apply str_eqb_eq in Hbeast|]); cbn [orb].
  1-3: rewrite !bind_run; cbn [fst snd];
    destruct (cloud_is_available (world s)) as [[|] w]; cbn [fst snd];
    (repeat split; [now eexists | auto; discriminate ..]).
  cbn [fst snd].
  destruct (str_eqb category (lit "companion"));
    [|destruct (str_eqb category (lit "code_simple"));
      [|destruct (str_eqb category (lit "code_complex"))]];
    (repeat split; [now eexists | discriminate | discriminate]).
Qed.

End RoutingTotal.

(** ** The messages sent to a model (brain.py, cloud.py) *)

Section WireMessages.

Lemma lstrip_blank (s : str) : lstrip s = [] <-> forallb is_space s = true.
Proof.
  induction s as [|c s IH]; cbn; [tauto|].
  destruct (is_space c); cbn; [exact IH | split; discriminate].
Qed.

Lemma strip_blank (s : str) : strip s = [] <-> forallb is_space s = true.
Proof.
  split.
  - unfold strip, rstrip. intros Hnil.
    apply (f_equal (@rev _)) in Hnil. rewrite rev_involutive in Hnil. cbn in Hnil.
    apply lstrip_blank in Hnil.
    pose proof (lstrip_no_lead s) as Hlead.
    destruct (lstrip s) as [|c kept] eqn:Hkept; [now apply lstrip_blank|].
    rewrite forallb_forall in Hnil.
    specialize (Hnil c). rewrite <- in_rev in Hnil. cbn in Hlead.
    rewrite Hnil in Hlead by now left. discriminate.
  - intros Hblank. unfold strip. apply lstrip_blank in Hblank. now rewrite Hblank.
Qed.

Lemma strip_truthy_app (a b : str) :
  truthy (strip a) = true -> truthy (strip (a ++ b)) = true.
Proof.
  intros Ha. destruct (strip (a ++ b)) eqn:Hab; [|reflexivity].
  apply strip_blank in Hab. rewrite forallb_app in Hab.
  apply andb_true_iff in Hab as [Hblank _]. apply strip_blank in Hblank.
  now rewrite Hblank in Ha.
Qed.

Lemma alternates_snoc (clean : list Message) (prev m : Message) :
  alternates (clean ++ [prev]) ->
  (role prev = role m -> role prev = lit "system") ->
  alternates ((clean ++ [prev]) ++ [m]).
Proof.
  intros Hclean Hnew. induction clean as [|a clean IH]; [cbn; auto|].
  destruct clean as [|b clean]; cbn in *; intuition.
Qed.

Lemma alternates_relast (clean : list Message) (prev prev' : Message) :
  alternates (clean ++ [prev]) -> role prev' = role prev ->
  alternates (clean ++ [prev']).
Proof.
  intros Hclean Hrole. induction clean as [|a clean IH]; [exact I|].
  destruct clean as [|b clean]; cbn in *; [rewrite Hrole|]; intuition.
Qed.

Lemma on_wire_choice (r : str) :
  on_wire (if on_wire r then r else lit "user") = true.
Proof. destruct (on_wire r) eqn:Hr; [exact Hr | reflexivity]. Qed.

Lemma clean_step_keeps (clean : list Message) (m : Message) :
  Forall sendable clean /\ alternates clean ->
  Forall sendable (clean_step clean m) /\ alternates (clean_step clean m) /\
  (length (clean_step clean m) <= S (length clean))%nat.
Proof.
  intros [Hsend Halt]. unfold clean_step.
  destruct (negb (truthy (content m)) || negb (truthy (strip (content m)))) eqn:Hblank;
    [auto|].
  apply orb_false_iff in Hblank as [_ Hstrip%negb_false_iff].
  set (r := if on_wire (role m) then role m else lit "user").
  assert (Hnew : sendable (mkMessage r (content m))).
  { split; [apply on_wire_choice | exact Hstrip]. }
  destruct (last clean) as [prev|] eqn:Hlast.
  - apply last_Some in Hlast as [init ->].
    apply Forall_app in Hsend as [Hinit Hprev].
    apply Forall_cons_1 in Hprev as [[Hprole Hpcontent] _].
    destruct (str_eqb (role prev) r && negb (str_eqb r (lit "system"))) eqn:Hmerge.
    + rewrite removelast_last. split; [|split].
      * apply Forall_app. split; [exact Hinit|]. constructor; [|constructor].
        split; [exact Hprole | now apply strip_truthy_app].
      * now apply (alternates_relast init prev).
      * rewrite !length_app. cbn. lia.
    + split; [|split].
      * apply Forall_app. split; [|now constructor].
        apply Forall_app. split; [exact Hinit | now constructor].
      * apply alternates_snoc; [exact Halt|]. cbn [role]. intros Hsame.
        apply andb_false_iff in Hmerge as [Hdiff | Hsys].
        -- apply str_eqb_neq in Hdiff. contradiction.
        -- apply negb_false_iff, str_eqb_eq in Hsys. congruence.
      * rewrite !length_app. cbn. lia.
  - apply last_None in Hlast. subst clean. cbn. repeat split; auto.
Qed.

Lemma clean_fold_keeps (messages : list Message) :
  forall clean,
    Forall sendable clean /\ alternates clean ->
    Forall sendable (fold_left clean_step messages clean) /\
    alternates (fold_left clean_step messages clean) /\
    (length (fold_left clean_step messages clean) <= length clean + length messages)%nat.
Proof.
  induction messages as [|m messages IH]; intros clean Hclean; cbn [fold_left].
  - destruct Hclean. repeat split; auto. cbn. lia.
  - destruct (clean_step_keeps clean m Hclean) as (Hsend & Halt & Hlen).
    destruct (IH _ (conj Hsend Halt)) as (Hsend' & Halt' & Hlen').
    repeat split; auto. cbn [length]. lia.
Qed.

(** X24: the list _ollama_chat posts holds only messages with a role of
    the wire format and a content that is not blank, never two neighbours
    of the same role other than system, and no more messages than it was
    given; the reduced list of the retry is taken from it and has at most
    two messages. *)
Theorem posted_messages_are_normalized :
  forall messages : list Message,
    let clean := clean_messages messages in
    Forall sendable clean /\ alternates clean /\
    (length clean <= length messages)%nat /\
    (length (fallback_messages clean) <= 2)%nat /\
    (forall m, In m (fallback_messages clean) -> In m clean).
Proof.
  intros messages clean.
  destruct (clean_fold_keeps messages [] (conj (List.Forall_nil sendable) I))
    as (Hsend & Halt & Hlen).
  fold (clean_messages messages) in Hsend, Halt, Hlen. fold clean in Hsend, Halt, Hlen.
  repeat split; auto.
  - unfold fallback_messages.
    set (systems := List.filter (fun m => str_eqb (role m) (lit "system")) clean).
    assert (length (firstn 1 systems) <= 1)%nat by (rewrite length_firstn; lia).
    destruct (last _); [rewrite length_app; cbn [length]|]; lia.
  - intros m. unfold fallback_messages.
    set (systems := List.filter (fun m => str_eqb (role m) (lit "system")) clean).
    assert (Hsub : forall x, In x (firstn 1 systems) -> In x clean).
    { intros x Hx. apply (filter_In (fun m => str_eqb (role m) (lit "system"))).
      fold systems. rewrite <- (firstn_skipn 1 systems). apply in_or_app. now left. }
    destruct (last (List.filter _ clean)) as [last_user|] eqn:Hlast.
    + intros [Hsys | [<- | []]]%in_app_or.
      * now apply Hsub.
      * apply last_Some in Hlast as [init Hlast].
        assert (Hin : In last_user (init ++ [last_user])) by (apply in_or_app; cbn; auto).
        rewrite <- Hlast in Hin. apply filter_In in Hin. tauto.
    + apply Hsub.
Qed.

End WireMessages.

(** ** The cloud configuration (cloud.py) *)

Section CloudConfig.

(** X25: _resolve_config gives no configuration when no key is set, or when
    the key has none of the known prefixes and no URL is given.  Otherwise
    the configuration carries the key, a URL or model set in the
    environment wins over the provider's, the format is anthropic exactly
    when the URL in use contains that word or the key begins with sk-ant-,
    and such a key is Anthropic's although it also begins with sk-. *)
Theorem resolve_config_detects_provider :
  forall env : Environ,
    match (match set_value (BOLT_CLOUD_KEY env) with
           | Some k => Some k
           | None => set_value (ANTHROPIC_API_KEY env)
           end) with
    | None => _resolve_config env = None
    | Some key =>
        let known := existsb (fun entry => startswith (fst entry) key) _PROVIDERS in
        (_resolve_config env = None <->
         known = false /\ set_value (BOLT_CLOUD_URL env) = None) /\
        (forall cfg,
           _resolve_config env = Some cfg ->
           provider_key cfg = key /\
           (forall u, set_value (BOLT_CLOUD_URL env) = Some u -> provider_url cfg = u) /\
           (forall m, set_value (BOLT_CLOUD_MODEL env) = Some m ->
                      provider_model cfg = m) /\
           (provider_format cfg = lit "anthropic" <->
            contains (lit "anthropic") (provider_url cfg) = true \/
            startswith (lit "sk-ant-") key = true) /\
           (startswith (lit "sk-ant-") key = true ->
            provider_name cfg = lit "Anthropic") /\
           (known = false -> provider_name cfg = lit "Custom"))
    end.
Proof.
  intros env. unfold _resolve_config.
  destruct (match set_value (BOLT_CLOUD_KEY env) with
            | Some k => Some k
            | None => set_value (ANTHROPIC_API_KEY env)
            end) as [key|]; [|reflexivity].
  unfold _PROVIDERS. cbn [List.find existsb fst].
  destruct (startswith (lit "sk-ant-") key) eqn:Hant;
    [|destruct (startswith (lit "sk-or-") key) eqn:Hor;
      [|destruct (startswith (lit "gsk_") key) eqn:Hgsk;
        [|destruct (startswith (lit "sk-") key) eqn:Hsk]]];
    cbn [orb];
    destruct (set_value (BOLT_CLOUD_URL env)) as [u|];
    destruct (set_value (BOLT_CLOUD_MODEL env)) as [m|];
    (split;
     [ split; [discriminate || reflexivity || tauto | intros [? ?]; discriminate || reflexivity]
     | try discriminate;
       intros cfg [= <-]; cbn [provider_key provider_url provider_model
                                provider_format provider_name];
       repeat split; try congruence; try discriminate; auto;
       try (intros [Hc | Hc]; try discriminate;
            first [now rewrite Hc | vm_compute in Hc; discriminate]);
       try (destruct (contains (lit "anthropic") u) eqn:Hu;
            [now left | discriminate]);
       try (intros Hf; vm_compute in Hf; discriminate);
       try (intros _; now destruct (contains (lit "anthropic") u)) ]).
Qed.

End CloudConfig.

(** ** Where the pipeline writes (pipeline.py) *)

Section PipelineWrites.
Context {FS : Type} `{FileSystem FS}.

Lemma write_built_confined (output_dir : str) (kept : FS -> Prop) :
  (forall d fs, kept fs -> kept (snd (makedirs d fs))) ->
  (forall p c fs, startswith (output_dir ++ sep) p = true -> kept fs ->
                  kept (snd (open_write p c fs))) ->
  forall built_files written fs,
    kept fs ->
    Forall (fun p => startswith (output_dir ++ sep) p = true) written ->
    kept (snd (write_built output_dir built_files written fs)) /\
    Forall (fun p => startswith (output_dir ++ sep) p = true)
           (snd (fst (write_built output_dir built_files written fs))).
Proof.
  intros Hdirs Hfiles.
  induction built_files as [|[rel_path code] rest IH]; intros written fs Hfs Hwritten;
    cbn [write_built]; [now split|].
  destruct (startswith (output_dir ++ sep) (realpath fs (path_join output_dir rel_path)))
    eqn:Hinside; cbn [negb]; [|now apply IH].
  set (full_path := realpath fs (path_join output_dir rel_path)) in *.
  set (dir := if truthy (dirname full_path) then dirname full_path else output_dir).
  pose proof (Hdirs dir fs Hfs) as Hfs1.
  destruct (makedirs dir fs) as [[e|] fs1]; cbn [fst snd] in *; [now split|].
  pose proof (Hfiles full_path code fs1 Hinside Hfs1) as Hfs2.
  destruct (open_write full_path code fs1) as [[e|] fs2]; cbn [fst snd] in *;
    [now split|].
  apply IH; [exact Hfs2|]. apply Forall_app. split; [exact Hwritten|]. now constructor.
Qed.

(** X26: stage_write touches the file system only by creating directories
    and by writing files strictly below the resolved output directory:
    whatever those two operations keep true of the file system is still
    true afterwards, and every path it reports as written lies below the
    output directory.  With an output directory outside the home directory
    it writes nothing. *)
Theorem stage_write_stays_in_output_dir :
  forall (requested : option str) (built_files : list (str * str)) (fs : FS)
         (kept : FS -> Prop),
    let home_dir := expanduser (lit "~") in
    let output_dir :=
      realpath fs (match requested with
                   | Some d => d
                   | None => path_join (path_join home_dir (lit "projects"))
                                       (lit "output")
                   end) in
    (forall d fs', kept fs' -> kept (snd (makedirs d fs'))) ->
    (forall p c fs', startswith (output_dir ++ sep) p = true -> kept fs' ->
                     kept (snd (open_write p c fs'))) ->
    kept fs ->
    kept (snd (stage_write requested built_files fs)) /\
    Forall (fun p => startswith (output_dir ++ sep) p = true)
           (snd (fst (stage_write requested built_files fs))) /\
    (~ in_subtree home_dir output_dir ->
     stage_write requested built_files fs = ((None, []), fs)).
Proof.
  intros requested built_files fs kept home_dir output_dir Hdirs Hfiles Hfs.
  unfold stage_write. fold home_dir. fold output_dir.
  destruct (negb (startswith (home_dir ++ sep) output_dir)
            && negb (str_eqb output_dir home_dir)) eqn:Houtside.
  { repeat split; auto. }
  assert (Hunder : in_subtree home_dir output_dir).
  { apply under_spec. unfold under.
    destruct (startswith (home_dir ++ sep) output_dir); [reflexivity|].
    destruct (str_eqb output_dir home_dir); [reflexivity | discriminate]. }
  pose proof (Hdirs output_dir fs Hfs) as Hfs1.
  destruct (makedirs output_dir fs) as [[e|] fs1]; cbn [fst snd] in *.
  { repeat split; auto. intros Hout. contradiction. }
  destruct (write_built_confined output_dir kept Hdirs Hfiles built_files [] fs1 Hfs1
              (List.Forall_nil _)) as [Hkept Hwritten].
  repeat split; auto. intros Hout. contradiction.
Qed.

End PipelineWrites.

(** A build that names a file by an absolute path: the file of that name
    is left alone, the other file is written. *)
Lemma stage_write_stays_in_output_dir_witness :
  let built := [(lit "/etc/passwd", lit "evil"); (lit "a.py", lit "pass")] in
  let run := stage_write None built etc_passwd in
  file_lookup (snd run) (lit "/etc/passwd") = Some (lit "root:x:0:0") /\
  snd (fst run) = [lit "/home/bolt/projects/output/a.py"].
Proof.
  intros built run. split; [|vm_compute; reflexivity].
  apply (stage_write_stays_in_output_dir None built etc_passwd
           (fun fs => file_lookup fs (lit "/etc/passwd") = Some (lit "root:x:0:0"))).
  - intros d fs' Hkept. exact Hkept.
  - intros p c fs' Hbelow Hkept. cbn [open_write flat_fs snd file_lookup].
    destruct (str_eqb p (lit "/etc/passwd")) eqn:Hsame; [|exact Hkept].
    apply str_eqb_eq in Hsame. subst p. vm_compute in Hbelow. discriminate.
  - reflexivity.
Defined.

(** ** Which messages the context keeps (memory.py) *)

Section ContextWindow.

Lemma select_recent_prefix (budget : Z) :
  forall rows total,
    exists rest,
      rows = select_recent budget total rows ++ rest /\
      (forall r rest', rest = r :: rest' ->
         budget < total + charged (select_recent budget total rows) + row_cost r).
Proof.
  induction rows as [|row rows IH]; intros total; cbn [select_recent].
  - exists []. split; [reflexivity | discriminate].
  - destruct (Z.gtb_spec (total + row_cost row) budget) as [Hover|Hfits].
    + exists (row :: rows). split; [reflexivity|].
      intros r rest' [= <- <-]. unfold charged. cbn. lia.
    + destruct (IH (total + row_cost row)) as (rest & Hrows & Hnext).
      exists rest. split; [cbn; now f_equal|].
      intros r rest' Hrest. specialize (Hnext r rest' Hrest).
      unfold charged in *. cbn. lia.
Qed.

(** The chosen rows are the newest of the window, as many as fit. *)
Lemma newest_selection (budget : Z) (recent : list MsgRow) :
  let selected := rev (select_recent budget 0 (rev recent)) in
  exists older,
    recent = older ++ selected /\
    (selected <> [] -> charged selected <= budget) /\
    (forall r, last older = Some r -> budget < charged selected + row_cost r).
Proof.
  intros selected. subst selected.
  destruct (select_recent_prefix budget (rev recent) 0) as (rest & Hrows & Hnext).
  exists (rev rest). rewrite charged_rev. split; [|split].
  - rewrite <- rev_app_distr, <- Hrows. now rewrite rev_involutive.
  - intros Hsome. destruct (select_recent_fits budget 0 (rev recent)) as [Hnone | Hle];
      [now rewrite Hnone in Hsome | lia].
  - intros r Hlast. destruct rest as [|r0 rest']; [discriminate|].
    cbn [rev] in Hlast. rewrite last_snoc in Hlast. injection Hlast as ->.
    specialize (Hnext r rest' eq_refl). lia.
Qed.

Lemma wire_role_on_wire (r : str) : on_wire (wire_role r) = true.
Proof.
  unfold wire_role.
  destruct (str_eqb r (lit "tool") || str_eqb r (lit "tool_result")); [reflexivity|].
  destruct (str_eqb r (lit "user") || str_eqb r (lit "assistant")
            || str_eqb r (lit "system")) eqn:Hwire; [exact Hwire | reflexivity].
Qed.

(** Names the system lines of an assembled context and what is left of the
    budget. *)
Ltac name_system_lines :=
  cbn [app];
  match goal with
  | |- context [select_recent ?b 0 (rev ?recent)] =>
      destruct (newest_selection b recent) as (older & Hsplit & Hfit & Hnext);
      match goal with
      | |- exists _ _ _, ?a1 :: ?a2 :: ?a3 :: map wire_message ?sel = _ /\ _ =>
          exists [a1; a2; a3], older, sel
      | |- exists _ _ _, ?a1 :: ?a2 :: map wire_message ?sel = _ /\ _ =>
          exists [a1; a2], older, sel
      | |- exists _ _ _, ?a1 :: map wire_message ?sel = _ /\ _ =>
          exists [a1], older, sel
      | |- exists _ _ _, map wire_message ?sel = _ /\ _ =>
          exists [], older, sel
      end
  end.

(** X27: build_context returns at most three system lines (the prompt,
    the summary, the task) followed by stored messages of the session,
    which are the newest of its last 50, in order and without gaps: as
    many as the budget left by the lines pays for, so that the next older
    message, if there is one, would not have fitted.  Every role in the
    context is one of the wire format. *)
Theorem build_context_keeps_newest_messages :
  forall (session_id system_prompt : str) (st : Store),
    exists lines older selected,
      build_context session_id system_prompt st = lines ++ map wire_message selected /\
      Forall (fun m => role m = lit "system") lines /\ (length lines <= 3)%nat /\
      get_recent_messages session_id 50 st = older ++ selected /\
      (selected <> [] ->
       context_cost lines + charged selected <= MAX_CONTEXT_TOKENS) /\
      (forall r, last older = Some r ->
                 MAX_CONTEXT_TOKENS < context_cost lines + charged selected + row_cost r) /\
      Forall (fun m => on_wire (role m) = true)
             (build_context session_id system_prompt st).
Proof.
  intros session_id system_prompt st. unfold build_context.
  destruct (truthy system_prompt);
    destruct (get_latest_summary session_id st) as [summary|];
    destruct (get_active_task st) as [task|];
    cbn beta iota zeta;
    repeat match goal with
           | |- context [Z.ltb ?a ?b] =>
               lazymatch b with
               | context [Z.ltb _ _] => fail
               | _ => destruct (Z.ltb a b); cbn beta iota zeta
               end
           end;
    name_system_lines;
    (split; [reflexivity|]);
    (split; [repeat (apply List.Forall_cons; [reflexivity|]); apply List.Forall_nil|]);
    (split; [cbn; lia|]);
    (split; [exact Hsplit|]);
    (split; [intros Hsome; specialize (Hfit Hsome);
             unfold context_cost, message_cost; cbn [map fold_right content]; lia|]);
    (split; [intros r Hlast; specialize (Hnext r Hlast);
             unfold context_cost, message_cost; cbn [map fold_right content]; lia|]);
    repeat (apply List.Forall_cons; [reflexivity|]);
    apply List.Forall_forall; intros m (r & <- & _)%in_map_iff;
    apply wire_role_on_wire.
Qed.

End ContextWindow.

(** ** Reading the profile back (identity.py) *)

Section ProfileReadBack.

Lemma dict_get_set {V} (k k' : str) (v : V) (d : list (str * V)) :
  dict_get k (dict_set k' v d) = if str_eqb k' k then Some v else dict_get k d.
Proof.
  induction d as [|[k0 v0] d IH]; cbn [dict_set dict_get]; [reflexivity|].
  destruct (str_eqb k0 k') eqn:Hsame; cbn [dict_get].
  - apply str_eqb_eq in Hsame. subst k0. now destruct (str_eqb k' k).
  - rewrite IH. destruct (str_eqb k' k) eqn:Hk'; [|reflexivity].
    destruct (str_eqb k0 k) eqn:Hk0; [|reflexivity].
    apply str_eqb_eq in Hk', Hk0. subst. now rewrite str_eqb_refl in Hsame.
Qed.

Lemma insert_row_perm r rows : Permutation (insert_row r rows) (r :: rows).
Proof.
  induction rows as [|x rows IH]; cbn [insert_row]; [reflexivity|].
  destruct (key_leb (fst r) (fst x)); [reflexivity|].
  rewrite IH. apply perm_swap.
Qed.

(** The rows of the query are the rows of the table, sorted. *)
Lemma profile_rows_perm (st : Store) :
  Permutation (profile_rows st) (map_to_list (profile st)).
Proof.
  unfold profile_rows. induction (map_to_list (profile st)) as [|r rows IH];
    cbn [foldr]; [reflexivity|].
  now rewrite insert_row_perm, IH.
Qed.

Lemma profile_rows_keyed (st : Store) : NoDup (map fst (profile_rows st)).
Proof.
  rewrite (Permutation_map fst (profile_rows_perm st)).
  apply (NoDup_fst_map_to_list (profile st)).
Qed.

Lemma profile_rows_stored (st : Store) (c k : str) (f : Fact) :
  In ((c, k), f) (profile_rows st) <-> profile st !! (c, k) = Some f.
Proof.
  rewrite <- elem_of_map_to_list, <- list_elem_of_In.
  now rewrite (profile_rows_perm st).
Qed.

Lemma get_profile_fold (c k : str) :
  forall (rows : list ((str * str) * Fact)) (prof : list (str * list (str * Fact))),
    NoDup (map fst rows) ->
    dict_get c
      (fold_left
         (fun prof r =>
            let cat := fst (fst r) in
            let facts := match dict_get cat prof with Some fs => fs | None => [] end in
            dict_set cat (dict_set (snd (fst r)) (snd r) facts) prof)
         rows prof) ≫= dict_get k
    = match List.find (fun r => str_eqb (fst (fst r)) c && str_eqb (snd (fst r)) k) rows with
      | Some r => Some (snd r)
      | None => dict_get c prof ≫= dict_get k
      end.
Proof.
  induction rows as [|[[c' k'] f] rows IH]; intros prof Hkeys; [reflexivity|].
  cbn [fold_left List.find fst snd]. apply NoDup_cons in Hkeys as [Hfresh Hkeys].
  rewrite (IH _ Hkeys).
  destruct (List.find _ rows) as [[[c2 k2] f2]|] eqn:Hfind.
  - apply find_some in Hfind as [Hin Hhit]. cbn [fst snd] in Hhit.
    destruct (str_eqb c' c && str_eqb k' k) eqn:Hhere; [|reflexivity].
    apply andb_true_iff in Hhit as [->%str_eqb_eq ->%str_eqb_eq].
    apply andb_true_iff in Hhere as [->%str_eqb_eq ->%str_eqb_eq].
    exfalso. apply Hfresh. apply list_elem_of_In.
    apply (in_map fst) in Hin. exact Hin.
  - rewrite dict_get_set. destruct (str_eqb c' c) eqn:Hc; cbn [andb]; [|reflexivity].
    apply str_eqb_eq in Hc. subst c'. cbn [mbind option_bind].
    rewrite dict_get_set. destruct (str_eqb k' k); [reflexivity|].
    now destruct (dict_get c prof).
Qed.

(** X28: get_profile returns the stored facts and nothing else: under a
    category and a key it holds the value and the confidence of the row
    stored for them, and nothing where no row is stored. *)
Theorem get_profile_returns_stored_facts :
  forall (st : Store) (category key : str),
    let entry := dict_get category (get_profile st) ≫= dict_get key in
    fact_value <$> entry = stored_value category key st /\
    fact_confidence <$> entry = stored_confidence category key st.
Proof.
  intros st category key entry.
  assert (Hentry : entry = profile st !! (category, key)).
  { subst entry. unfold get_profile.
    rewrite (get_profile_fold category key _ _ (profile_rows_keyed st)).
    destruct (List.find _ (profile_rows st)) as [[[c k] f]|] eqn:Hfind.
    - apply find_some in Hfind as [Hin Hhit]. cbn [fst snd] in *.
      apply andb_true_iff in Hhit as [->%str_eqb_eq ->%str_eqb_eq].
      symmetry. now apply profile_rows_stored.
    - cbn. destruct (profile st !! (category, key)) as [f|] eqn:Hstored; [|reflexivity].
      apply profile_rows_stored in Hstored.
      apply (find_none _ _ Hfind) in Hstored. cbn [fst snd] in Hstored.
      now rewrite !str_eqb_refl in Hstored. }
  unfold stored_value, stored_confidence. now rewrite Hentry.
Qed.

End ProfileReadBack.
